(** * Buffered flash operations of the Black Magic Debug target layer

    A shallow embedding of [src/target/target_flash.c] and the properties
    of its erase, write and completion paths.

    Conventions of the embedding.
    - [target_addr_t], [uint32_t] and [size_t] are 32-bit unsigned integers
      (the probe firmware is an ILP32 build); they are modelled as [Z] with
      the wrap-around written out by [wrap32].
    - A [target_flash_s *] is the position of the region in the target's
      [flash] chain; the pointee is a [target_flash] record.  Functions that
      take such a pointer take the position and the record, and give the
      updated record back.
    - The device, the allocator and the hooks live outside this file.  They
      are functions on an abstract environment state [D] and do not write
      the bookkeeping fields of the region or target they are given; every
      call into them is recorded in a trace, newest event first.
    - Loops take a bound on the number of iterations.  [None] means that the
      bound was exhausted or that the C behaviour is undefined (division by
      zero, access outside the scratch buffer or the caller's source). *)

From Stdlib Require Import ZArith List Bool Lia.
From Stdlib Require Import Init.Byte.
Import ListNotations.
Local Open Scope Z_scope.

(** ** 32-bit arithmetic *)

Definition UINT32_MAX : Z := 4294967295.

Definition wrap32 (x : Z) : Z := x mod 4294967296.

(** [~x] on a 32-bit unsigned operand. *)
Definition not32 (x : Z) : Z := wrap32 (Z.lnot x).

(** [addr & ~(size - 1U)] *)
Definition align_down (addr size : Z) : Z :=
  Z.land addr (not32 (wrap32 (size - 1))).

(** The geometry the alignment idiom is written for: a power of two that
    fits 32 bits. *)
Definition is_pow2 (x : Z) : bool :=
  existsb (fun n => x =? 2 ^ Z.of_nat n) (seq 0 32).

(** ** Scratch buffer primitives *)

(** Reading [n] bytes at offset [off]; undefined outside the block. *)
Definition read_bytes (b : list byte) (off n : Z) : option (list byte) :=
  if (0 <=? off) && (0 <=? n) && (off + n <=? Z.of_nat (List.length b))
  then Some (firstn (Z.to_nat n) (skipn (Z.to_nat off) b))
  else None.

(** [memcpy(buf + off, src, |chunk|)]; undefined outside the block. *)
Definition memcpy_at (b : list byte) (off : Z) (chunk : list byte) : option (list byte) :=
  if (0 <=? off) && (off + Z.of_nat (List.length chunk) <=? Z.of_nat (List.length b))
  then Some (firstn (Z.to_nat off) b ++ chunk
             ++ skipn (Z.to_nat off + List.length chunk) b)
  else None.

(** [memset(buf, c, n)]; undefined when the block is shorter than [n]. *)
Definition memset (b : list byte) (c : byte) (n : Z) : option (list byte) :=
  if (0 <=? n) && (n <=? Z.of_nat (List.length b))
  then Some (repeat c (Z.to_nat n) ++ skipn (Z.to_nat n) b)
  else None.

(** ** Trace of calls *)

(** An event is a call together with what it returned.  The [Ev] events
    leave this file (hooks, reset, allocator) or touch the scratch buffer;
    the [Call] events mark the entry of a function of this file. *)
Inductive event : Type :=
| EvEnterFlashMode (ok : bool)                       (* t->enter_flash_mode(t) *)
| EvExitFlashMode (ok : bool)                        (* t->exit_flash_mode(t) *)
| EvReset                                            (* target_reset(t) *)
| EvPrepare (f : nat) (ok : bool)                    (* f->prepare(f) *)
| EvDone (f : nat) (ok : bool)                       (* f->done(f) *)
| EvErase (f : nat) (addr len : Z) (rc : Z)          (* f->erase(f, addr, len) *)
| EvWrite (f : nat) (dest : Z) (src : list byte) (len : Z) (rc : Z)
                                                     (* f->write(f, dest, src, len) *)
| EvMalloc (f : nat) (size : Z) (ok : bool)          (* malloc(f->writebufsize) *)
| EvFree (f : nat)                                   (* free(f->buf) *)
| EvCopy (f : nat) (dest : Z) (src : list byte)      (* memcpy of a chunk bound for dest *)
| CallFlush (f : nat) (low high : Z)                 (* flash_buffered_flush(f) entered *)
| CallDone (f : nat)                                 (* flash_done(f) entered *)
| CallBufferedWrite (f : nat) (dest len : Z).        (* flash_buffered_write(f, dest, _, len) entered *)

Section Embedding.

(** Environment state: the device behind the hooks and the heap. *)
Context {D : Type}.

(** [malloc(size)]: the environment decides whether a block is available
    and what it initially holds. *)
Variable malloc : D -> Z -> D * option (nat -> byte).

(** [target_reset(t)], defined outside this file. *)
Variable target_reset : D -> D.

Record world : Type := { dev : D; trace : list event }.

Definition emit (e : event) (w : world) : world :=
  {| dev := dev w; trace := e :: trace w |}.

(** Calling into the environment: the call is recorded, the environment
    moves on and hands back a result. *)
Definition call {A : Type} (ev : A -> event) (h : D -> D * A) (w : world) : A * world :=
  let '(d, r) := h (dev w) in (r, {| dev := d; trace := ev r :: trace w |}).

(** [struct target_flash] *)
Record target_flash : Type := {
  start : Z;
  length : Z;
  blocksize : Z;
  writesize : Z;
  writebufsize : Z;
  erased : byte;
  ready : bool;
  prepare : option (D -> D * bool);
  erase : Z -> Z -> D -> D * Z;
  write : Z -> list byte -> Z -> D -> D * Z;
  done : option (D -> D * bool);
  buf : option (list byte);
  buf_addr_base : Z;
  buf_addr_low : Z;
  buf_addr_high : Z
}.

Definition set_ready (f : target_flash) (r : bool) : target_flash :=
  {| start := start f; length := length f; blocksize := blocksize f;
     writesize := writesize f; writebufsize := writebufsize f;
     erased := erased f; ready := r; prepare := prepare f; erase := erase f;
     write := write f; done := done f; buf := buf f;
     buf_addr_base := buf_addr_base f; buf_addr_low := buf_addr_low f;
     buf_addr_high := buf_addr_high f |}.

Definition set_buf (f : target_flash) (b : option (list byte)) : target_flash :=
  {| start := start f; length := length f; blocksize := blocksize f;
     writesize := writesize f; writebufsize := writebufsize f;
     erased := erased f; ready := ready f; prepare := prepare f; erase := erase f;
     write := write f; done := done f; buf := b;
     buf_addr_base := buf_addr_base f; buf_addr_low := buf_addr_low f;
     buf_addr_high := buf_addr_high f |}.

Definition set_buf_addr (f : target_flash) (base low high : Z) : target_flash :=
  {| start := start f; length := length f; blocksize := blocksize f;
     writesize := writesize f; writebufsize := writebufsize f;
     erased := erased f; ready := ready f; prepare := prepare f; erase := erase f;
     write := write f; done := done f; buf := buf f;
     buf_addr_base := base; buf_addr_low := low; buf_addr_high := high |}.

(** [struct target], as far as this file reads it. *)
Record target : Type := {
  flash : list target_flash;
  flash_mode : bool;
  enter_flash_mode : option (D -> D * bool);
  exit_flash_mode : option (D -> D * bool)
}.

Definition set_flash (t : target) (l : list target_flash) : target :=
  {| flash := l; flash_mode := flash_mode t;
     enter_flash_mode := enter_flash_mode t; exit_flash_mode := exit_flash_mode t |}.

Definition set_flash_mode (t : target) (m : bool) : target :=
  {| flash := flash t; flash_mode := m;
     enter_flash_mode := enter_flash_mode t; exit_flash_mode := exit_flash_mode t |}.

(** Storing through a [target_flash_s *]. *)
Fixpoint store (p : nat) (f : target_flash) (l : list target_flash) : list target_flash :=
  match l, p with
  | [], _ => []
  | _ :: l', O => f :: l'
  | g :: l', S p' => g :: store p' f l'
  end.

(** ** target_flash_for_addr *)

Fixpoint flash_for_addr_from (p : nat) (l : list target_flash) (addr : Z) : option nat :=
  match l with
  | [] => None
  | f :: l' =>
      if (start f <=? addr) && (addr <? wrap32 (start f + length f))
      then Some p
      else flash_for_addr_from (S p) l' addr
  end.

Definition target_flash_for_addr (t : target) (addr : Z) : option nat :=
  flash_for_addr_from 0 (flash t) addr.

(** ** Flash mode *)

Definition target_enter_flash_mode (t : target) (w : world) : bool * target * world :=
  if flash_mode t then (true, t, w)
  else
    let '(ret, w1) :=
      match enter_flash_mode t with
      | Some hook => call EvEnterFlashMode hook w
      | None => call (fun _ => EvReset) (fun d => (target_reset d, true)) w
      end in
    (ret, if ret then set_flash_mode t true else t, w1).

Definition target_exit_flash_mode (t : target) (w : world) : bool * target * world :=
  if negb (flash_mode t) then (true, t, w)
  else
    let '(ret, w1) :=
      match exit_flash_mode t with
      | Some hook => call EvExitFlashMode hook w
      | None => call (fun _ => EvReset) (fun d => (target_reset d, true)) w
      end in
    (ret, set_flash_mode t false, w1).

(** ** Region preparation *)

Definition flash_prepare (p : nat) (f : target_flash) (w : world)
  : bool * target_flash * world :=
  if ready f then (true, f, w)
  else
    let '(ret, w1) :=
      match prepare f with
      | Some hook => call (EvPrepare p) hook w
      | None => (true, w)
      end in
    (ret, if ret then set_ready f true else f, w1).

Definition flash_done (p : nat) (f : target_flash) (w : world)
  : bool * target_flash * world :=
  let w := emit (CallDone p) w in
  if negb (ready f) then (true, f, w)
  else
    let '(ret, w1) :=
      match done f with
      | Some hook => call (EvDone p) hook w
      | None => (true, w)
      end in
    let '(f1, w2) :=
      match buf f with
      | Some _ => (set_buf f None, emit (EvFree p) w1)
      | None => (f, w1)
      end in
    (ret, set_ready f1 false, w2).

(** ** flash_buffered_flush *)

(** The [while (len)] loop of the flush; [src] is the offset of the read
    pointer inside the scratch buffer [b]. *)
Fixpoint flush_loop (fuel : nat) (p : nat) (f : target_flash) (b : list byte)
    (aligned_addr src len : Z) (ret : bool) (w : world) : option (bool * world) :=
  if len =? 0 then Some (ret, w)
  else
    match fuel with
    | O => None
    | S fuel' =>
        match read_bytes b src (writesize f) with
        | None => None
        | Some data =>
            let '(rc, w1) :=
              call (EvWrite p aligned_addr data (writesize f))
                   (write f aligned_addr data (writesize f)) w in
            flush_loop fuel' p f b
              (wrap32 (aligned_addr + writesize f))
              (src + writesize f)
              (len - Z.min len (writesize f))
              (ret && (rc =? 0)) w1
        end
    end.

Definition flash_buffered_flush (fuel : nat) (p : nat) (f : target_flash) (w : world)
  : option (bool * target_flash * world) :=
  let w := emit (CallFlush p (buf_addr_low f) (buf_addr_high f)) w in
  match buf f with
  | Some b =>
      if negb (buf_addr_base f =? UINT32_MAX) && negb (buf_addr_low f =? UINT32_MAX)
         && (buf_addr_low f <? buf_addr_high f)
      then
        let '(ok, f1, w1) := flash_prepare p f w in
        if negb ok then Some (false, f1, w1)
        else
          let aligned_addr := align_down (buf_addr_low f1) (writesize f1) in
          let src := wrap32 (aligned_addr - buf_addr_base f1) in
          let len := wrap32 (buf_addr_high f1 - aligned_addr) in
          match flush_loop fuel p f1 b aligned_addr src len true w1 with
          | None => None
          | Some (ret, w2) => Some (ret, set_buf_addr f1 UINT32_MAX UINT32_MAX 0, w2)
          end
      else Some (true, f, w)
  | None => Some (true, f, w)
  end.

(** ** flash_buffered_write *)

(** [dest % f->writebufsize] and [MIN(f->writebufsize - offset, len)]. *)
Definition chunk_offset (f : target_flash) (dest : Z) : Z :=
  dest mod writebufsize f.

Definition chunk_len (f : target_flash) (dest len : Z) : Z :=
  Z.min (wrap32 (writebufsize f - chunk_offset f dest)) len.

(** The check for a change of the base address at the head of the loop
    body: flush what is buffered, then take over the new page and fill
    the buffer with the erased value. *)
Definition buffer_setup (fuel0 : nat) (p : nat) (f : target_flash) (dest : Z)
    (ret : bool) (w : world) : option (bool * target_flash * world) :=
  let base_addr := align_down dest (writebufsize f) in
  if negb (base_addr =? buf_addr_base f) then
    match flash_buffered_flush fuel0 p f w with
    | None => None
    | Some (r, f1, w1) =>
        match buf f1 with
        | None => None
        | Some b =>
            match memset b (erased f1) (writebufsize f1) with
            | None => None
            | Some b' =>
                Some (ret && r,
                      set_buf (set_buf_addr f1 base_addr (buf_addr_low f1)
                                            (buf_addr_high f1)) (Some b'),
                      w1)
            end
        end
    end
  else Some (ret, f, w).

(** The [while (len)] loop of the buffered write.  [fuel0] bounds the
    flush loops it starts. *)
Fixpoint buffered_write_loop (fuel0 fuel : nat) (p : nat) (f : target_flash)
    (dest : Z) (src : list byte) (len : Z) (ret : bool) (w : world)
  : option (bool * target_flash * world) :=
  if len =? 0 then Some (ret, f, w)
  else
    match fuel with
    | O => None
    | S fuel' =>
        if writebufsize f =? 0 then None
        else
          match buffer_setup fuel0 p f dest ret w with
          | None => None
          | Some (ret1, f1, w1) =>
              let offset := chunk_offset f1 dest in
              let local_len := chunk_len f1 dest len in
              if Z.of_nat (List.length src) <? local_len then None
              else
                let chunk := firstn (Z.to_nat local_len) src in
                match buf f1 with
                | None => None
                | Some b =>
                    match memcpy_at b offset chunk with
                    | None => None
                    | Some b' =>
                        let f2 :=
                          set_buf (set_buf_addr f1 (buf_addr_base f1)
                                     (Z.min (buf_addr_low f1) dest)
                                     (Z.max (buf_addr_high f1) (wrap32 (dest + local_len))))
                                  (Some b') in
                        buffered_write_loop fuel0 fuel' p f2
                          (wrap32 (dest + local_len))
                          (skipn (Z.to_nat local_len) src)
                          (len - local_len) ret1
                          (emit (EvCopy p dest chunk) w1)
                    end
                end
          end
    end.

Definition flash_buffered_write (fuel : nat) (p : nat) (f : target_flash)
    (dest : Z) (src : list byte) (len : Z) (w : world)
  : option (bool * target_flash * world) :=
  let w := emit (CallBufferedWrite p dest len) w in
  match buf f with
  | Some _ => buffered_write_loop fuel fuel p f dest src len true w
  | None =>
      let '(m, w1) :=
        call (fun m => EvMalloc p (writebufsize f) (match m with Some _ => true | None => false end))
             (fun d => malloc d (writebufsize f)) w in
      match m with
      | None => Some (false, f, w1)
      | Some init =>
          let b := map init (seq 0 (Z.to_nat (writebufsize f))) in
          let f1 := set_buf (set_buf_addr f UINT32_MAX UINT32_MAX 0) (Some b) in
          buffered_write_loop fuel fuel p f1 dest src len true w1
      end
  end.

(** ** Walking the flash chain *)

(** [for (target_f = t->flash; target_f; target_f = target_f->next)
       if (target_f != f) ret &= body(target_f);]
    with [except = None] for the walk that skips nothing. *)
Fixpoint for_each_flash
    (body : nat -> target_flash -> world -> option (bool * target_flash * world))
    (except : option nat) (p : nat) (l : list target_flash) (ret : bool) (w : world)
  : option (bool * list target_flash * world) :=
  match l with
  | [] => Some (ret, [], w)
  | target_f :: l' =>
      let skip := match except with Some q => Nat.eqb p q | None => false end in
      if skip then
        match for_each_flash body except (S p) l' ret w with
        | None => None
        | Some (r, l'', w') => Some (r, target_f :: l'', w')
        end
      else
        match body p target_f w with
        | None => None
        | Some (r, f', w1) =>
            match for_each_flash body except (S p) l' (ret && r) w1 with
            | None => None
            | Some (r', l'', w') => Some (r', f' :: l'', w')
            end
        end
  end.

(** [ret &= flash_done(target_f);] *)
Definition done_body (p : nat) (f : target_flash) (w : world)
  : option (bool * target_flash * world) :=
  Some (flash_done p f w).

(** [ret &= flash_buffered_flush(target_f); ret &= flash_done(target_f);] *)
Definition flush_done_body (fuel : nat) (p : nat) (f : target_flash) (w : world)
  : option (bool * target_flash * world) :=
  match flash_buffered_flush fuel p f w with
  | None => None
  | Some (r1, f1, w1) =>
      let '(r2, f2, w2) := flash_done p f1 w1 in
      Some (r1 && r2, f2, w2)
  end.

(** ** target_flash_erase *)

Fixpoint erase_loop (fuel : nat) (t : target) (addr len : Z) (ret : bool) (w : world)
  : option (bool * target * world) :=
  if len =? 0 then Some (ret, t, w)
  else
    match fuel with
    | O => None
    | S fuel' =>
        match target_flash_for_addr t addr with
        | None => Some (false, t, w)
        | Some p =>
            match for_each_flash done_body (Some p) 0 (flash t) ret w with
            | None => None
            | Some (ret1, l1, w1) =>
                match nth_error l1 p with
                | None => None
                | Some f =>
                    let local_start_addr := align_down addr (blocksize f) in
                    let local_end_addr := wrap32 (local_start_addr + blocksize f) in
                    let '(ok, f1, w2) := flash_prepare p f w1 in
                    if negb ok then Some (false, set_flash t (store p f1 l1), w2)
                    else
                      let '(rc, w3) :=
                        call (EvErase p local_start_addr (blocksize f1))
                             (erase f1 local_start_addr (blocksize f1)) w2 in
                      let ret2 := ret1 && (rc =? 0) in
                      let len' := len - Z.min (wrap32 (local_end_addr - addr)) len in
                      if len' =? 0 then
                        let '(r, f2, w4) := flash_done p f1 w3 in
                        erase_loop fuel' (set_flash t (store p f2 l1))
                                   local_end_addr len' (ret2 && r) w4
                      else
                        erase_loop fuel' (set_flash t (store p f1 l1))
                                   local_end_addr len' ret2 w3
                end
            end
        end
    end.

Definition target_flash_erase (fuel : nat) (t : target) (addr len : Z) (w : world)
  : option (bool * target * world) :=
  let '(ok, t1, w1) := target_enter_flash_mode t w in
  if negb ok then Some (false, t1, w1)
  else erase_loop fuel t1 addr len true w1.

(** ** target_flash_write *)

Fixpoint write_loop (fuel0 fuel : nat) (t : target) (dest : Z) (src : list byte)
    (len : Z) (ret : bool) (w : world) : option (bool * target * world) :=
  if len =? 0 then Some (ret, t, w)
  else
    match fuel with
    | O => None
    | S fuel' =>
        match target_flash_for_addr t dest with
        | None => Some (false, t, w)
        | Some p =>
            match for_each_flash (flush_done_body fuel0) (Some p) 0 (flash t) ret w with
            | None => None
            | Some (ret1, l1, w1) =>
                match nth_error l1 p with
                | None => None
                | Some f =>
                    let flash_end := wrap32 (start f + length f) in
                    let local_end_addr := Z.min (wrap32 (dest + len)) flash_end in
                    let local_length := wrap32 (local_end_addr - dest) in
                    match flash_buffered_write fuel0 p f dest src local_length w1 with
                    | None => None
                    | Some (r, f1, w2) =>
                        let ret2 := ret1 && r in
                        let src' := skipn (Z.to_nat local_length) src in
                        let len' := wrap32 (len - local_length) in
                        if local_end_addr =? flash_end then
                          match flash_buffered_flush fuel0 p f1 w2 with
                          | None => None
                          | Some (r1, f2, w3) =>
                              let '(r2, f3, w4) := flash_done p f2 w3 in
                              write_loop fuel0 fuel' (set_flash t (store p f3 l1))
                                         local_end_addr src' len' (ret2 && r1 && r2) w4
                          end
                        else
                          write_loop fuel0 fuel' (set_flash t (store p f1 l1))
                                     local_end_addr src' len' ret2 w2
                    end
                end
            end
        end
    end.

Definition target_flash_write (fuel : nat) (t : target) (dest : Z) (src : list byte)
    (len : Z) (w : world) : option (bool * target * world) :=
  let '(ok, t1, w1) := target_enter_flash_mode t w in
  if negb ok then Some (false, t1, w1)
  else write_loop fuel fuel t1 dest src len true w1.

(** ** target_flash_complete *)

Definition target_flash_complete (fuel : nat) (t : target) (w : world)
  : option (bool * target * world) :=
  if negb (flash_mode t) then Some (false, t, w)
  else
    match for_each_flash (flush_done_body fuel) None 0 (flash t) true w with
    | None => None
    | Some (ret, l1, w1) =>
        let '(_, t2, w2) := target_exit_flash_mode (set_flash t l1) w1 in
        Some (ret, t2, w2)
    end.

(** ** A session of writes *)

(** A sequence of [target_flash_write] calls, each request giving the
    destination and the bytes; the length passed is the number of bytes. *)
Fixpoint target_flash_write_all (fuel : nat) (t : target) (reqs : list (Z * list byte))
    (w : world) : option (list bool * target * world) :=
  match reqs with
  | [] => Some ([], t, w)
  | (dest, src) :: rest =>
      match target_flash_write fuel t dest src (Z.of_nat (List.length src)) w with
      | None => None
      | Some (r, t1, w1) =>
          match target_flash_write_all fuel t1 rest w1 with
          | None => None
          | Some (rs, t2, w2) => Some (r :: rs, t2, w2)
          end
      end
  end.

End Embedding.


(** ** Observations on traces *)

(** Number of events of a trace that satisfy [P]. *)
Definition calls (P : event -> bool) (tr : list event) : nat :=
  List.length (filter P tr).

Definition is_prepare_hook (p : nat) (e : event) : bool :=
  match e with EvPrepare q _ => Nat.eqb p q | _ => false end.

Definition is_done_hook (p : nat) (e : event) : bool :=
  match e with EvDone q _ => Nat.eqb p q | _ => false end.

Definition is_free (p : nat) (e : event) : bool :=
  match e with EvFree q => Nat.eqb p q | _ => false end.

(** The erase calls of a trace, as (region, address, length), in the order
    of the trace. *)
Definition erase_calls (tr : list event) : list (nat * Z * Z) :=
  flat_map (fun e => match e with EvErase p a l _ => [(p, a, l)] | _ => [] end) tr.

(** The calls of the write primitive of a trace, as (region, address,
    bytes), in the order of the trace. *)
Definition write_calls (tr : list event) : list (nat * Z * list byte) :=
  flat_map (fun e => match e with EvWrite p a data _ _ => [(p, a, data)] | _ => [] end) tr.

Definition erase_ok (e : event) : bool :=
  match e with EvErase _ _ _ rc => rc =? 0 | _ => true end.

Definition done_ok (e : event) : bool :=
  match e with EvDone _ ok => ok | _ => true end.

(** The static part of a region: geometry and hooks. *)
Definition static {D : Type} (f : @target_flash D) :=
  (start f, length f, blocksize f, writesize f, writebufsize f, erased f,
   prepare f, erase f, write f, done f).

(** The region's prepare hook, if any, never fails. *)
Definition prepare_succeeds {D : Type} (f : @target_flash D) : Prop :=
  match prepare f with
  | Some hook => forall d, snd (hook d) = true
  | None => True
  end.

(** ** The blocks an erase request is expected to reach *)

(** Stated from the specification: the [bs]-aligned blocks that meet
    [addr, addr + len), by start address, in ascending order. *)
Definition covering_blocks (addr len bs : Z) : list Z :=
  map (fun k => bs * (addr / bs + Z.of_nat k))
      (seq 0 (Z.to_nat ((addr + len - 1) / bs - addr / bs + 1))).

Definition is_prepare (e : event) : bool :=
  match e with EvPrepare _ _ => true | _ => false end.

(** ** Buffering events and retirement *)

(** The region an event buffers bytes for: the entry of
    [flash_buffered_write] and the copy of a chunk. *)
Definition buffers_for (e : event) : option nat :=
  match e with
  | CallBufferedWrite p _ _ | EvCopy p _ _ => Some p
  | _ => None
  end.

(** Nothing is buffered by [e]. *)
Definition quiet (e : event) : bool :=
  match buffers_for e with Some _ => false | None => true end.




(** ** What the write primitive is handed *)

(** The byte buffered for address [x] of region [p]: the byte of the latest
    chunk copied over [x] since the region was last written out. *)
Fixpoint pending (p : nat) (tr : list event) (x : Z) : option byte :=
  match tr with
  | [] => None
  | EvCopy q dest chunk :: pre =>
      if Nat.eqb q p && (dest <=? x) && (x <? dest + Z.of_nat (List.length chunk))
      then nth_error chunk (Z.to_nat (x - dest))
      else pending p pre x
  | EvWrite q _ _ _ _ :: pre => if Nat.eqb q p then None else pending p pre x
  | _ :: pre => pending p pre x
  end.

(** The latest entry of [flash_buffered_flush] on region [p]: the dirty
    range it found and the trace before it. *)
Fixpoint last_flush (p : nat) (tr : list event) : option (Z * Z * list event) :=
  match tr with
  | [] => None
  | CallFlush q lo hi :: pre =>
      if Nat.eqb q p then Some (lo, hi, pre) else last_flush p pre
  | _ :: pre => last_flush p pre
  end.

Definition render (er : byte) (o : option byte) : byte :=
  match o with Some v => v | None => er end.

(** A call of the write primitive, seen with the trace [pre] before it:
    it carries [writesize] bytes; each is the byte buffered for its address
    when the flush began, or the erased value where none was buffered; and
    outside the dirty range the flush found it is the erased value.
    [geom] gives a region's [writesize] and erased value. *)
Definition write_ok (geom : nat -> option (Z * byte)) (e : event) (pre : list event) : Prop :=
  match e with
  | EvWrite p a data n _ =>
      match geom p, last_flush p pre with
      | Some (ws, er), Some (lo, hi, before) =>
          n = ws /\ Z.of_nat (List.length data) = ws
          /\ forall k, 0 <= k < ws ->
               nth (Z.to_nat k) data er = render er (pending p before (a + k))
               /\ (~ (lo <= a + k < hi) -> nth (Z.to_nat k) data er = er)
      | _, _ => False
      end
  | _ => True
  end.

Fixpoint writes_ok (geom : nat -> option (Z * byte)) (tr : list event) : Prop :=
  match tr with
  | [] => True
  | e :: pre => write_ok geom e pre /\ writes_ok geom pre
  end.

(** The chunk copied for the addresses from [d] on is what the request
    [(dest, src)] supplies for them. *)
Definition supplied (dest : Z) (src : list byte) (d : Z) (chunk : list byte) : Prop :=
  dest <= d
  /\ d + Z.of_nat (List.length chunk) <= dest + Z.of_nat (List.length src)
  /\ chunk = firstn (List.length chunk) (skipn (Z.to_nat (d - dest)) src).

(** Every chunk copied in the trace is supplied by one of the requests. *)
Definition copies_ok (reqs : list (Z * list byte)) (tr : list event) : Prop :=
  forall p d chunk,
    In (EvCopy p d chunk) tr ->
    exists dest src, In (dest, src) reqs /\ supplied dest src d chunk.

(** [e] changes what is buffered for region [q]. *)
Definition touches (q : nat) (e : event) : bool :=
  match e with
  | EvCopy r _ _ | EvWrite r _ _ _ _ => Nat.eqb r q
  | _ => false
  end.

(** No event of [d] changes what is buffered for region [q]. *)
Definition untouched (q : nat) (d : list event) : Prop :=
  forallb (fun e => negb (touches q e)) d = true.

Definition is_copy (e : event) : bool :=
  match e with EvCopy _ _ _ => true | _ => false end.

(** [d] holds nothing but calls of the write primitive of region [p]. *)
Definition only_writes (p : nat) (d : list event) : Prop :=
  forallb (fun e => match e with EvWrite q _ _ _ _ => Nat.eqb q p | _ => false end) d = true.

(** The events of [flash_done]. *)
Definition is_done_event (e : event) : bool :=
  match e with CallDone _ | EvDone _ _ | EvFree _ => true | _ => false end.

Definition geometry {D : Type} (l : list (@target_flash D)) (p : nat) : option (Z * byte) :=
  match nth_error l p with
  | Some f => Some (writesize f, erased f)
  | None => None
  end.

(** The geometry the buffered write path is written for, and a prepare
    hook that does not fail. *)
Definition region_ok {D : Type} (f : @target_flash D) : Prop :=
  is_pow2 (writebufsize f) = true
  /\ is_pow2 (writesize f) = true
  /\ writesize f <= writebufsize f
  /\ prepare_succeeds f.

(** ** Representation invariant of the scratch buffer *)

(** No segment is active and nothing is buffered. *)
Definition seg_idle {D : Type} (p : nat) (f : @target_flash D) (hist : list event) : Prop :=
  buf_addr_base f = UINT32_MAX /\ buf_addr_low f = UINT32_MAX /\ buf_addr_high f = 0
  /\ forall x, pending p hist x = None.

(** A segment is active: the page is aligned, the dirty range lies in
    it, what is buffered lies in the dirty range, and the buffer holds the
    buffered bytes over the erased fill. *)
Definition seg_active {D : Type} (p : nat) (f : @target_flash D) (b : list byte)
    (hist : list event) : Prop :=
  0 <= buf_addr_base f
  /\ buf_addr_base f mod writebufsize f = 0
  /\ buf_addr_base f <= buf_addr_low f
  /\ buf_addr_low f < buf_addr_high f
  /\ buf_addr_high f <= buf_addr_base f + writebufsize f
  /\ buf_addr_high f <= UINT32_MAX
  /\ (forall x, pending p hist x <> None -> buf_addr_low f <= x < buf_addr_high f)
  /\ (forall k, 0 <= k < writebufsize f ->
        nth (Z.to_nat k) b (erased f)
        = render (erased f) (pending p hist (buf_addr_base f + k))).

Definition seg_inv {D : Type} (p : nat) (f : @target_flash D) (hist : list event) : Prop :=
  match buf f with
  | None => forall x, pending p hist x = None
  | Some b =>
      Z.of_nat (List.length b) = writebufsize f
      /\ (seg_idle p f hist \/ seg_active p f b hist)
  end.

(** The allocator never fails. *)
Definition malloc_succeeds {D : Type} (malloc : D -> Z -> D * option (nat -> byte)) : Prop :=
  forall d n, snd (malloc d n) <> None.

(** What the write path maintains for the region at position [i]: the
    geometry it is written for, the loop bound covering a page, and the
    representation invariant of the buffer. *)
Definition reg_inv {D : Type} (geom : nat -> option (Z * byte)) (fuel : nat)
    (i : nat) (g : @target_flash D) (hist : list event) : Prop :=
  region_ok g
  /\ geom i = Some (writesize g, erased g)
  /\ (Z.to_nat (writebufsize g) <= fuel)%nat
  /\ seg_inv i g hist.

(** ** Further observations *)

(** [addr] lies in the interval [start, start + length) of region [f],
    the end taken without wrap-around. *)
Definition in_interval {D : Type} (f : @target_flash D) (addr : Z) : Prop :=
  start f <= addr < start f + length f.

(** The region is a range of 32-bit addresses that ends below the top
    address. *)
Definition ends_below_top {D : Type} (f : @target_flash D) : Prop :=
  0 <= start f /\ 0 <= length f /\ start f + length f <= UINT32_MAX.

(** [addr] lies in the interval of region [f], as the lookup tests it. *)
Definition in_region {D : Type} (f : @target_flash D) (addr : Z) : Prop :=
  start f <= addr < wrap32 (start f + length f).

(** Two flash chains with the same regions: position by position the
    geometry and the hooks agree. *)
Definition same_regions {D : Type} (l l' : list (@target_flash D)) : Prop :=
  Forall2 (fun f f' => static f' = static f) l l'.

(** The events an erase can add to the trace. *)
Definition erase_family (e : event) : bool :=
  match e with
  | EvEnterFlashMode _ | EvReset | EvPrepare _ _ | EvDone _ _
  | EvErase _ _ _ _ | EvFree _ | CallDone _ => true
  | _ => false
  end.

(** The events a write can add to the trace: no erase, and flash mode is
    not left. *)
Definition write_family (e : event) : bool :=
  match e with
  | EvErase _ _ _ _ | EvExitFlashMode _ => false
  | _ => true
  end.

(** The events [target_flash_complete] can add to the trace. *)
Definition complete_family (e : event) : bool :=
  match e with
  | EvExitFlashMode _ | EvReset | EvPrepare _ _ | EvDone _ _
  | EvWrite _ _ _ _ _ | EvFree _ | CallFlush _ _ _ | CallDone _ => true
  | _ => false
  end.

(** What an event contributes to the result of an operation: the answer
    of the hook, primitive or allocation it records.  The answer of the
    exit-flash-mode hook is not looked at. *)
Definition op_ok (e : event) : bool :=
  match e with
  | EvEnterFlashMode ok | EvPrepare _ ok | EvDone _ ok | EvMalloc _ _ ok => ok
  | EvErase _ _ _ rc | EvWrite _ _ _ _ rc => rc =? 0
  | _ => true
  end.

(** Between the traces [tr] and [tr'] only events of the class [P] were
    added, and [r] is [ret] and-ed with what they answered. *)
Definition tracks (P : event -> bool) (ret r : bool) (tr tr' : list event) : Prop :=
  exists d, tr' = d ++ tr /\ forallb P d = true /\ r = ret && forallb op_ok d.

(** As [tracks], for a loop that can also give up with [false]: a [true]
    result vouches for [ret] and for every answer. *)
Definition vouched (P : event -> bool) (ret r : bool) (tr tr' : list event) : Prop :=
  exists d, tr' = d ++ tr /\ forallb P d = true
            /\ (r = true -> ret = true /\ forallb op_ok d = true).

(** The guard of [flash_buffered_flush] is false: the region holds nothing
    to write out. *)
Definition flushed {D : Type} (f : @target_flash D) : Prop :=
  match buf f with
  | None => True
  | Some _ =>
      buf_addr_base f = UINT32_MAX \/ buf_addr_low f = UINT32_MAX
      \/ buf_addr_high f <= buf_addr_low f
  end.

(** The target after an operation has the regions and the hooks it had
    before, and looks addresses up as before. *)
Definition same_target {D : Type} (t t' : @target D) : Prop :=
  same_regions (flash t) (flash t')
  /\ enter_flash_mode t' = enter_flash_mode t
  /\ exit_flash_mode t' = exit_flash_mode t
  /\ forall x, target_flash_for_addr t' x = target_flash_for_addr t x.

(** The byte [v] was handed to the write primitive of region [p] for the
    address [x] by some call recorded in [tr]. *)
Definition delivered (p : nat) (tr : list event) (x : Z) (v : byte) : Prop :=
  exists a data n rc,
    In (EvWrite p a data n rc) tr
    /\ a <= x < a + Z.of_nat (List.length data)
    /\ nth_error data (Z.to_nat (x - a)) = Some v.

(** The scratch buffer of [f] holds the byte [v] for the address [x],
    inside the dirty range. *)
Definition buffered {D : Type} (f : @target_flash D) (x : Z) (v : byte) : Prop :=
  exists b, buf f = Some b
            /\ buf_addr_base f <= x
            /\ buf_addr_low f <= x < buf_addr_high f
            /\ nth_error b (Z.to_nat (x - buf_addr_base f)) = Some v.

(** A call of [flash_buffered_flush] on region [p] as it is now returns
    and hands the byte [v] to the write primitive for the address [x]. *)
Definition flushed_next {D : Type} (fuel : nat) (p : nat) (f : @target_flash D)
    (x : Z) (v : byte) : Prop :=
  forall w : @world D,
    exists r f' w' d,
      flash_buffered_flush fuel p f w = Some (r, f', w')
      /\ trace w' = d ++ trace w
      /\ delivered p d x v.

(** No request of [reqs] writes to the address [x]. *)
Definition not_rewritten (reqs : list (Z * list byte)) (x : Z) : Prop :=
  Forall (fun r => ~ (fst r <= x < fst r + Z.of_nat (List.length (snd r)))) reqs.

(** The byte [v] for the address [x] of region [p] is accounted for: still
    buffered, or handed to the write primitive. *)
Definition due (p : nat) (tr : list event) (x : Z) (v : byte) : Prop :=
  pending p tr x = Some v \/ delivered p tr x v.

(** The [n] bytes of the scratch buffer [b] that stand for the addresses
    from [a] on, the buffer standing for the page at [base]. *)
Definition buffer_span (b : list byte) (base a n : Z) : list byte :=
  firstn (Z.to_nat n) (skipn (Z.to_nat (a - base)) b).

(** Region [p] of the chain [l] holds the address [x]. *)
Definition holds {D : Type} (l : list (@target_flash D)) (p : nat) (x : Z) : Prop :=
  exists f, nth_error l p = Some f /\ in_region f x.

(** The requests of a session write to pairwise disjoint address ranges. *)
Fixpoint disjoint_requests (reqs : list (Z * list byte)) : Prop :=
  match reqs with
  | [] => True
  | (dest, src) :: rest =>
      Forall (fun r => dest + Z.of_nat (List.length src) <= fst r
                       \/ fst r + Z.of_nat (List.length (snd r)) <= dest) rest
      /\ disjoint_requests rest
  end.

(** Every address of the request belongs to a region of the target. *)
Definition owned {D : Type} (t : @target D) (req : Z * list byte) : Prop :=
  forall k, 0 <= k < Z.of_nat (List.length (snd req)) ->
            target_flash_for_addr t (fst req + k) <> None.

(** The events that carry bytes: a copy into a scratch buffer and a call of
    a write primitive. *)
Definition moves_data (e : event) : bool :=
  match e with
  | EvCopy _ _ _ | EvWrite _ _ _ _ _ => true
  | _ => false
  end.

(** An erase call [(p, a, n)] is within reach of the request
    [addr, addr + len) on the chain [l]: it is for one whole block of
    region [p], aligned to the block size, and the block holds an address
    of the request that lies in the region. *)
Definition erase_within {D : Type} (l : list (@target_flash D)) (addr len : Z)
    (c : nat * Z * Z) : Prop :=
  let '(p, a, n) := c in
  exists f x,
    nth_error l p = Some f /\ n = blocksize f /\ a mod n = 0
    /\ addr <= x < addr + len /\ in_region f x /\ a <= x < a + n.

(** The events that change the mode of the target: the enter and exit
    hooks and the reset. *)
Definition mode_event (e : event) : bool :=
  match e with
  | EvEnterFlashMode _ | EvExitFlashMode _ | EvReset => true
  | _ => false
  end.

(** ** Preparation seen in the trace *)

(** Whether region [p] is prepared after the events of [tr], having been
    so or not ([init]) before them: a prepare hook that succeeds prepares
    it, [flash_done] retires it. *)
Fixpoint prepared (p : nat) (init : bool) (tr : list event) : bool :=
  match tr with
  | [] => init
  | EvPrepare q ok :: pre => if Nat.eqb q p && ok then true else prepared p init pre
  | CallDone q :: pre => if Nat.eqb q p then false else prepared p init pre
  | _ :: pre => prepared p init pre
  end.

(** Region [p] of the chain has a prepare hook; its [ready] flag. *)
Definition hooked {D : Type} (l : list (@target_flash D)) (p : nat) : bool :=
  match nth_error l p with
  | Some f => match prepare f with Some _ => true | None => false end
  | None => false
  end.

Definition ready_of {D : Type} (l : list (@target_flash D)) (p : nat) : bool :=
  match nth_error l p with Some f => ready f | None => false end.

(** Every call of an erase or write primitive in [tr] on a region with a
    prepare hook finds the region prepared. *)
Fixpoint primitives_prepared (hk init : nat -> bool) (tr : list event) : Prop :=
  match tr with
  | [] => True
  | e :: pre =>
      match e with
      | EvErase p _ _ _ | EvWrite p _ _ _ _ =>
          hk p = true -> prepared p (init p) pre = true
      | _ => True
      end /\ primitives_prepared hk init pre
  end.

(** The [ready] flag of a region with a prepare hook is what the trace
    tells. *)
Definition prep_inv {D : Type} (hk init : nat -> bool) (p : nat) (f : @target_flash D)
    (hist : list event) : Prop :=
  hk p = true -> prepare f <> None /\ ready f = prepared p (init p) hist.

(** The events [d] of an operation on region [p] that leaves it as [f']. *)
Definition region_step {D : Type} (hk init : nat -> bool) (p : nat) (hist : list event)
    (f' : @target_flash D) (d : list event) : Prop :=
  prep_inv hk init p f' (d ++ hist)
  /\ primitives_prepared hk init (d ++ hist)
  /\ forall q, q <> p -> prepared q (init q) (d ++ hist) = prepared q (init q) hist.

(** The same for a chain. *)
Definition chain_inv {D : Type} (hk init : nat -> bool) (l : list (@target_flash D))
    (hist : list event) : Prop :=
  forall p f, nth_error l p = Some f -> prep_inv hk init p f hist.

(** An event that is neither a prepare hook, an entry of [flash_done]
    nor a primitive. *)
Definition neutral (e : event) : bool :=
  match e with
  | EvPrepare _ _ | CallDone _ | EvErase _ _ _ _ | EvWrite _ _ _ _ _ => false
  | _ => true
  end.

(** A region that was ready ([f0]) is still ready or has lost its buffer. *)
Definition kept_or_freed {D : Type} (f0 f : @target_flash D) : Prop :=
  ready f0 = true -> ready f = true \/ buf f = None.

(** * Example targets *)

(** A device without state: hooks and primitives answer a fixed result. *)
Module Examples.

Definition hook (ok : bool) : unit -> unit * bool := fun d => (d, ok).

Definition primitive (rc : Z) : unit -> unit * Z := fun d => (d, rc).

Definition heap : unit -> Z -> unit * option (nat -> byte) :=
  fun d _ => (d, Some (fun _ => x00)).

Definition no_reset : unit -> unit := fun d => d.

(** A region as it is after [target_add_flash]: not ready, no buffer. *)
Definition region (s l bs ws wbs : Z) (prep dn : option (unit -> unit * bool))
    (erase_rc write_rc : Z) : @target_flash unit :=
  {| start := s; length := l; blocksize := bs; writesize := ws; writebufsize := wbs;
     erased := xff; ready := false; prepare := prep;
     erase := fun _ _ => primitive erase_rc;
     write := fun _ _ _ => primitive write_rc;
     done := dn; buf := None;
     buf_addr_base := 0; buf_addr_low := 0; buf_addr_high := 0 |}.

(** Region A of the specification's scenarios and its neighbour. *)
Definition region_a : @target_flash unit :=
  region 0x08000000 0x1000 0x400 0x10 0x100 (Some (hook true)) (Some (hook true)) 0 0.

Definition region_b : @target_flash unit :=
  region 0x08001000 0x1000 0x400 0x10 0x100 (Some (hook true)) (Some (hook true)) 0 0.

Definition board : @target unit :=
  {| flash := [region_a; region_b]; flash_mode := false;
     enter_flash_mode := None; exit_flash_mode := None |}.

Definition power_on : @world unit := {| dev := tt; trace := [] |}.

(** The board once flash mode is entered. *)
Definition board_in_flash_mode : @target unit := set_flash_mode board true.

(** A board whose enter-flash-mode hook fails. *)
Definition locked_board : @target unit :=
  {| flash := [region_a; region_b]; flash_mode := false;
     enter_flash_mode := Some (hook false); exit_flash_mode := Some (hook false) |}.

(** Region A with a prepare hook that fails. *)
Definition region_unprepared : @target_flash unit :=
  region 0x08000000 0x1000 0x400 0x10 0x100 (Some (hook false)) (Some (hook true)) 0 0.

Definition board_unprepared : @target unit :=
  {| flash := [region_unprepared]; flash_mode := false;
     enter_flash_mode := None; exit_flash_mode := None |}.

(** Region A with a done hook that fails. *)
Definition region_done_fails : @target_flash unit :=
  region 0x08000000 0x1000 0x400 0x10 0x100 (Some (hook true)) (Some (hook false)) 0 0.

Definition board_done_fails : @target unit :=
  {| flash := [region_done_fails]; flash_mode := false;
     enter_flash_mode := None; exit_flash_mode := None |}.

(** Region A with an erase primitive that fails. *)
Definition board_erase_fails : @target unit :=
  {| flash := [region 0x08000000 0x1000 0x400 0x10 0x100
                      (Some (hook true)) (Some (hook true)) 1 0];
     flash_mode := false; enter_flash_mode := None; exit_flash_mode := None |}.

(** A small page with two bytes buffered at its end; [prep] is the
    prepare hook and [write_rc] what the write primitive answers. *)
Definition dirty_region (prep : option (unit -> unit * bool)) (write_rc : Z)
  : @target_flash unit :=
  {| start := 0x08000000; length := 0x1000; blocksize := 0x400;
     writesize := 4; writebufsize := 8;
     erased := xff; ready := false; prepare := prep;
     erase := fun _ _ => primitive 0;
     write := fun _ _ _ => primitive write_rc;
     done := None;
     buf := Some [xff; xff; xff; xff; xff; xff; x01; x02];
     buf_addr_base := 0x08000000; buf_addr_low := 0x08000006;
     buf_addr_high := 0x08000008 |}.

(** Sixteen bytes, as in the write scenario. *)
Definition sixteen : list byte :=
  [x00; x01; x02; x03; x04; x05; x06; x07; x08; x09; x0a; x0b; x0c; x0d; x0e; x0f].

(** A board in flash mode whose first region holds two unflushed bytes and
    is not prepared yet. *)
Definition dirty_board : @target unit :=
  {| flash := [dirty_region (Some (hook true)) 0; region_b]; flash_mode := true;
     enter_flash_mode := None; exit_flash_mode := Some (hook false) |}.

(** An allocator without memory. *)
Definition no_heap : unit -> Z -> unit * option (nat -> byte) :=
  fun d _ => (d, None).

(** A board whose first region is prepared and holds two unflushed
    bytes. *)
Definition stale_board : @target unit :=
  {| flash := [set_ready (dirty_region (Some (hook true)) 0) true; region_b];
     flash_mode := false; enter_flash_mode := None; exit_flash_mode := None |}.

(** A region whose write size is not a power of two: 12-byte writes from
    a 16-byte buffer, no hooks. *)
Definition odd_region : @target_flash unit :=
  region 0x08000000 0x1000 0x400 12 16 None None 0 0.

Definition odd_board : @target unit :=
  {| flash := [odd_region]; flash_mode := true;
     enter_flash_mode := None; exit_flash_mode := None |}.

End Examples.
(** * Properties *)

(** ** Alignment arithmetic *)

Lemma is_pow2_spec (x : Z) :
  is_pow2 x = true -> exists n, 0 <= n < 32 /\ x = 2 ^ n.
Proof.
  unfold is_pow2. rewrite existsb_exists. intros [k [Hin Hk]].
  apply in_seq in Hin. apply Z.eqb_eq in Hk.
  exists (Z.of_nat k). split; [lia | exact Hk].
Qed.

Lemma pow2_range (n : Z) : 0 <= n < 32 -> 0 < 2 ^ n < 4294967296.
Proof.
  intros Hn. split.
  - apply Z.pow_pos_nonneg; lia.
  - change 4294967296 with (2 ^ 32). apply Z.pow_lt_mono_r; lia.
Qed.

Lemma is_pow2_range (x : Z) : is_pow2 x = true -> 0 < x < 4294967296.
Proof.
  intros H. destruct (is_pow2_spec x H) as [n [Hn ->]]. now apply pow2_range.
Qed.

Lemma wrap32_small (x : Z) : 0 <= x < 4294967296 -> wrap32 x = x.
Proof. intros H. unfold wrap32. now apply Z.mod_small. Qed.

Lemma wrap32_range (x : Z) : 0 <= wrap32 x < 4294967296.
Proof. unfold wrap32. apply Z.mod_pos_bound. lia. Qed.

Lemma testbit_high32 (a i : Z) :
  0 <= a < 4294967296 -> 32 <= i -> Z.testbit a i = false.
Proof.
  intros Ha Hi. rewrite <- (Z.mod_small a (2 ^ 32)) by (change (2 ^ 32) with 4294967296; lia).
  apply Z.mod_pow2_bits_high. lia.
Qed.

Lemma align_down_pow2 (a n : Z) :
  0 <= a < 4294967296 -> 0 <= n < 32 ->
  align_down a (2 ^ n) = a - a mod 2 ^ n.
Proof.
  intros Ha Hn. unfold align_down, not32.
  rewrite (wrap32_small (2 ^ n - 1)) by (pose proof (pow2_range n Hn); lia).
  replace (a - a mod 2 ^ n) with (Z.ldiff a (Z.ones n)).
  2:{ rewrite Z.ldiff_ones_r by lia.
      rewrite Z.shiftl_mul_pow2, Z.shiftr_div_pow2 by lia.
      pose proof (Z.div_mod a (2 ^ n)). pose proof (pow2_range n Hn). lia. }
  replace (2 ^ n - 1) with (Z.ones n) by (rewrite Z.ones_equiv; lia).
  apply Z.bits_inj'. intros i Hi.
  rewrite Z.land_spec, Z.ldiff_spec. unfold wrap32. change 4294967296 with (2 ^ 32).
  destruct (Z.ltb_spec i 32).
  - rewrite Z.mod_pow2_bits_low by lia. rewrite Z.lnot_spec by lia. reflexivity.
  - rewrite Z.mod_pow2_bits_high by lia. rewrite (testbit_high32 a i) by lia. reflexivity.
Qed.

Lemma align_down_is_pow2 (a s : Z) :
  0 <= a < 4294967296 -> is_pow2 s = true -> align_down a s = a - a mod s.
Proof.
  intros Ha Hs. destruct (is_pow2_spec s Hs) as [n [Hn ->]]. now apply align_down_pow2.
Qed.

Lemma wrap32_sub_l (a b : Z) : wrap32 (wrap32 a - b) = wrap32 (a - b).
Proof. unfold wrap32. apply Zminus_mod_idemp_l. Qed.

Lemma wrap32_add_l (a b : Z) : wrap32 (wrap32 a + b) = wrap32 (a + b).
Proof. unfold wrap32. apply Zplus_mod_idemp_l. Qed.

(** ** Covering blocks *)

Lemma covering_blocks_last addr len bs :
  0 < bs -> 0 <= addr -> 0 < len -> len <= bs * (addr / bs) + bs - addr ->
  covering_blocks addr len bs = [bs * (addr / bs)].
Proof.
  intros Hbs Ha Hl Hle. unfold covering_blocks.
  assert (E : (addr + len - 1) / bs = addr / bs).
  { symmetry. apply Z.div_unique with (r := addr + len - 1 - bs * (addr / bs)).
    - left. pose proof (Z.mul_div_le addr bs Hbs). lia.
    - lia. }
  rewrite E. replace (addr / bs - addr / bs + 1) with 1 by lia. simpl.
  rewrite Z.add_0_r. reflexivity.
Qed.

Lemma covering_blocks_cons addr len bs :
  0 < bs -> 0 <= addr -> bs * (addr / bs) + bs - addr < len ->
  covering_blocks addr len bs =
  bs * (addr / bs)
  :: covering_blocks (bs * (addr / bs) + bs) (len - (bs * (addr / bs) + bs - addr)) bs.
Proof.
  intros Hbs Ha Hlt. unfold covering_blocks.
  set (q := addr / bs).
  assert (E1 : (bs * q + bs) / bs = q + 1).
  { replace (bs * q + bs) with ((q + 1) * bs) by lia. apply Z.div_mul. lia. }
  rewrite E1.
  replace (bs * q + bs + (len - (bs * q + bs - addr)) - 1) with (addr + len - 1) by lia.
  assert (Hq : q + 1 <= (addr + len - 1) / bs).
  { apply Z.div_le_lower_bound; lia. }
  replace (Z.to_nat ((addr + len - 1) / bs - q + 1))
    with (S (Z.to_nat ((addr + len - 1) / bs - (q + 1) + 1))) by lia.
  simpl. rewrite Z.add_0_r. f_equal.
  rewrite <- seq_shift, map_map. apply map_ext. intros k. f_equal. lia.
Qed.

Lemma covering_blocks_spec addr len bs b :
  0 < bs -> 0 <= addr -> 0 < len ->
  In b (covering_blocks addr len bs) <->
  (b mod bs = 0 /\ b < addr + len /\ addr < b + bs).
Proof.
  intros Hbs Ha Hl. unfold covering_blocks. rewrite in_map_iff. split.
  - intros [k [<- Hk]]. apply in_seq in Hk.
    assert (Hhi : addr / bs + Z.of_nat k <= (addr + len - 1) / bs) by lia.
    pose proof (Z.mul_div_le (addr + len - 1) bs Hbs).
    pose proof (Z.mul_succ_div_gt addr bs Hbs).
    split; [|split].
    + rewrite Z.mul_comm. apply Z.mod_mul. lia.
    + nia.
    + nia.
  - intros [Hm [Hlo Hhi]].
    apply Z.mod_divide in Hm; [|lia]. destruct Hm as [c ->].
    assert (addr / bs < c + 1).
    { apply Z.div_lt_upper_bound; nia. }
    assert (c <= (addr + len - 1) / bs).
    { apply Z.div_le_lower_bound; nia. }
    exists (Z.to_nat (c - addr / bs)). split.
    + rewrite Z2Nat.id by lia. ring.
    + apply in_seq. lia.
Qed.

Lemma covering_blocks_NoDup addr len bs : 0 < bs -> NoDup (covering_blocks addr len bs).
Proof.
  intros Hbs. unfold covering_blocks.
  generalize (Z.to_nat ((addr + len - 1) / bs - addr / bs + 1)) as n.
  generalize (addr / bs) as q. intros q n. generalize 0%nat as s.
  induction n as [|n IH]; intros s; simpl; constructor.
  - rewrite in_map_iff. intros [k [Hk Hin]]. apply in_seq in Hin. nia.
  - apply IH.
Qed.

(** ** Mode controller and region preparation *)

Ltac break_match_in H :=
  match type of H with
  | context [match ?x with _ => _ end] => destruct x eqn:?
  end.

Ltac break_match_goal :=
  match goal with
  | |- context [match ?x with _ => _ end] => destruct x eqn:?
  end.

Section Properties.

Context {D : Type}.
Variable malloc : D -> Z -> D * option (nat -> byte).
Variable target_reset : D -> D.

Implicit Types (t : @target D) (w : @world D) (f : @target_flash D).

Lemma flash_mode_set_flash t l : flash_mode (set_flash t l) = flash_mode t.
Proof. reflexivity. Qed.

Lemma enter_flash_mode_true t t1 w w1 :
  target_enter_flash_mode target_reset t w = (true, t1, w1) -> flash_mode t1 = true.
Proof.
  unfold target_enter_flash_mode. destruct (flash_mode t) eqn:Hm.
  - intros H. inversion H; subst. exact Hm.
  - destruct (enter_flash_mode t); unfold call;
      [destruct (p (dev w)) as [d r] | ]; intros H; inversion H; subst; reflexivity.
Qed.

Lemma erase_loop_flash_mode fuel : forall t addr len ret w r t' w',
  erase_loop fuel t addr len ret w = Some (r, t', w') -> flash_mode t' = flash_mode t.
Proof.
  induction fuel as [|fuel IH]; intros t addr len ret w r t' w' H; simpl in H.
  - destruct (len =? 0); [inversion H; reflexivity | discriminate].
  - repeat break_match_in H; try discriminate;
      try (inversion H; subst; reflexivity);
      apply IH in H; exact H.
Qed.

Lemma write_loop_flash_mode fuel0 fuel : forall t dest src len ret w r t' w',
  write_loop malloc fuel0 fuel t dest src len ret w = Some (r, t', w') ->
  flash_mode t' = flash_mode t.
Proof.
  induction fuel as [|fuel IH]; intros t dest src len ret w r t' w' H; simpl in H.
  - destruct (len =? 0); [inversion H; reflexivity | discriminate].
  - repeat break_match_in H; try discriminate;
      try (inversion H; subst; reflexivity);
      apply IH in H; exact H.
Qed.

Lemma exit_flash_mode_flag t w :
  flash_mode (snd (fst (target_exit_flash_mode target_reset t w))) = false.
Proof.
  unfold target_exit_flash_mode. destruct (flash_mode t) eqn:Hm; simpl.
  - destruct (exit_flash_mode t) as [hook|]; unfold call.
    + destruct (hook (dev w)); reflexivity.
    + reflexivity.
  - exact Hm.
Qed.

(** C7: leaving flash mode always clears [flash_mode], whatever the exit
    hook returns; on a target that is not in flash mode it returns [true]
    and calls nothing. *)
Theorem target_exit_flash_mode_clears t w :
  (flash_mode t = true ->
   flash_mode (snd (fst (target_exit_flash_mode target_reset t w))) = false)
  /\ (flash_mode t = false ->
      target_exit_flash_mode target_reset t w = (true, t, w)).
Proof.
  split; intros Hm.
  - apply exit_flash_mode_flag.
  - unfold target_exit_flash_mode. rewrite Hm. reflexivity.
Qed.

(** C5: outside flash mode [target_flash_complete] returns [false]; the
    trace, the environment, the target and its regions are left as they
    were. *)
Theorem target_flash_complete_not_in_flash_mode (fuel : nat) t w :
  flash_mode t = false ->
  target_flash_complete target_reset fuel t w = Some (false, t, w).
Proof.
  intros Hm. unfold target_flash_complete. rewrite Hm. reflexivity.
Qed.

(** C4 (as amended): when the first of two consecutive [flash_prepare]
    calls succeeds, the prepare hook runs at most once and the second call
    returns [true] without touching anything; two consecutive [flash_done]
    calls run the done hook at most once and free the buffer at most once,
    the first leaving the region not ready with, if it was ready, a NULL
    buffer, and the second only recording its entry. *)
Theorem flash_prepare_done_idempotent (p : nat) f w :
  let '(r1, f1, w1) := flash_prepare p f w in
  let '(r2, f2, w2) := flash_prepare p f1 w1 in
  let '(_, g1, v1) := flash_done p f w in
  let '(s2, g2, v2) := flash_done p g1 v1 in
  (r1 = true ->
   r2 = true /\ f2 = f1 /\ w2 = w1 /\ ready f1 = true /\
   (calls (is_prepare_hook p) (trace w2) <= calls (is_prepare_hook p) (trace w) + 1)%nat)
  /\ (calls (is_done_hook p) (trace v2) <= calls (is_done_hook p) (trace w) + 1)%nat
  /\ (calls (is_free p) (trace v2) <= calls (is_free p) (trace w) + 1)%nat
  /\ ready g1 = false
  /\ (ready f = true -> buf g1 = None)
  /\ s2 = true /\ g2 = g1 /\ trace v2 = CallDone p :: trace v1.
Proof.
  unfold flash_prepare, flash_done, call, emit, calls.
  destruct f as [st ln bs ws wbs er rd pr era wr dn bf bb bl bh]; simpl.
  destruct rd; simpl.
  - destruct dn as [h|]; [destruct (h (dev w)) as [d r]|]; destruct bf; simpl;
      rewrite ?Nat.eqb_refl; simpl; repeat split; auto; try lia.
  - destruct pr as [h|]; [destruct (h (dev w)) as [d r]; destruct r|]; simpl;
      rewrite ?Nat.eqb_refl; simpl; repeat break_match_goal; simpl;
      repeat split; auto; try lia; try discriminate.
Qed.

(** C6 (as amended): on a region with an active buffer segment whose
    preparation succeeds, every return of [flash_buffered_flush] leaves the
    three sentinels reset, whatever the write primitive answered, and the
    buffer holds what it held. *)
Theorem flash_buffered_flush_resets_sentinels
    (fuel p : nat) f w (b : list byte) :
  buf f = Some b ->
  buf_addr_base f <> UINT32_MAX ->
  buf_addr_low f <> UINT32_MAX ->
  buf_addr_low f < buf_addr_high f ->
  fst (fst (flash_prepare p f (emit (CallFlush p (buf_addr_low f) (buf_addr_high f)) w))) = true ->
  forall r f' w',
    flash_buffered_flush fuel p f w = Some (r, f', w') ->
    buf_addr_base f' = UINT32_MAX /\ buf_addr_low f' = UINT32_MAX /\ buf_addr_high f' = 0
    /\ buf f' = Some b.
Proof.
  intros Hb Hbase Hlow Hlt Hprep r f' w' H.
  unfold flash_buffered_flush in H. rewrite Hb in H.
  apply Z.eqb_neq in Hbase. apply Z.eqb_neq in Hlow. apply Z.ltb_lt in Hlt.
  rewrite Hbase, Hlow, Hlt in H. simpl in H.
  destruct (flash_prepare p f _) as [[ok f1] w1] eqn:Hp. simpl in Hprep. subst ok.
  simpl in H.
  assert (Hbuf : buf f1 = buf f).
  { unfold flash_prepare in Hp. repeat break_match_in Hp; inversion Hp; subst; reflexivity. }
  destruct (flush_loop _ _ _ _ _ _ _ _ _) as [[ret w2]|]; [|discriminate].
  inversion H; subst. simpl. rewrite Hbuf, Hb. auto.
Qed.

(** C10: once flash mode has been entered, [target_flash_erase] and
    [target_flash_write] return with [flash_mode] still set, whatever they
    return; [target_flash_complete] is the call that clears it. *)
Theorem erase_write_keep_flash_mode
    (fuel : nat) t (addr len : Z) (src : list byte) w :
  fst (fst (target_enter_flash_mode target_reset t w)) = true ->
  (forall r t' w',
     target_flash_erase target_reset fuel t addr len w = Some (r, t', w') ->
     flash_mode t' = true)
  /\ (forall r t' w',
        target_flash_write malloc target_reset fuel t addr src len w = Some (r, t', w') ->
        flash_mode t' = true)
  /\ (forall r t' w' r2 t2 w2,
        target_flash_write malloc target_reset fuel t addr src len w = Some (r, t', w') ->
        target_flash_complete target_reset fuel t' w' = Some (r2, t2, w2) ->
        flash_mode t2 = false).
Proof.
  intros Hen.
  destruct (target_enter_flash_mode target_reset t w) as [[ok t1] w1] eqn:He.
  simpl in Hen. subst ok. pose proof (enter_flash_mode_true _ _ _ _ He) as Hm.
  assert (Hw : forall r t' w',
             target_flash_write malloc target_reset fuel t addr src len w = Some (r, t', w') ->
             flash_mode t' = true).
  { intros r t' w' H. unfold target_flash_write in H. rewrite He in H. simpl in H.
    apply write_loop_flash_mode in H. congruence. }
  split; [|split].
  - intros r t' w' H. unfold target_flash_erase in H. rewrite He in H. simpl in H.
    apply erase_loop_flash_mode in H. congruence.
  - exact Hw.
  - intros r t' w' r2 t2 w2 H1 H2. apply Hw in H1.
    unfold target_flash_complete in H2. rewrite H1 in H2. simpl in H2.
    destruct (for_each_flash _ _ _ _ _ _) as [[[ret l1] w3]|]; [|discriminate].
    destruct (target_exit_flash_mode target_reset (set_flash t' l1) w3) as [[x t3] w4] eqn:Hx.
    inversion H2; subst.
    pose proof (exit_flash_mode_flag (set_flash t' l1) w3) as Hc.
    rewrite Hx in Hc. exact Hc.
Qed.

End Properties.

(** ** Erase orchestration *)

Lemma erase_calls_app (a b : list event) :
  erase_calls (a ++ b) = erase_calls a ++ erase_calls b.
Proof. unfold erase_calls. apply flat_map_app. Qed.

Lemma erase_calls_rev (tr : list event) :
  erase_calls (rev tr) = rev (erase_calls tr).
Proof.
  induction tr as [|e tr IH]; [reflexivity|].
  simpl rev. rewrite erase_calls_app, IH.
  change (erase_calls (e :: tr)) with (erase_calls [e] ++ erase_calls tr).
  rewrite rev_app_distr. f_equal.
  destruct e; reflexivity.
Qed.

Lemma calls_app (P : event -> bool) (a b : list event) :
  calls P (a ++ b) = (calls P a + calls P b)%nat.
Proof. unfold calls. rewrite filter_app. apply length_app. Qed.

(** The events in front of [t] in the trace [l]. *)
Ltac trace_prefix l t :=
  match l with
  | t => constr:(@nil event)
  | ?e :: ?l' => let r := trace_prefix l' t in constr:(e :: r)
  end.

Ltac exists_new :=
  match goal with
  | |- exists new, ?l = new ++ ?t /\ _ => let r := trace_prefix l t in exists r
  end.

Section Erase.

Context {D : Type}.
Variable target_reset : D -> D.
Implicit Types (t : @target D) (w : @world D) (f : @target_flash D).

Lemma flash_prepare_static p f w :
  static (snd (fst (flash_prepare p f w))) = static f.
Proof.
  unfold flash_prepare, call. destruct (ready f); [reflexivity|].
  destruct (prepare f) as [h|]; [destruct (h (dev w)) as [d []]|]; reflexivity.
Qed.

Lemma flash_done_static p f w :
  static (snd (fst (flash_done p f w))) = static f.
Proof.
  unfold flash_done, call, emit. destruct (ready f); [|reflexivity]. simpl.
  destruct (done f) as [h|]; [destruct (h (dev w)) as [d r]|];
    destruct (buf f); reflexivity.
Qed.

Lemma flash_for_addr_static (l l' : list (@target_flash D)) :
  Forall2 (fun f f' => static f' = static f) l l' ->
  forall k x, flash_for_addr_from k l' x = flash_for_addr_from k l x.
Proof.
  induction 1 as [|f f' l l' Hs _ IH]; intros k x; simpl; [reflexivity|].
  assert (E1 : start f' = start f) by (unfold static in Hs; congruence).
  assert (E2 : length f' = length f) by (unfold static in Hs; congruence).
  rewrite IH, E1, E2. reflexivity.
Qed.

Lemma flash_for_addr_bound (l : list (@target_flash D)) :
  forall k x p, flash_for_addr_from k l x = Some p -> x < 4294967296.
Proof.
  induction l as [|f l IH]; intros k x p H; simpl in H; [discriminate|].
  destruct ((start f <=? x) && (x <? wrap32 (start f + length f))) eqn:E.
  - apply andb_prop in E. destruct E as [_ E]. apply Z.ltb_lt in E.
    pose proof (wrap32_range (start f + length f)). lia.
  - eapply IH; eassumption.
Qed.

Lemma store_nth (l : list (@target_flash D)) :
  forall p f g, nth_error l p = Some g -> nth_error (store p f l) p = Some f.
Proof.
  induction l as [|h l IH]; intros [|p] f g H; simpl in *; try discriminate; eauto.
Qed.

Lemma store_Forall2 (R : @target_flash D -> @target_flash D -> Prop) (l l' : list (@target_flash D)) :
  Forall2 R l l' ->
  forall p f f', nth_error l p = Some f -> R f f' -> Forall2 R l (store p f' l').
Proof.
  induction 1 as [|g g' l l' Hg Hl IH]; intros [|p] f f' Hn Hr; simpl in *;
    try discriminate; constructor; eauto.
  inversion Hn; subst. exact Hr.
Qed.

(** What one [flash_done] adds to the trace. *)
Lemma flash_done_spec p f w :
  exists new,
    trace (snd (flash_done p f w)) = new ++ trace w
    /\ erase_calls new = []
    /\ forallb erase_ok new = true
    /\ calls is_prepare new = 0%nat
    /\ fst (fst (flash_done p f w)) = forallb done_ok new.
Proof.
  unfold flash_done, call, emit.
  destruct (ready f); simpl.
  - destruct (done f) as [h|]; [destruct (h (dev w)) as [d r]|];
      destruct (buf f); simpl; exists_new; simpl; rewrite ?andb_true_r; auto.
  - exists [CallDone p]. simpl. auto.
Qed.

(** The walk of the erase path over the regions other than [q]. *)
Lemma done_others_spec (q : nat) (l : list (@target_flash D)) :
  forall k ret w,
  exists r l' w' new,
    for_each_flash done_body (Some q) k l ret w = Some (r, l', w')
    /\ trace w' = new ++ trace w
    /\ Forall2 (fun f f' => static f' = static f) l l'
    /\ (forall i, (k + i)%nat = q -> nth_error l' i = nth_error l i)
    /\ erase_calls new = []
    /\ forallb erase_ok new = true
    /\ calls is_prepare new = 0%nat
    /\ r = ret && forallb done_ok new.
Proof.
  induction l as [|f l IH]; intros k ret w; simpl.
  - exists ret, [], w, []. rewrite andb_true_r. repeat split; auto.
  - destruct (Nat.eqb k q) eqn:Ekq.
    + destruct (IH (S k) ret w) as (r & l' & w' & new & -> & Ht & Hs & Hn & He & Ho & Hc & Hr).
      exists r, (f :: l'), w', new. repeat split; auto.
      intros [|i] Hi; [reflexivity|]. apply Nat.eqb_eq in Ekq. lia.
    + change (done_body k f w) with (Some (flash_done k f w)).
      destruct (flash_done_spec k f w) as (new1 & Ht1 & He1 & Ho1 & Hc1 & Hr1).
      pose proof (flash_done_static k f w) as Hs1.
      destruct (flash_done k f w) as [[r1' f1'] w1'] eqn:Hd'. cbn [fst snd] in *.
      destruct (IH (S k) (ret && r1') w1') as (r & l' & w' & new & Hf & Ht & Hs & Hn & He & Ho & Hc & Hr).
      rewrite Hf.
      exists r, (f1' :: l'), w', (new ++ new1). repeat split; auto.
      * rewrite Ht, Ht1. apply app_assoc.
      * intros [|i] Hi; [apply Nat.eqb_neq in Ekq; lia|]. simpl. apply Hn. lia.
      * rewrite erase_calls_app, He, He1. reflexivity.
      * rewrite forallb_app, Ho, Ho1. reflexivity.
      * rewrite calls_app, Hc, Hc1. reflexivity.
      * rewrite forallb_app, Hr, Hr1.
        destruct ret, (forallb done_ok new), (forallb done_ok new1); reflexivity.
Qed.

Lemma erase_loop_zero fuel t addr ret w :
  erase_loop fuel t addr 0 ret w = Some (ret, t, w).
Proof. destruct fuel; reflexivity. Qed.

Lemma flash_prepare_ok p f w :
  ready f = true \/ prepare_succeeds f ->
  exists f1 w1 new,
    flash_prepare p f w = (true, f1, w1)
    /\ trace w1 = new ++ trace w
    /\ static f1 = static f /\ ready f1 = true
    /\ erase_calls new = [] /\ forallb erase_ok new = true
    /\ forallb done_ok new = true
    /\ (calls is_prepare new <= if ready f then 0 else 1)%nat.
Proof.
  intros H. unfold flash_prepare, prepare_succeeds, call in *.
  destruct (ready f) eqn:Hr.
  - exists f, w, []. auto 10.
  - destruct H as [H|H]; [discriminate|].
    destruct (prepare f) as [h|].
    + specialize (H (dev w)). destruct (h (dev w)) as [d r]. simpl in H. subst r.
      eexists _, _, [EvPrepare p true]. simpl. unfold calls. simpl. auto 10.
    + exists (set_ready f true), w, []. auto 10.
Qed.

Lemma erase_block_arith addr len bs :
  is_pow2 bs = true -> 0 <= addr -> 0 < len -> addr + len <= 4294967296 ->
  align_down addr bs = bs * (addr / bs)
  /\ wrap32 (wrap32 (align_down addr bs + bs) - addr) = align_down addr bs + bs - addr
  /\ 0 < align_down addr bs + bs - addr <= bs
  /\ (align_down addr bs + bs - addr < len ->
      wrap32 (align_down addr bs + bs) = align_down addr bs + bs).
Proof.
  intros Hp Ha Hl Hr. pose proof (is_pow2_range bs Hp) as Hbs.
  rewrite align_down_is_pow2 by (auto; lia).
  pose proof (Z.div_mod addr bs ltac:(lia)).
  pose proof (Z.mod_pos_bound addr bs ltac:(lia)).
  split; [lia|]. rewrite wrap32_sub_l.
  split; [apply wrap32_small; lia|]. split; [lia|].
  intros. apply wrap32_small; lia.
Qed.

Lemma erase_loop_spec p f :
  is_pow2 (blocksize f) = true ->
  forall fuel t addr len ret w f0,
    nth_error (flash t) p = Some f0 -> static f0 = static f ->
    (ready f0 = true \/ prepare_succeeds f) ->
    0 <= addr -> 0 <= len ->
    (forall x, addr <= x < addr + len -> target_flash_for_addr t x = Some p) ->
    (Z.to_nat len <= fuel)%nat ->
    exists r t' w' new,
      erase_loop fuel t addr len ret w = Some (r, t', w')
      /\ trace w' = new ++ trace w
      /\ erase_calls new =
         rev (map (fun b => (p, b, blocksize f))
                  (if len =? 0 then [] else covering_blocks addr len (blocksize f)))
      /\ r = ret && forallb erase_ok new && forallb done_ok new
      /\ (calls is_prepare new <= if ready f0 then 0 else 1)%nat.
Proof.
  intros Hpow. pose proof (is_pow2_range _ Hpow) as Hbs.
  induction fuel as [|fuel IH]; intros t addr len ret w f0 Hnth Hst Hprep Ha Hl Hfind Hfuel.
  - assert (len = 0) by lia. subst len. simpl.
    exists ret, t, w, []. rewrite !andb_true_r. unfold calls.
    repeat split; auto. simpl. destruct (ready f0); lia.
  - destruct (Z.eqb_spec len 0) as [->|Hne].
    { rewrite erase_loop_zero. exists ret, t, w, []. rewrite !andb_true_r. unfold calls.
      repeat split; auto. simpl. destruct (ready f0); lia. }
    assert (Hlpos : 0 < len) by lia.
    assert (Hhi : addr + len <= 4294967296).
    { pose proof (Hfind (addr + len - 1) ltac:(lia)) as Hx.
      apply flash_for_addr_bound in Hx. lia. }
    simpl erase_loop. rewrite (proj2 (Z.eqb_neq len 0) Hne).
    rewrite (Hfind addr ltac:(lia)).
    destruct (done_others_spec p (flash t) 0 ret w)
      as (r1 & l1 & w1 & new1 & Hf1 & Ht1 & Hs1 & Hn1 & He1 & Ho1 & Hc1 & Hr1).
    rewrite Hf1. rewrite (Hn1 p eq_refl), Hnth.
    assert (Hprep0 : ready f0 = true \/ prepare_succeeds f0).
    { destruct Hprep as [?|Hps]; [now left|right].
      unfold prepare_succeeds in *. replace (prepare f0) with (prepare f); [exact Hps|].
      unfold static in Hst. congruence. }
    destruct (flash_prepare_ok p f0 w1 Hprep0)
      as (f1 & w2 & newp & Hp & Ht2 & Hs2 & Hrd & He2 & Ho2 & Hd2 & Hc2).
    rewrite Hp. cbn [negb]. cbv iota.
    assert (Eb0 : blocksize f0 = blocksize f) by (unfold static in Hst; congruence).
    assert (Eb1 : blocksize f1 = blocksize f) by (unfold static in *; congruence).
    rewrite Eb0, Eb1. unfold call.
    destruct (erase f1 (align_down addr (blocksize f)) (blocksize f) (dev w2)) as [d rc].
    destruct (erase_block_arith addr len (blocksize f) Hpow Ha Hlpos Hhi)
      as (Hls & Hstep & Hrange & Hend).
    rewrite Hstep.
    assert (Hst1 : static f1 = static f) by congruence.
    assert (HF2 : forall g, static g = static f ->
               Forall2 (fun f f' => static f' = static f) (flash t) (store p g l1)).
    { intros g Hg. eapply store_Forall2; [exact Hs1 | exact Hnth | congruence]. }
    assert (Hnth1 : nth_error l1 p = Some f0) by (rewrite (Hn1 p eq_refl); exact Hnth).
    destruct (Z.eqb_spec (len - Z.min (align_down addr (blocksize f) + blocksize f - addr) len) 0)
      as [Hz|Hnz].
    + destruct (flash_done_spec p f1 {| dev := d; trace := EvErase p (align_down addr (blocksize f)) (blocksize f) rc :: trace w2 |})
        as (newd & Htd & Hed & Hod & Hcd & Hrd').
      destruct (flash_done p f1 _) as [[rd f2] w4]. cbn [fst snd] in *.
      rewrite Hz, erase_loop_zero.
      eexists _, _, _, (newd ++ [EvErase p (align_down addr (blocksize f)) (blocksize f) rc] ++ newp ++ new1).
      split; [reflexivity|]. split; [|split; [|split]].
      * rewrite Htd. cbn [trace]. rewrite Ht2, Ht1. rewrite <- !app_assoc. reflexivity.
      * rewrite !erase_calls_app, Hed, He2, He1. cbn.
        rewrite covering_blocks_last by lia. rewrite Hls. reflexivity.
      * rewrite !forallb_app, Hod, Ho2, Ho1, Hd2, Hrd', Hr1. cbn.
        rewrite !andb_true_r.
        destruct ret, (forallb done_ok new1), (rc =? 0), (forallb done_ok newd); reflexivity.
      * rewrite !calls_app, Hcd, Hc1. cbn. lia.
    + assert (Hlt : align_down addr (blocksize f) + blocksize f - addr < len) by lia.
      rewrite (Hend Hlt).
      replace (len - Z.min (align_down addr (blocksize f) + blocksize f - addr) len)
        with (len - (align_down addr (blocksize f) + blocksize f - addr)) in * by lia.
      edestruct (IH (set_flash t (store p f1 l1))
                    (align_down addr (blocksize f) + blocksize f)
                    (len - (align_down addr (blocksize f) + blocksize f - addr))
                    (r1 && (rc =? 0))
                    {| dev := d; trace := EvErase p (align_down addr (blocksize f)) (blocksize f) rc :: trace w2 |}
                    f1)
        as (r & t' & w' & new & Hf & Ht & He & Hr & Hc).
      * cbn [flash set_flash]. eapply store_nth; eassumption.
      * exact Hst1.
      * now left.
      * lia.
      * lia.
      * intros x Hx. unfold target_flash_for_addr. cbn [flash set_flash].
        rewrite (flash_for_addr_static _ _ (HF2 f1 Hst1)). apply Hfind. lia.
      * lia.
      * rewrite Hf.
        eexists _, _, _, (new ++ [EvErase p (align_down addr (blocksize f)) (blocksize f) rc] ++ newp ++ new1).
        split; [reflexivity|]. split; [|split; [|split]].
        -- rewrite Ht. cbn [trace]. rewrite Ht2, Ht1. rewrite <- !app_assoc. reflexivity.
        -- rewrite !erase_calls_app, He, He2, He1. cbn.
           rewrite (proj2 (Z.eqb_neq _ 0) Hnz).
           rewrite (covering_blocks_cons addr len) by lia.
           rewrite <- Hls. reflexivity.
        -- rewrite !forallb_app, Ho2, Ho1, Hd2, Hr, Hr1. cbn.
           rewrite !andb_true_r.
           destruct ret, (forallb done_ok new1), (rc =? 0), (forallb erase_ok new),
             (forallb done_ok new); reflexivity.
        -- rewrite !calls_app, Hc1. rewrite Hrd in Hc. cbn. lia.
Qed.

Lemma enter_flash_mode_spec t w t1 w1 :
  target_enter_flash_mode target_reset t w = (true, t1, w1) ->
  flash t1 = flash t
  /\ exists new,
      trace w1 = new ++ trace w
      /\ erase_calls new = [] /\ forallb erase_ok new = true
      /\ forallb done_ok new = true /\ calls is_prepare new = 0%nat.
Proof.
  unfold target_enter_flash_mode, call. destruct (flash_mode t).
  - intros H. inversion H; subst. split; [reflexivity|]. exists []. auto.
  - destruct (enter_flash_mode t) as [h|]; [destruct (h (dev w)) as [d r]|];
      intros H; inversion H; subst; (split; [reflexivity|]);
      cbn [trace]; exists_new; auto.
Qed.

(** C2 (as amended): when flash mode is entered and the region can be
    prepared, an erase request of positive length that lies inside region
    [p], whose block size is a power of two, calls the region's erase
    primitive once for each block-aligned block meeting the range, in
    ascending order, with the block's start and the block size, and makes
    no other erase call. *)
Theorem target_flash_erase_covering_blocks
    (fuel : nat) t (addr len : Z) w (p : nat) f :
  fst (fst (target_enter_flash_mode target_reset t w)) = true ->
  nth_error (flash t) p = Some f ->
  is_pow2 (blocksize f) = true ->
  (ready f = true \/ prepare_succeeds f) ->
  0 <= addr -> 0 < len ->
  (forall x, addr <= x < addr + len -> target_flash_for_addr t x = Some p) ->
  (Z.to_nat len <= fuel)%nat ->
  exists r t' w' new,
    target_flash_erase target_reset fuel t addr len w = Some (r, t', w')
    /\ trace w' = new ++ trace w
    /\ erase_calls (rev new) =
       map (fun b => (p, b, blocksize f)) (covering_blocks addr len (blocksize f))
    /\ NoDup (covering_blocks addr len (blocksize f))
    /\ (forall b, In b (covering_blocks addr len (blocksize f)) <->
                  (b mod blocksize f = 0 /\ b < addr + len /\ addr < b + blocksize f)).
Proof.
  intros Hen Hnth Hpow Hprep Ha Hl Hfind Hfuel.
  pose proof (is_pow2_range _ Hpow) as Hbs.
  unfold target_flash_erase.
  destruct (target_enter_flash_mode target_reset t w) as [[ok t1] w1] eqn:He.
  cbn [fst snd] in Hen. subst ok. cbn [negb].
  destruct (enter_flash_mode_spec _ _ _ _ He) as (Hfl & new0 & Ht0 & He0 & _).
  destruct (erase_loop_spec p f Hpow fuel t1 addr len true w1 f)
    as (r & t' & w' & new & Hrun & Ht & Hec & _); auto; try lia.
  { rewrite Hfl. exact Hnth. }
  { intros x Hx. unfold target_flash_for_addr. rewrite Hfl. now apply Hfind. }
  exists r, t', w', (new ++ new0). split; [exact Hrun|]. split; [|split; [|split]].
  - rewrite Ht, Ht0. apply app_assoc.
  - rewrite erase_calls_rev, erase_calls_app, He0, Hec, app_nil_r, rev_involutive.
    rewrite (proj2 (Z.eqb_neq len 0)) by lia. reflexivity.
  - apply covering_blocks_NoDup. lia.
  - intros b. apply covering_blocks_spec; lia.
Qed.

(** C8 (as amended): under the same conditions the answers of the erase
    primitive do not change which blocks are erased: every covering block
    is erased whatever the earlier calls returned, the region is prepared
    at most once, and the result is the conjunction of all block-erase
    results and of the results of the done hooks run on the way. *)
Theorem target_flash_erase_aggregates_results
    (fuel : nat) t (addr len : Z) w (p : nat) f :
  fst (fst (target_enter_flash_mode target_reset t w)) = true ->
  nth_error (flash t) p = Some f ->
  is_pow2 (blocksize f) = true ->
  (ready f = true \/ prepare_succeeds f) ->
  0 <= addr -> 0 < len ->
  (forall x, addr <= x < addr + len -> target_flash_for_addr t x = Some p) ->
  (Z.to_nat len <= fuel)%nat ->
  exists r t' w' new,
    target_flash_erase target_reset fuel t addr len w = Some (r, t', w')
    /\ trace w' = new ++ trace w
    /\ map fst (erase_calls (rev new)) =
       map (fun b => (p, b)) (covering_blocks addr len (blocksize f))
    /\ (calls is_prepare new <= 1)%nat
    /\ r = forallb erase_ok new && forallb done_ok new.
Proof.
  intros Hen Hnth Hpow Hprep Ha Hl Hfind Hfuel.
  unfold target_flash_erase.
  destruct (target_enter_flash_mode target_reset t w) as [[ok t1] w1] eqn:He.
  cbn [fst snd] in Hen. subst ok. cbn [negb].
  destruct (enter_flash_mode_spec _ _ _ _ He) as (Hfl & new0 & Ht0 & He0 & Ho0 & Hd0 & Hc0).
  destruct (erase_loop_spec p f Hpow fuel t1 addr len true w1 f)
    as (r & t' & w' & new & Hrun & Ht & Hec & Hr & Hc); auto; try lia.
  { rewrite Hfl. exact Hnth. }
  { intros x Hx. unfold target_flash_for_addr. rewrite Hfl. now apply Hfind. }
  exists r, t', w', (new ++ new0). split; [exact Hrun|]. split; [|split; [|split]].
  - rewrite Ht, Ht0. apply app_assoc.
  - rewrite erase_calls_rev, erase_calls_app, He0, Hec, app_nil_r, rev_involutive.
    rewrite (proj2 (Z.eqb_neq len 0)) by lia. rewrite map_map. reflexivity.
  - rewrite calls_app, Hc0. destruct (ready f); lia.
  - rewrite !forallb_app, Ho0, Hd0, Hr, !andb_true_r. reflexivity.
Qed.

End Erase.

(** ** Retirement of the other regions before a buffered write *)








Section Retire.

Context {D : Type}.
Variable malloc : D -> Z -> D * option (nat -> byte).
Variable target_reset : D -> D.
Implicit Types (t : @target D) (w : @world D) (f : @target_flash D).

Lemma flash_prepare_quiet p f w :
  exists d, trace (snd (flash_prepare p f w)) = d ++ trace w /\ forallb quiet d = true.
Proof.
  unfold flash_prepare, call. destruct (ready f); [exists []; auto|].
  destruct (prepare f) as [h|]; [destruct (h (dev w)) as [d0 r]|]; cbn [snd trace].
  - exists [EvPrepare p r]. auto.
  - exists []. auto.
Qed.


Lemma flush_loop_quiet fuel p f b :
  forall aligned_addr src len ret w r w',
    flush_loop fuel p f b aligned_addr src len ret w = Some (r, w') ->
    exists d, trace w' = d ++ trace w /\ forallb quiet d = true.
Proof.
  induction fuel as [|fuel IH]; intros a s len ret w r w' H; simpl in H.
  - destruct (len =? 0); [|discriminate]. inversion H; subst. exists []. auto.
  - destruct (len =? 0). { inversion H; subst. exists []. auto. }
    destruct (read_bytes b s (writesize f)) as [data|]; [|discriminate].
    unfold call in H. destruct (write f a data (writesize f) (dev w)) as [d0 rc].
    apply IH in H. destruct H as (d & Ht & Hq). cbn [trace] in Ht.
    exists (d ++ [EvWrite p a data (writesize f) rc]). split.
    + rewrite Ht, <- app_assoc. reflexivity.
    + rewrite forallb_app, Hq. reflexivity.
Qed.

Lemma flash_buffered_flush_quiet fuel p f w r f' w' :
  flash_buffered_flush fuel p f w = Some (r, f', w') ->
  exists d, trace w' = d ++ CallFlush p (buf_addr_low f) (buf_addr_high f) :: trace w
            /\ forallb quiet d = true.
Proof.
  unfold flash_buffered_flush. intros H.
  destruct (buf f) as [b|]; [|inversion H; subst; exists []; auto].
  destruct (_ && _); [|inversion H; subst; exists []; auto].
  destruct (flash_prepare_quiet p f (emit (CallFlush p (buf_addr_low f) (buf_addr_high f)) w))
    as (d1 & Ht1 & Hq1).
  destruct (flash_prepare p f _) as [[ok f1] w1]. cbn [snd] in Ht1.
  destruct ok; cbn [negb] in H.
  - destruct (flush_loop _ _ _ _ _ _ _ _ _) as [[ret w2]|] eqn:Hl; [|discriminate].
    inversion H; subst. apply flush_loop_quiet in Hl. destruct Hl as (d2 & Ht2 & Hq2).
    exists (d2 ++ d1). split.
    + rewrite Ht2, Ht1, <- app_assoc. reflexivity.
    + rewrite forallb_app, Hq1, Hq2. reflexivity.
  - inversion H; subst. exists d1. auto.
Qed.



Lemma flash_buffered_flush_static fuel p f w r f' w' :
  flash_buffered_flush fuel p f w = Some (r, f', w') -> static f' = static f.
Proof.
  unfold flash_buffered_flush. intros H.
  destruct (buf f); [|inversion H; reflexivity].
  destruct (_ && _); [|inversion H; reflexivity].
  pose proof (flash_prepare_static p f (emit (CallFlush p (buf_addr_low f) (buf_addr_high f)) w)) as Hs.
  destruct (flash_prepare p f _) as [[ok f1] w1]. cbn [fst snd] in Hs.
  destruct ok; cbn [negb] in H.
  - destruct (flush_loop _ _ _ _ _ _ _ _ _) as [[ret w2]|]; [|discriminate].
    inversion H; subst. rewrite <- Hs. reflexivity.
  - inversion H; subst. exact Hs.
Qed.

Lemma buffer_setup_static fuel0 p f dest ret w ret1 f1 w1 :
  buffer_setup fuel0 p f dest ret w = Some (ret1, f1, w1) ->
  static f1 = static f
  /\ exists d1, trace w1 = d1 ++ trace w /\ forallb quiet d1 = true.
Proof.
  unfold buffer_setup. intros Hs. destruct (negb _).
  - destruct (flash_buffered_flush fuel0 p f w) as [[[r0 f0] w0]|] eqn:Hf; [|discriminate].
    destruct (buf f0) as [b0|]; [|discriminate].
    destruct (memset _ _ _); [|discriminate].
    inversion Hs; subst. split.
    + apply flash_buffered_flush_static in Hf. rewrite <- Hf. reflexivity.
    + apply flash_buffered_flush_quiet in Hf. destruct Hf as (d & Ht & Hq).
      exists (d ++ [CallFlush p (buf_addr_low f) (buf_addr_high f)]). split.
      * rewrite Ht, <- app_assoc. reflexivity.
      * rewrite forallb_app, Hq. reflexivity.
  - inversion Hs; subst. split; [reflexivity|]. exists []. auto.
Qed.

Lemma chunk_fits f (dest len : Z) :
  0 < writebufsize f < 4294967296 -> 0 <= dest ->
  0 <= chunk_offset f dest
  /\ chunk_offset f dest + Z.max 0 (chunk_len f dest len) <= writebufsize f.
Proof.
  intros Hw Hd. unfold chunk_len, chunk_offset.
  pose proof (Z.mod_pos_bound dest (writebufsize f) ltac:(lia)) as Hm.
  rewrite wrap32_small by lia. lia.
Qed.

(** Every chunk the copy loop records lies inside the page it is bound for. *)
Lemma buffered_write_loop_chunks fuel0 fuel p :
  forall f dest src len ret w r f' w',
    0 < writebufsize f < 4294967296 -> 0 <= dest ->
    buffered_write_loop fuel0 fuel p f dest src len ret w = Some (r, f', w') ->
    exists d,
      trace w' = d ++ trace w
      /\ forall q x c, In (EvCopy q x c) d ->
           0 <= chunk_offset f x
           /\ chunk_offset f x + Z.of_nat (List.length c) <= writebufsize f.
Proof.
  induction fuel as [|fuel IH]; intros f dest src len ret w r f' w' Hw Hd H; simpl in H.
  - destruct (len =? 0); [|discriminate]. inversion H; subst. exists []. split; [reflexivity|].
    intros q x c [].
  - destruct (len =? 0).
    { inversion H; subst. exists []. split; [reflexivity|]. intros q x c []. }
    destruct (writebufsize f =? 0); [discriminate|].
    destruct (buffer_setup fuel0 p f dest ret w) as [[[ret1 f1] w1]|] eqn:Hs; [|discriminate].
    apply buffer_setup_static in Hs. destruct Hs as (Hst & d1 & Ht1 & Hq1).
    assert (Ewb : writebufsize f1 = writebufsize f) by (unfold static in Hst; congruence).
    destruct (_ <? _); [discriminate|].
    destruct (buf f1) as [b|]; [|discriminate].
    destruct (memcpy_at _ _ _) as [b'|]; [|discriminate].
    apply IH in H; cbn [writebufsize set_buf set_buf_addr]; try (rewrite Ewb; exact Hw).
    2:{ apply wrap32_range. }
    destruct H as (d & Ht & Hc). cbn [trace emit] in Ht.
    exists (d ++ EvCopy p dest (firstn (Z.to_nat (chunk_len f1 dest len)) src) :: d1). split.
    + rewrite Ht, Ht1, <- app_assoc. reflexivity.
    + intros q x c Hin. apply in_app_or in Hin. destruct Hin as [Hin | [Hin | Hin]].
      * specialize (Hc q x c Hin). unfold chunk_offset in *.
        cbn [writebufsize set_buf set_buf_addr] in Hc. rewrite Ewb in Hc. exact Hc.
      * inversion Hin; subst.
        destruct (chunk_fits f x len Hw Hd) as [H0 H1]. split; [exact H0|].
        assert (E : chunk_len f1 x len = chunk_len f x len).
        { unfold chunk_len, chunk_offset. rewrite Ewb. reflexivity. }
        rewrite E. rewrite length_firstn. lia.
      * exfalso. rewrite forallb_forall in Hq1. specialize (Hq1 _ Hin). discriminate.
Qed.

(** C9: with a non-zero [writebufsize], the offset in the page and the
    length of the chunk stay inside the page, the [memcpy] into a buffer of
    [writebufsize] bytes is defined, and every chunk a run of the copy loop
    records fits the page it is bound for. *)
Theorem buffered_write_chunk_in_bounds f (dest len : Z) :
  0 < writebufsize f < 4294967296 -> 0 <= dest -> 0 <= len ->
  0 <= chunk_offset f dest
  /\ 0 <= chunk_len f dest len
  /\ chunk_offset f dest + chunk_len f dest len <= writebufsize f
  /\ (forall b chunk,
        Z.of_nat (List.length b) = writebufsize f ->
        Z.of_nat (List.length chunk) <= chunk_len f dest len ->
        memcpy_at b (chunk_offset f dest) chunk <> None)
  /\ (forall fuel0 fuel p src ret w r f' w',
        buffered_write_loop fuel0 fuel p f dest src len ret w = Some (r, f', w') ->
        exists d,
          trace w' = d ++ trace w
          /\ forall q x c, In (EvCopy q x c) d ->
               0 <= chunk_offset f x
               /\ chunk_offset f x + Z.of_nat (List.length c) <= writebufsize f).
Proof.
  intros Hw Hd Hl.
  split; [|split; [|split; [|split]]].
  - apply (chunk_fits f dest len Hw Hd).
  - unfold chunk_len, chunk_offset.
    pose proof (Z.mod_pos_bound dest (writebufsize f) ltac:(lia)) as Hm.
    rewrite wrap32_small by lia. lia.
  - pose proof (chunk_fits f dest len Hw Hd). lia.
  - intros b chunk Hb Hc. unfold memcpy_at.
    pose proof (chunk_fits f dest len Hw Hd) as [H0 H1].
    replace (0 <=? chunk_offset f dest) with true by (symmetry; apply Z.leb_le; lia).
    replace (chunk_offset f dest + Z.of_nat (List.length chunk) <=? Z.of_nat (List.length b))
      with true by (symmetry; apply Z.leb_le; lia).
    discriminate.
  - intros fuel0 fuel p src ret w r f' w' H.
    exact (buffered_write_loop_chunks fuel0 fuel p f dest src len ret w r f' w' Hw Hd H).
Qed.






End Retire.

(** ** Buffered writes: what reaches the write primitive *)

Lemma pow2_divides (a b : Z) :
  is_pow2 a = true -> is_pow2 b = true -> a <= b -> b mod a = 0.
Proof.
  intros Ha Hb Hle.
  destruct (is_pow2_spec a Ha) as [m [Hm ->]].
  destruct (is_pow2_spec b Hb) as [n [Hn ->]].
  assert (m <= n) by (apply (Z.pow_le_mono_r_iff 2); lia).
  replace n with ((n - m) + m) by lia. rewrite Z.pow_add_r by lia.
  apply Z.mod_mul. pose proof (pow2_range m Hm). lia.
Qed.

Lemma pow2_divides_top (a : Z) : is_pow2 a = true -> 4294967296 mod a = 0.
Proof.
  intros Ha. destruct (is_pow2_spec a Ha) as [m [Hm ->]].
  change 4294967296 with (2 ^ 32). replace 32 with ((32 - m) + m) by lia.
  rewrite Z.pow_add_r by lia. apply Z.mod_mul. pose proof (pow2_range m Hm). lia.
Qed.

Lemma mod0_trans (x a b : Z) : 0 < a -> 0 < b -> b mod a = 0 -> x mod b = 0 -> x mod a = 0.
Proof.
  intros Ha Hb H1 H2.
  apply Z.mod_divide in H1; [|lia]. apply Z.mod_divide in H2; [|lia].
  apply Z.mod_divide; [lia|]. eapply Z.divide_trans; eassumption.
Qed.

Lemma aligned_step (a c s : Z) :
  0 < s -> a mod s = 0 -> c mod s = 0 -> a < c -> a + s <= c.
Proof.
  intros Hs Ha Hc Hlt.
  apply Z.mod_divide in Ha; [|lia]. apply Z.mod_divide in Hc; [|lia].
  destruct Ha as [x ->]. destruct Hc as [y ->].
  assert (x < y) by (apply Z.mul_lt_mono_pos_r with s; lia).
  assert ((x + 1) * s <= y * s) by (apply Z.mul_le_mono_nonneg_r; lia).
  lia.
Qed.

Lemma mod0_add (a s : Z) : 0 < s -> a mod s = 0 -> (a + s) mod s = 0.
Proof.
  intros Hs Ha. rewrite <- (Z.mul_1_l s) at 1. rewrite Z.mod_add by lia. exact Ha.
Qed.

Lemma read_bytes_ok (b : list byte) (off n : Z) (er : byte) :
  0 <= off -> 0 <= n -> off + n <= Z.of_nat (List.length b) ->
  exists data,
    read_bytes b off n = Some data
    /\ Z.of_nat (List.length data) = n
    /\ forall k, 0 <= k < n ->
         nth (Z.to_nat k) data er = nth (Z.to_nat (off + k)) b er.
Proof.
  intros Ho Hn Hb. unfold read_bytes.
  replace (0 <=? off) with true by (symmetry; apply Z.leb_le; lia).
  replace (0 <=? n) with true by (symmetry; apply Z.leb_le; lia).
  replace (off + n <=? Z.of_nat (List.length b)) with true by (symmetry; apply Z.leb_le; lia).
  eexists. split; [reflexivity|]. split.
  - rewrite length_firstn, length_skipn. lia.
  - intros k Hk. rewrite nth_firstn.
    replace (Z.to_nat k <? Z.to_nat n)%nat with true by (symmetry; apply Nat.ltb_lt; lia).
    rewrite nth_skipn. f_equal. lia.
Qed.

Lemma memcpy_at_ok (b : list byte) (off : Z) (chunk : list byte) (er : byte) :
  0 <= off -> off + Z.of_nat (List.length chunk) <= Z.of_nat (List.length b) ->
  exists b',
    memcpy_at b off chunk = Some b'
    /\ List.length b' = List.length b
    /\ forall k, 0 <= k < Z.of_nat (List.length b) ->
         nth (Z.to_nat k) b' er =
         if (off <=? k) && (k <? off + Z.of_nat (List.length chunk))
         then nth (Z.to_nat (k - off)) chunk er
         else nth (Z.to_nat k) b er.
Proof.
  intros Ho Hb. unfold memcpy_at.
  replace (0 <=? off) with true by (symmetry; apply Z.leb_le; lia).
  replace (off + Z.of_nat (List.length chunk) <=? Z.of_nat (List.length b))
    with true by (symmetry; apply Z.leb_le; lia).
  eexists. split; [reflexivity|]. split.
  - rewrite !length_app, length_firstn, length_skipn. lia.
  - intros k Hk.
    assert (Hlf : List.length (firstn (Z.to_nat off) b) = Z.to_nat off).
    { rewrite length_firstn. lia. }
    destruct (Z.leb_spec off k); cbn [andb].
    + rewrite app_nth2 by lia. rewrite Hlf.
      destruct (Z.ltb_spec k (off + Z.of_nat (List.length chunk))).
      * rewrite app_nth1 by lia. f_equal. lia.
      * rewrite app_nth2 by lia. rewrite nth_skipn. f_equal. lia.
    + rewrite app_nth1 by lia. rewrite nth_firstn.
      replace (Z.to_nat k <? Z.to_nat off)%nat with true by (symmetry; apply Nat.ltb_lt; lia).
      reflexivity.
Qed.

Lemma memset_ok (b : list byte) (c : byte) (n : Z) :
  Z.of_nat (List.length b) = n -> memset b c n = Some (repeat c (Z.to_nat n)).
Proof.
  intros Hb. unfold memset.
  replace (0 <=? n) with true by (symmetry; apply Z.leb_le; lia).
  replace (n <=? Z.of_nat (List.length b)) with true by (symmetry; apply Z.leb_le; lia).
  rewrite skipn_all2 by lia. rewrite app_nil_r. reflexivity.
Qed.

Lemma untouched_app (q : nat) (a b : list event) :
  untouched q a -> untouched q b -> untouched q (a ++ b).
Proof. unfold untouched. intros Ha Hb. rewrite forallb_app, Ha, Hb. reflexivity. Qed.

Lemma pending_untouched (q : nat) (d tr : list event) (x : Z) :
  untouched q d -> pending q (d ++ tr) x = pending q tr x.
Proof.
  unfold untouched. induction d as [|e d IH]; [reflexivity|].
  simpl. intros H. apply andb_prop in H. destruct H as [He Hd].
  destruct e; simpl in *; auto;
    destruct (Nat.eqb f q); simpl in *; try discriminate; auto.
Qed.

Lemma writes_ok_app (geom : nat -> option (Z * byte)) (d tr : list event) :
  writes_ok geom tr ->
  forallb (fun e => match e with EvWrite _ _ _ _ _ => false | _ => true end) d = true ->
  writes_ok geom (d ++ tr).
Proof.
  intros Htr. induction d as [|e d IH]; [auto|].
  simpl. intros H. apply andb_prop in H. destruct H as [He Hd].
  split; [|auto]. destruct e; try exact I. discriminate.
Qed.

Lemma only_writes_app (p : nat) (a b : list event) :
  only_writes p a -> only_writes p b -> only_writes p (a ++ b).
Proof. unfold only_writes. intros Ha Hb. rewrite forallb_app, Ha, Hb. reflexivity. Qed.

Lemma only_writes_pending (p : nat) (d tr : list event) (x : Z) :
  only_writes p d -> d <> [] -> pending p (d ++ tr) x = None.
Proof.
  unfold only_writes. destruct d as [|e d]; [congruence|].
  simpl. intros H _. apply andb_prop in H. destruct H as [He _].
  destruct e; try discriminate. rewrite He. reflexivity.
Qed.

Lemma only_writes_untouched (p q : nat) (d : list event) :
  only_writes p d -> q <> p -> untouched q d.
Proof.
  unfold only_writes, untouched. induction d as [|e d IH]; [reflexivity|].
  simpl. intros H Hne. apply andb_prop in H. destruct H as [He Hd].
  rewrite IH by assumption. destruct e; try discriminate. simpl.
  apply Nat.eqb_eq in He. subst f. 
  replace (Nat.eqb p q) with false by (symmetry; apply Nat.eqb_neq; congruence).
  reflexivity.
Qed.

Lemma only_writes_no_copy (p : nat) (d : list event) :
  only_writes p d -> forallb (fun e => negb (is_copy e)) d = true.
Proof.
  unfold only_writes. induction d as [|e d IH]; [reflexivity|].
  simpl. intros H. apply andb_prop in H. destruct H as [He Hd].
  rewrite IH by assumption. destruct e; try discriminate. reflexivity.
Qed.

Lemma only_writes_last_flush (p q : nat) (d tr : list event) :
  only_writes p d -> last_flush q (d ++ tr) = last_flush q tr.
Proof.
  unfold only_writes. induction d as [|e d IH]; [reflexivity|].
  simpl. intros H. apply andb_prop in H. destruct H as [He Hd].
  destruct e; try discriminate. auto.
Qed.

Section Write.

Context {D : Type}.
Variable malloc : D -> Z -> D * option (nat -> byte).
Variable target_reset : D -> D.
Variable geom : nat -> option (Z * byte).
Implicit Types (t : @target D) (w : @world D) (f : @target_flash D).

Lemma flush_loop_ok p f (b : list byte) (lo hi : Z) (before : list event) (base : Z) :
  geom p = Some (writesize f, erased f) ->
  0 < writesize f ->
  Z.of_nat (List.length b) = writebufsize f ->
  0 <= base -> base mod writesize f = 0 ->
  (base + writebufsize f) mod writesize f = 0 ->
  hi <= base + writebufsize f -> base + writebufsize f <= 4294967296 ->
  (forall x, pending p before x <> None -> lo <= x < hi) ->
  (forall k, 0 <= k < writebufsize f ->
     nth (Z.to_nat k) b (erased f) = render (erased f) (pending p before (base + k))) ->
  forall fuel hist aligned src len ret w,
    last_flush p hist = Some (lo, hi, before) ->
    (len = 0 \/ (0 < len /\ aligned + len = hi /\ aligned mod writesize f = 0
                 /\ base <= aligned /\ src = aligned - base)) ->
    (Z.to_nat len <= fuel)%nat ->
    exists r w' d,
      flush_loop fuel p f b aligned src len ret w = Some (r, w')
      /\ trace w' = d ++ trace w
      /\ only_writes p d
      /\ (0 < len -> d <> [])
      /\ (writes_ok geom hist -> writes_ok geom (d ++ hist)).
Proof.
  intros Hgeom Hws Hlen Hbase Hbm Hem Hhi Htop Hrange Hbuf.
  induction fuel as [|fuel IH]; intros hist aligned src len ret w Hlf Hst Hfuel.
  - assert (len = 0) by lia. subst len. simpl.
    exists ret, w, []. repeat split; auto. lia.
  - destruct Hst as [-> | (Hpos & Hsum & Ham & Hba & ->)].
    { simpl. exists ret, w, []. repeat split; auto. lia. }
    simpl flush_loop. rewrite (proj2 (Z.eqb_neq len 0)) by lia.
    assert (Hfit : aligned + writesize f <= base + writebufsize f).
    { apply aligned_step; auto. lia. }
    destruct (read_bytes_ok b (aligned - base) (writesize f) (erased f))
      as (data & Hrd & Hdl & Hdn); try lia.
    rewrite Hrd. unfold call.
    destruct (write f aligned data (writesize f) (dev w)) as [d0 rc].
    set (ev := EvWrite p aligned data (writesize f) rc).
    assert (Hev : write_ok geom ev hist).
    { unfold write_ok, ev. rewrite Hgeom, Hlf. split; [reflexivity|]. split; [exact Hdl|].
      intros k Hk.
      assert (E : nth (Z.to_nat k) data (erased f)
                  = render (erased f) (pending p before (aligned + k))).
      { rewrite Hdn by lia. rewrite Hbuf by lia. f_equal. f_equal. lia. }
      split; [exact E|]. intros Hout. rewrite E.
      destruct (pending p before (aligned + k)) eqn:Hp; [|reflexivity].
      exfalso. apply Hout. apply Hrange. congruence. }
    edestruct (IH (ev :: hist) (wrap32 (aligned + writesize f))
                  (aligned - base + writesize f)
                  (len - Z.min len (writesize f))
                  (ret && (rc =? 0))
                  {| dev := d0; trace := ev :: trace w |})
      as (r & w' & d & Hrun & Ht & Hd & Hne & Hok).
    + simpl. exact Hlf.
    + destruct (Z.le_gt_cases len (writesize f)); [left; lia|right].
      rewrite wrap32_small by lia.
      repeat split; try lia. apply mod0_add; auto.
    + lia.
    + exists r, w', (d ++ [ev]). split; [exact Hrun|]. split; [|split; [|split]].
      * rewrite Ht, <- app_assoc. reflexivity.
      * apply only_writes_app; [exact Hd|]. unfold only_writes. simpl.
        rewrite Nat.eqb_refl. reflexivity.
      * intros _. destruct d; discriminate.
      * intros Hh. rewrite <- app_assoc. apply Hok. simpl. auto.
Qed.

Lemma flash_prepare_true p f w :
  ready f = true \/ prepare_succeeds f ->
  exists f1 w1 dp,
    flash_prepare p f w = (true, f1, w1)
    /\ trace w1 = dp ++ trace w
    /\ static f1 = static f /\ buf f1 = buf f
    /\ buf_addr_base f1 = buf_addr_base f /\ buf_addr_low f1 = buf_addr_low f
    /\ buf_addr_high f1 = buf_addr_high f
    /\ forallb (fun e => match e with EvPrepare _ _ => true | _ => false end) dp = true.
Proof.
  intros H. unfold flash_prepare, prepare_succeeds, call in *.
  destruct (ready f) eqn:Hr.
  - exists f, w, []. auto 10.
  - destruct H as [H|H]; [discriminate|].
    destruct (prepare f) as [h|].
    + specialize (H (dev w)). destruct (h (dev w)) as [d r]. simpl in H. subst r.
      eexists _, _, [EvPrepare p true]. simpl. auto 10.
    + exists (set_ready f true), w, []. auto 10.
Qed.

Lemma prepare_events_untouched (q : nat) (dp : list event) :
  forallb (fun e => match e with EvPrepare _ _ => true | _ => false end) dp = true ->
  untouched q dp
  /\ forallb (fun e => negb (is_copy e)) dp = true
  /\ forallb (fun e => match e with EvWrite _ _ _ _ _ => false | _ => true end) dp = true
  /\ forall tr, last_flush q (dp ++ tr) = last_flush q tr.
Proof.
  unfold untouched. induction dp as [|e dp IH]; [auto|].
  simpl. intros H. apply andb_prop in H. destruct H as [He Hd].
  destruct (IH Hd) as (I1 & I2 & I3 & I4). destruct e; try discriminate.
  simpl. rewrite I1, I2, I3. auto.
Qed.

Lemma align_down_ge (base low s : Z) :
  0 < s -> base mod s = 0 -> base <= low -> base <= low - low mod s.
Proof.
  intros Hs Hb Hle. apply Z.mod_divide in Hb; [|lia]. destruct Hb as [c ->].
  pose proof (Z.div_mod low s ltac:(lia)).
  assert (c <= low / s) by (apply Z.div_le_lower_bound; lia).
  assert (c * s <= low / s * s) by (apply Z.mul_le_mono_nonneg_r; lia).
  lia.
Qed.

Lemma flash_buffered_flush_ok fuel p f w hist :
  region_ok f ->
  geom p = Some (writesize f, erased f) ->
  seg_inv p f hist ->
  (Z.to_nat (writebufsize f) <= fuel)%nat ->
  exists r f' w' d,
    flash_buffered_flush fuel p f w = Some (r, f', w')
    /\ trace w' = d ++ trace w
    /\ static f' = static f /\ buf f' = buf f
    /\ (forall x, pending p (d ++ hist) x = None)
    /\ (buf f' <> None ->
        buf_addr_base f' = UINT32_MAX /\ buf_addr_low f' = UINT32_MAX
        /\ buf_addr_high f' = 0)
    /\ (forall q, q <> p -> untouched q d)
    /\ forallb (fun e => negb (is_copy e)) d = true
    /\ (writes_ok geom hist -> writes_ok geom (d ++ hist)).
Proof.
  intros (Hpw & Hps & Hle & Hprep) Hgeom Hinv Hfuel.
  pose proof (is_pow2_range _ Hpw) as Hwr. pose proof (is_pow2_range _ Hps) as Hsr.
  unfold flash_buffered_flush, seg_inv in *.
  set (mk := CallFlush p (buf_addr_low f) (buf_addr_high f)).
  assert (Hnop : (forall x, pending p hist x = None) ->
                 (buf f <> None -> buf_addr_base f = UINT32_MAX /\ buf_addr_low f = UINT32_MAX
                                   /\ buf_addr_high f = 0) ->
                 exists r f' w' d,
                   Some (true, f, emit mk w) = Some (r, f', w')
                   /\ trace w' = d ++ trace w
                   /\ static f' = static f /\ buf f' = buf f
                   /\ (forall x, pending p (d ++ hist) x = None)
                   /\ (buf f' <> None ->
                       buf_addr_base f' = UINT32_MAX /\ buf_addr_low f' = UINT32_MAX
                       /\ buf_addr_high f' = 0)
                   /\ (forall q, q <> p -> untouched q d)
                   /\ forallb (fun e => negb (is_copy e)) d = true
                   /\ (writes_ok geom hist -> writes_ok geom (d ++ hist))).
  { intros Hp Hs. exists true, f, (emit mk w), [mk]. repeat split; auto.
    all: apply Hs; assumption. }
  destruct (buf f) as [b|] eqn:Hb; [|apply Hnop; [exact Hinv | congruence]].
  destruct Hinv as [Hlen [Hidle | Hact]].
  { destruct Hidle as (E1 & E2 & E3 & Hp).
    replace (negb (buf_addr_base f =? UINT32_MAX)) with false by (rewrite E1; reflexivity).
    cbn [andb]. apply Hnop; auto. }
  destruct Hact as (Hb0 & Hbm & Hbl & Hlh & Hhb & Hhm & Hrange & Hbuf).
  unfold UINT32_MAX in *.
  rewrite (proj2 (Z.eqb_neq (buf_addr_base f) 4294967295)) by lia.
  rewrite (proj2 (Z.eqb_neq (buf_addr_low f) 4294967295)) by lia.
  rewrite (proj2 (Z.ltb_lt _ _) Hlh). cbn [negb andb].
  destruct (flash_prepare_true p f (emit mk w) (or_intror Hprep))
    as (f1 & w1 & dp & Hpr & Htp & Hs1 & Hb1 & E1 & E2 & E3 & Hdp).
  rewrite Hpr. cbn [negb]. rewrite E1, E2, E3.
  assert (Ews : writesize f1 = writesize f) by (unfold static in Hs1; congruence).
  assert (Ewb : writebufsize f1 = writebufsize f) by (unfold static in Hs1; congruence).
  assert (Eer : erased f1 = erased f) by (unfold static in Hs1; congruence).
  rewrite Ews.
  assert (Hwm : writebufsize f mod writesize f = 0) by (apply pow2_divides; auto).
  assert (Hbs : buf_addr_base f mod writesize f = 0).
  { apply mod0_trans with (b := writebufsize f); auto; lia. }
  rewrite (align_down_is_pow2 (buf_addr_low f) (writesize f)) by (auto; lia).
  pose proof (Z.mod_pos_bound (buf_addr_low f) (writesize f) ltac:(lia)) as Hmb.
  pose proof (align_down_ge (buf_addr_base f) (buf_addr_low f) (writesize f)
                ltac:(lia) Hbs Hbl) as Hge.
  set (aligned := buf_addr_low f - buf_addr_low f mod writesize f) in *.
  assert (Ham : aligned mod writesize f = 0).
  { unfold aligned. rewrite Zminus_mod_idemp_r. rewrite Z.sub_diag. apply Z.mod_0_l. lia. }
  rewrite (wrap32_small (aligned - buf_addr_base f)) by lia.
  rewrite (wrap32_small (buf_addr_high f - aligned)) by lia.
  destruct (prepare_events_untouched p dp Hdp) as (U1 & U2 & U3 & U4).
  destruct (flush_loop_ok p f1 b (buf_addr_low f) (buf_addr_high f) hist (buf_addr_base f))
    with (fuel := fuel) (hist := dp ++ mk :: hist) (aligned := aligned)
         (src := aligned - buf_addr_base f) (len := buf_addr_high f - aligned)
         (ret := true) (w := w1)
    as (r & w' & d & Hrun & Ht & Hd & Hne & Hok);
    rewrite ?Ews, ?Ewb, ?Eer; auto; try lia.
  - rewrite Z.add_mod, Hbs, Hwm by lia. reflexivity.
  - apply aligned_step; auto; try lia. now apply pow2_divides_top.
  - rewrite U4. simpl. rewrite Nat.eqb_refl. reflexivity.
  - rewrite Hrun.
    exists r, (set_buf_addr f1 4294967295 4294967295 0), w', (d ++ dp ++ [mk]).
    split; [reflexivity|]. split; [|split; [|split; [|split; [|split; [|split; [|split]]]]]].
    + rewrite Ht, Htp. cbn [trace emit]. rewrite <- !app_assoc. reflexivity.
    + rewrite <- Hs1. reflexivity.
    + cbn [buf set_buf_addr]. rewrite Hb1. exact Hb.
    + intros x. rewrite <- app_assoc. apply only_writes_pending; [exact Hd|].
      apply Hne. lia.
    + intros _. cbn. auto.
    + intros q Hq. apply untouched_app; [eapply only_writes_untouched; eauto|].
      apply untouched_app; [apply (prepare_events_untouched q dp Hdp)|reflexivity].
    + rewrite !forallb_app, (only_writes_no_copy p d Hd), U2. reflexivity.
    + intros Hh. rewrite <- !app_assoc. cbn [app]. apply Hok.
      apply writes_ok_app; [|exact U3]. simpl. auto.
Qed.

Lemma region_ok_static f f' : static f' = static f -> region_ok f -> region_ok f'.
Proof.
  unfold static, region_ok, prepare_succeeds. intros Hs (H1 & H2 & H3 & H4).
  replace (writebufsize f') with (writebufsize f) by congruence.
  replace (writesize f') with (writesize f) by congruence.
  replace (prepare f') with (prepare f) by congruence. auto.
Qed.

Lemma seg_inv_untouched p f (d hist : list event) :
  untouched p d -> seg_inv p f hist -> seg_inv p f (d ++ hist).
Proof.
  intros Hu. unfold seg_inv, seg_idle, seg_active.
  destruct (buf f) as [b|].
  - intros [Hl [(E1 & E2 & E3 & Hp) | (A1 & A2 & A3 & A4 & A5 & A6 & A7 & A8)]].
    + split; [exact Hl|left]. repeat split; auto.
      intros x. rewrite pending_untouched; auto.
    + split; [exact Hl|right]. repeat split; auto.
      * apply (A7 x). rewrite pending_untouched in H; auto.
      * apply (A7 x). rewrite pending_untouched in H; auto.
      * intros k Hk. rewrite pending_untouched; auto.
  - intros Hp x. rewrite pending_untouched; auto.
Qed.

(** Copying a chunk into the page the buffer stands for. *)
Lemma copy_step p f (b : list byte) (hist : list event) (dest : Z) (chunk : list byte) :
  0 < writebufsize f -> 0 <= dest ->
  buf f = Some b ->
  Z.of_nat (List.length b) = writebufsize f ->
  buf_addr_base f = dest - dest mod writebufsize f ->
  (0 < List.length chunk)%nat ->
  dest mod writebufsize f + Z.of_nat (List.length chunk) <= writebufsize f ->
  dest + Z.of_nat (List.length chunk) <= UINT32_MAX ->
  ((buf_addr_low f = UINT32_MAX /\ buf_addr_high f = 0)
   \/ (buf_addr_base f <= buf_addr_low f /\ buf_addr_low f < buf_addr_high f
       /\ buf_addr_high f <= buf_addr_base f + writebufsize f
       /\ buf_addr_high f <= UINT32_MAX)) ->
  (forall x, pending p hist x <> None -> buf_addr_low f <= x < buf_addr_high f) ->
  (forall k, 0 <= k < writebufsize f ->
     nth (Z.to_nat k) b (erased f) = render (erased f) (pending p hist (buf_addr_base f + k))) ->
  exists b',
    memcpy_at b (dest mod writebufsize f) chunk = Some b'
    /\ seg_inv p
         (set_buf (set_buf_addr f (buf_addr_base f) (Z.min (buf_addr_low f) dest)
                     (Z.max (buf_addr_high f) (dest + Z.of_nat (List.length chunk))))
                  (Some b'))
         (EvCopy p dest chunk :: hist).
Proof.
  intros Hw Hd Hb Hlen Hbase Hc Hfit Htop Hlh Hrange Hbuf.
  pose proof (Z.mod_pos_bound dest (writebufsize f) Hw) as Hm.
  destruct (memcpy_at_ok b (dest mod writebufsize f) chunk (erased f))
    as (b' & Hcp & Hl' & Hn'); try lia.
  exists b'. split; [exact Hcp|].
  unfold seg_inv. cbn [buf set_buf set_buf_addr writebufsize].
  split; [lia|]. right. unfold seg_active.
  cbn [buf_addr_base buf_addr_low buf_addr_high set_buf set_buf_addr writebufsize erased].
  unfold UINT32_MAX in *.
  assert (Hdiv : dest - dest mod writebufsize f = writebufsize f * (dest / writebufsize f)).
  { pose proof (Z.div_mod dest (writebufsize f) ltac:(lia)). lia. }
  assert (Hq : 0 <= dest / writebufsize f) by (apply Z.div_pos; lia).
  split; [nia|]. split.
  { rewrite Hbase, Hdiv, Z.mul_comm. apply Z.mod_mul. lia. }
  split; [lia|]. split; [lia|]. split; [lia|]. split; [lia|]. split.
  - intros x. simpl. rewrite Nat.eqb_refl. cbn [andb].
    destruct (Z.leb_spec dest x); cbn [andb].
    + destruct (Z.ltb_spec x (dest + Z.of_nat (List.length chunk))); [lia|].
      intros Hp. apply Hrange in Hp. lia.
    + intros Hp. apply Hrange in Hp. lia.
  - intros k Hk. rewrite Hn' by lia. simpl. rewrite Nat.eqb_refl. cbn [andb].
    rewrite Hbase.
    destruct (Z.leb_spec (dest mod writebufsize f) k);
      destruct (Z.leb_spec dest (dest - dest mod writebufsize f + k)); try lia; cbn [andb].
    + destruct (Z.ltb_spec k (dest mod writebufsize f + Z.of_nat (List.length chunk)));
        destruct (Z.ltb_spec (dest - dest mod writebufsize f + k)
                             (dest + Z.of_nat (List.length chunk))); try lia.
      * rewrite (nth_error_nth' chunk (erased f)) by lia. simpl. f_equal. lia.
      * rewrite <- Hbase. apply Hbuf. lia.
    + rewrite <- Hbase. apply Hbuf. lia.
Qed.

Lemma supplied_shift (dest : Z) (src : list byte) (ll x : Z) (c : list byte) :
  0 <= ll <= Z.of_nat (List.length src) ->
  supplied (dest + ll) (skipn (Z.to_nat ll) src) x c -> supplied dest src x c.
Proof.
  unfold supplied. intros Hll (H1 & H2 & H3). rewrite length_skipn in H2.
  split; [lia|]. split; [lia|].
  rewrite skipn_skipn in H3. rewrite H3 at 1. f_equal. f_equal. lia.
Qed.

Lemma buffer_setup_ok fuel0 p f (dest : Z) (ret : bool) w (hist : list event) :
  region_ok f ->
  geom p = Some (writesize f, erased f) ->
  seg_inv p f hist -> buf f <> None ->
  0 <= dest < UINT32_MAX ->
  (Z.to_nat (writebufsize f) <= fuel0)%nat ->
  exists ret1 f1 w1 d1 b1,
    buffer_setup fuel0 p f dest ret w = Some (ret1, f1, w1)
    /\ trace w1 = d1 ++ trace w
    /\ static f1 = static f
    /\ buf f1 = Some b1
    /\ Z.of_nat (List.length b1) = writebufsize f
    /\ buf_addr_base f1 = dest - dest mod writebufsize f
    /\ ((buf_addr_low f1 = UINT32_MAX /\ buf_addr_high f1 = 0)
        \/ (buf_addr_base f1 <= buf_addr_low f1 /\ buf_addr_low f1 < buf_addr_high f1
            /\ buf_addr_high f1 <= buf_addr_base f1 + writebufsize f
            /\ buf_addr_high f1 <= UINT32_MAX))
    /\ (forall x, pending p (d1 ++ hist) x <> None ->
                  buf_addr_low f1 <= x < buf_addr_high f1)
    /\ (forall k, 0 <= k < writebufsize f ->
          nth (Z.to_nat k) b1 (erased f)
          = render (erased f) (pending p (d1 ++ hist) (buf_addr_base f1 + k)))
    /\ (forall q, q <> p -> untouched q d1)
    /\ forallb (fun e => negb (is_copy e)) d1 = true
    /\ (writes_ok geom hist -> writes_ok geom (d1 ++ hist)).
Proof.
  intros Hok Hgeom Hinv Hbuf Hd Hf0.
  pose proof Hok as (Hpw & Hps & Hle & Hprep).
  pose proof (is_pow2_range _ Hpw) as Hwr.
  unfold buffer_setup. unfold UINT32_MAX in *.
  rewrite align_down_is_pow2 by (auto; lia).
  pose proof (Z.mod_pos_bound dest (writebufsize f) ltac:(lia)) as Hm.
  destruct (Z.eqb_spec (dest - dest mod writebufsize f) (buf_addr_base f)) as [E|E]; cbn [negb].
  - destruct (buf f) as [b|] eqn:Hb; [|congruence].
    unfold seg_inv in Hinv. rewrite Hb in Hinv.
    destruct Hinv as [Hlen [(E1 & _) | (A1 & A2 & A3 & A4 & A5 & A6 & A7 & A8)]].
    { unfold UINT32_MAX in E1. lia. }
    exists ret, f, w, [], b. cbn [app]. unfold UINT32_MAX in *.
    repeat split; auto; try (apply A7; auto); try (right; repeat split; auto).
  - destruct (flash_buffered_flush_ok fuel0 p f w hist Hok Hgeom Hinv Hf0)
      as (r0 & f0 & w0 & d0 & Hrun & Ht & Hs & Hb0 & Hpn & Hsen & Hun & Hnc & Hwo).
    rewrite Hrun. destruct (buf f) as [b|] eqn:Hb; [|congruence].
    rewrite Hb0.
    assert (Hlen : Z.of_nat (List.length b) = writebufsize f).
    { unfold seg_inv in Hinv. rewrite Hb in Hinv. apply Hinv. }
    assert (Ewb : writebufsize f0 = writebufsize f) by (unfold static in Hs; congruence).
    assert (Eer : erased f0 = erased f) by (unfold static in Hs; congruence).
    rewrite Ewb, Eer, (memset_ok b (erased f) (writebufsize f) Hlen).
    destruct Hsen as (S1 & S2 & S3); [congruence|].
    eexists _, _, w0, d0, _. split; [reflexivity|].
    cbn [buf buf_addr_base buf_addr_low buf_addr_high set_buf set_buf_addr].
    split; [exact Ht|]. split; [rewrite <- Hs; reflexivity|]. split; [reflexivity|].
    split; [rewrite repeat_length; lia|]. split; [reflexivity|].
    split; [left; split; [exact S2 | exact S3]|].
    split; [intros x Hp; exfalso; apply Hp; apply Hpn|].
    split; [intros k Hk; rewrite Hpn; simpl; apply nth_repeat|].
    split; [exact Hun|]. split; [exact Hnc|exact Hwo].
Qed.

Lemma buffered_write_loop_ok fuel0 p :
  forall fuel f (dest : Z) (src : list byte) (len : Z) (ret : bool) w (hist : list event),
    region_ok f ->
    geom p = Some (writesize f, erased f) ->
    seg_inv p f hist -> buf f <> None ->
    0 <= dest -> 0 <= len -> dest + len <= UINT32_MAX ->
    len <= Z.of_nat (List.length src) ->
    (Z.to_nat (writebufsize f) <= fuel0)%nat ->
    (Z.to_nat len <= fuel)%nat ->
    exists r f' w' d,
      buffered_write_loop fuel0 fuel p f dest src len ret w = Some (r, f', w')
      /\ trace w' = d ++ trace w
      /\ static f' = static f /\ buf f' <> None
      /\ seg_inv p f' (d ++ hist)
      /\ (forall q, q <> p -> untouched q d)
      /\ (forall q x c, In (EvCopy q x c) d -> supplied dest src x c)
      /\ (writes_ok geom hist -> writes_ok geom (d ++ hist)).
Proof.
  induction fuel as [|fuel IH];
    intros f dest src len ret w hist Hok Hgeom Hinv Hbuf Hd Hl Htop Hsrc Hf0 Hfuel.
  - assert (len = 0) by lia. subst len. simpl.
    exists ret, f, w, []. split; [reflexivity|]. split; [reflexivity|].
    split; [reflexivity|]. split; [exact Hbuf|]. split; [exact Hinv|].
    split; [intros; reflexivity|]. split; [intros q x c []|auto].
  - destruct (Z.eqb_spec len 0) as [->|Hne].
    { simpl. exists ret, f, w, []. split; [reflexivity|]. split; [reflexivity|].
    split; [reflexivity|]. split; [exact Hbuf|]. split; [exact Hinv|].
    split; [intros; reflexivity|]. split; [intros q x c []|auto]. }
    pose proof Hok as (Hpw & Hps & Hle & Hprep).
    pose proof (is_pow2_range _ Hpw) as Hwr.
    simpl buffered_write_loop. rewrite (proj2 (Z.eqb_neq len 0) Hne).
    rewrite (proj2 (Z.eqb_neq (writebufsize f) 0)) by lia.
    unfold UINT32_MAX in *.
    destruct (buffer_setup_ok fuel0 p f dest ret w hist Hok Hgeom Hinv Hbuf ltac:(unfold UINT32_MAX; lia) Hf0)
      as (ret1 & f1 & w1 & d1 & b1 & Hrun & Ht1 & Hs1 & Hb1 & Hlen1 & Hbase1 & Hlh1 & Hr1 & Hbuf1
          & Hun1 & Hnc1 & Hwo1).
    rewrite Hrun.
    assert (Ewb : writebufsize f1 = writebufsize f) by (unfold static in Hs1; congruence).
    assert (Eer : erased f1 = erased f) by (unfold static in Hs1; congruence).
    assert (Ews : writesize f1 = writesize f) by (unfold static in Hs1; congruence).
    unfold chunk_len, chunk_offset. rewrite Ewb.
    pose proof (Z.mod_pos_bound dest (writebufsize f) ltac:(lia)) as Hm.
    rewrite (wrap32_small (writebufsize f - dest mod writebufsize f)) by lia.
    set (ll := Z.min (writebufsize f - dest mod writebufsize f) len).
    assert (Hll : 0 < ll <= len) by (unfold ll; lia).
    replace (Z.of_nat (List.length src) <? ll) with false by (symmetry; apply Z.ltb_ge; lia).
    rewrite Hb1.
    set (chunk := firstn (Z.to_nat ll) src).
    assert (Hcl : Z.of_nat (List.length chunk) = ll).
    { unfold chunk. rewrite firstn_length_le by lia. lia. }
    destruct (copy_step p f1 b1 (d1 ++ hist) dest chunk)
      as (b2 & Hcp & Hinv2); rewrite ?Ewb, ?Eer; auto; unfold UINT32_MAX; try lia.
    rewrite Ewb in Hcp. rewrite Hcp.
    rewrite (wrap32_small (dest + ll)) by lia.
    rewrite Hcl in Hinv2.
    set (f2 := set_buf (set_buf_addr f1 (buf_addr_base f1) (Z.min (buf_addr_low f1) dest)
                          (Z.max (buf_addr_high f1) (dest + ll))) (Some b2)) in *.
    assert (Hs2 : static f2 = static f) by (rewrite <- Hs1; reflexivity).
    destruct (IH f2 (dest + ll) (skipn (Z.to_nat ll) src) (len - ll) ret1
                 (emit (EvCopy p dest chunk) w1) (EvCopy p dest chunk :: d1 ++ hist))
      as (r & f' & w' & d & Hrun' & Ht & Hs & Hb' & Hinv' & Hun & Hcp' & Hwo);
      unfold UINT32_MAX; try lia.
    + eapply region_ok_static; eauto.
    + replace (writesize f2) with (writesize f) by (unfold static in Hs2; congruence).
      replace (erased f2) with (erased f) by (unfold static in Hs2; congruence).
      exact Hgeom.
    + exact Hinv2.
    + unfold f2. cbn. discriminate.
    + rewrite length_skipn. lia.
    + replace (writebufsize f2) with (writebufsize f) by (unfold static in Hs2; congruence).
      exact Hf0.
    + rewrite Hrun'. exists r, f', w', (d ++ EvCopy p dest chunk :: d1).
      split; [reflexivity|]. split; [|split; [|split; [|split; [|split; [|split]]]]].
      * rewrite Ht. cbn [trace emit]. rewrite Ht1, <- app_assoc. reflexivity.
      * congruence.
      * exact Hb'.
      * rewrite <- app_assoc. exact Hinv'.
      * intros q Hq. apply untouched_app; [auto|].
        unfold untouched. simpl.
        replace (Nat.eqb p q) with false by (symmetry; apply Nat.eqb_neq; congruence).
        apply (Hun1 q Hq).
      * intros q x c Hin. apply in_app_or in Hin. destruct Hin as [Hin | [Hin | Hin]].
        -- apply supplied_shift with (ll := ll); [lia|]. eapply Hcp'; eauto.
        -- inversion Hin; subst. unfold supplied. split; [lia|]. split; [lia|].
           rewrite Z.sub_diag. simpl. unfold chunk at 1.
           f_equal. lia.
        -- exfalso. rewrite forallb_forall in Hnc1. specialize (Hnc1 _ Hin). discriminate.
      * intros Hh. rewrite <- app_assoc. apply Hwo. simpl. split; [exact I|]. auto.
Qed.

Lemma flash_buffered_write_ok fuel p f (dest : Z) (src : list byte) (len : Z) w
    (hist : list event) :
  malloc_succeeds malloc ->
  reg_inv geom fuel p f hist ->
  0 <= dest -> 0 <= len -> dest + len <= UINT32_MAX ->
  len <= Z.of_nat (List.length src) ->
  (Z.to_nat len <= fuel)%nat ->
  exists r f' w' d,
    flash_buffered_write malloc fuel p f dest src len w = Some (r, f', w')
    /\ trace w' = d ++ trace w
    /\ static f' = static f
    /\ seg_inv p f' (d ++ hist)
    /\ (forall q, q <> p -> untouched q d)
    /\ (forall q x c, In (EvCopy q x c) d -> supplied dest src x c)
    /\ (writes_ok geom hist -> writes_ok geom (d ++ hist)).
Proof.
  intros Hmal (Hok & Hgeom & Hf0 & Hinv) Hd Hl Htop Hsrc Hfuel.
  unfold flash_buffered_write.
  set (mk := CallBufferedWrite p dest len).
  destruct (buf f) as [b|] eqn:Hb.
  - destruct (buffered_write_loop_ok fuel p fuel f dest src len true (emit mk w) (mk :: hist))
      as (r & f' & w' & d & Hrun & Ht & Hs & Hb' & Hinv' & Hun & Hcp & Hwo);
      auto; try congruence.
    rewrite Hrun. exists r, f', w', (d ++ [mk]).
    split; [reflexivity|]. split; [|split; [|split; [|split; [|split]]]].
    + rewrite Ht, <- app_assoc. reflexivity.
    + exact Hs.
    + rewrite <- app_assoc. exact Hinv'.
    + intros q Hq. apply untouched_app; [auto|reflexivity].
    + intros q x c Hin. apply in_app_or in Hin. destruct Hin as [Hin | [Hin | []]].
      * eauto.
      * discriminate.
    + intros Hh. rewrite <- app_assoc. apply Hwo. simpl. auto.
  - unfold call. cbn [dev emit].
    pose proof (Hmal (dev w) (writebufsize f)) as Hm.
    destruct (malloc (dev w) (writebufsize f)) as [d0 [init|]]; [|simpl in Hm; congruence].
    set (me := EvMalloc p (writebufsize f) true).
    set (b := map init (seq 0 (Z.to_nat (writebufsize f)))).
    set (f1 := set_buf (set_buf_addr f UINT32_MAX UINT32_MAX 0) (Some b)).
    pose proof (is_pow2_range _ (proj1 Hok)) as Hwr.
    destruct (buffered_write_loop_ok fuel p fuel f1 dest src len true
                {| dev := d0; trace := me :: mk :: trace w |} (me :: mk :: hist))
      as (r & f' & w' & d & Hrun & Ht & Hs & Hb' & Hinv' & Hun & Hcp & Hwo);
      auto; try (unfold f1; cbn; discriminate).
    { unfold seg_inv, f1. cbn [buf set_buf]. split.
      - unfold b. rewrite length_map, length_seq. cbn. lia.
      - left. unfold seg_idle. cbn. repeat split; auto.
        unfold seg_inv in Hinv. rewrite Hb in Hinv. exact Hinv. }
    match goal with
    | |- exists _ _ _ _, ?lhs = _ /\ _ =>
        change lhs with (buffered_write_loop fuel fuel p f1 dest src len true
                           {| dev := d0; trace := me :: mk :: trace w |})
    end.
    rewrite Hrun. exists r, f', w', (d ++ [me; mk]).
    split; [reflexivity|]. split; [|split; [|split; [|split; [|split]]]].
    + rewrite Ht, <- app_assoc. reflexivity.
    + exact Hs.
    + rewrite <- app_assoc. exact Hinv'.
    + intros q Hq. apply untouched_app; [auto|reflexivity].
    + intros q x c Hin. apply in_app_or in Hin. destruct Hin as [Hin | [Hin | [Hin | []]]].
      * eauto.
      * discriminate.
      * discriminate.
    + intros Hh. rewrite <- app_assoc. apply Hwo. simpl. auto.
Qed.

Lemma done_events_untouched (q : nat) (dd : list event) :
  forallb is_done_event dd = true ->
  untouched q dd
  /\ forallb (fun e => negb (is_copy e)) dd = true
  /\ forallb (fun e => match e with EvWrite _ _ _ _ _ => false | _ => true end) dd = true.
Proof.
  unfold untouched. induction dd as [|e dd IH]; [auto|].
  simpl. intros H. apply andb_prop in H. destruct H as [He Hd].
  destruct (IH Hd) as (I1 & I2 & I3). destruct e; try discriminate;
  simpl; rewrite I1, I2, I3; auto.
Qed.

Lemma flash_done_effect p f w :
  exists dd,
    trace (snd (flash_done p f w)) = dd ++ trace w
    /\ forallb is_done_event dd = true
    /\ static (snd (fst (flash_done p f w))) = static f
    /\ (buf (snd (fst (flash_done p f w))) = None
        \/ (buf (snd (fst (flash_done p f w))) = buf f
            /\ buf_addr_base (snd (fst (flash_done p f w))) = buf_addr_base f
            /\ buf_addr_low (snd (fst (flash_done p f w))) = buf_addr_low f
            /\ buf_addr_high (snd (fst (flash_done p f w))) = buf_addr_high f)).
Proof.
  unfold flash_done, call, emit. destruct (ready f); cbn [negb].
  - destruct (done f) as [h|]; [destruct (h _) as [d0 r]|]; destruct (buf f) eqn:Hb;
      cbn [snd fst trace dev]; exists_new; cbn; rewrite ?Hb; auto 10.
  - exists [CallDone p]. cbn. auto 10.
Qed.

Lemma flush_done_body_ok fuel p f w (hist : list event) :
  reg_inv geom fuel p f hist ->
  exists r f' w' d,
    flush_done_body fuel p f w = Some (r, f', w')
    /\ trace w' = d ++ trace w
    /\ reg_inv geom fuel p f' (d ++ hist)
    /\ (forall q, q <> p -> untouched q d)
    /\ forallb (fun e => negb (is_copy e)) d = true
    /\ (writes_ok geom hist -> writes_ok geom (d ++ hist)).
Proof.
  intros (Hok & Hgeom & Hf0 & Hinv). unfold flush_done_body.
  destruct (flash_buffered_flush_ok fuel p f w hist Hok Hgeom Hinv Hf0)
    as (r0 & f0 & w0 & d0 & Hrun & Ht & Hs & Hb0 & Hpn & Hsen & Hun & Hnc & Hwo).
  rewrite Hrun.
  destruct (flash_done_effect p f0 w0) as (dd & Htd & Hdd & Hsd & Hbd).
  destruct (flash_done p f0 w0) as [[r1 f1] w1]. cbn [fst snd] in *.
  destruct (done_events_untouched p dd Hdd) as (U1 & U2 & U3).
  assert (Hs1 : static f1 = static f) by congruence.
  exists (r0 && r1), f1, w1, (dd ++ d0).
  split; [reflexivity|]. split; [|split; [|split; [|split]]].
  - rewrite Htd, Ht. apply app_assoc.
  - unfold reg_inv. split; [eapply region_ok_static; eauto|]. split; [|split].
    + replace (writesize f1) with (writesize f) by (unfold static in Hs1; congruence).
      replace (erased f1) with (erased f) by (unfold static in Hs1; congruence).
      exact Hgeom.
    + replace (writebufsize f1) with (writebufsize f) by (unfold static in Hs1; congruence).
      exact Hf0.
    + rewrite <- app_assoc. apply seg_inv_untouched; [exact U1|].
      unfold seg_inv. destruct Hbd as [Hn | (Hb1 & E1 & E2 & E3)].
      * rewrite Hn. exact Hpn.
      * rewrite Hb1, Hb0. unfold seg_inv in Hinv.
        destruct (buf f) as [b|] eqn:Hb; [|exact Hpn].
        destruct Hsen as (S1 & S2 & S3); [congruence|].
        split.
        -- replace (writebufsize f1) with (writebufsize f) by (unfold static in Hs1; congruence).
           apply Hinv.
        -- left. unfold seg_idle. rewrite E1, E2, E3. auto.
  - intros q Hq. apply untouched_app; [apply (done_events_untouched q dd Hdd)|auto].
  - rewrite forallb_app, U2, Hnc. reflexivity.
  - intros Hh. rewrite <- app_assoc. apply writes_ok_app; [auto|exact U3].
Qed.

(** The walk of the write path over the regions other than [p] keeps the
    invariant of every region it visits and leaves the others alone. *)
Lemma flush_done_others_ok fuel (p : nat) (l : list (@target_flash D)) :
  forall k ret w (hist : list event),
    (forall i g, nth_error l i = Some g -> (k + i)%nat <> p ->
                 reg_inv geom fuel (k + i) g hist) ->
    exists r l' w' d,
      for_each_flash (flush_done_body fuel) (Some p) k l ret w = Some (r, l', w')
      /\ trace w' = d ++ trace w
      /\ (forall i, (k + i)%nat = p -> nth_error l' i = nth_error l i)
      /\ (forall i g, nth_error l' i = Some g -> (k + i)%nat <> p ->
                      reg_inv geom fuel (k + i) g (d ++ hist))
      /\ (forall i, nth_error l' i = None -> nth_error l i = None)
      /\ (forall q, (q < k)%nat \/ q = p \/ (k + List.length l <= q)%nat -> untouched q d)
      /\ forallb (fun e => negb (is_copy e)) d = true
      /\ (writes_ok geom hist -> writes_ok geom (d ++ hist)).
Proof.
  induction l as [|f l IH]; intros k ret w hist Hinv; simpl.
  - exists ret, [], w, []. split; [reflexivity|]. split; [reflexivity|].
    split; [reflexivity|]. split; [intros [|i] g H; discriminate|].
    split; [auto|]. split; [intros; reflexivity|]. split; [reflexivity|auto].
  - destruct (Nat.eqb_spec k p) as [E|E].
    + destruct (IH (S k) ret w hist) as (r & l' & w' & d & Hrun & Ht & Hsk & Hin & Hno & Hun & Hnc & Hwo).
      { intros i g Hn Hne. replace (S k + i)%nat with (k + S i)%nat by lia.
        apply Hinv; [exact Hn|lia]. }
      rewrite Hrun. exists r, (f :: l'), w', d.
      split; [reflexivity|]. split; [exact Ht|]. split; [|split; [|split; [|split; [|split]]]].
      * intros [|i] Hi; [reflexivity|]. simpl. apply Hsk. lia.
      * intros [|i] g Hn Hne; [lia|]. simpl in Hn.
        replace (k + S i)%nat with (S k + i)%nat by lia. apply Hin; [exact Hn|lia].
      * intros [|i] Hn; [discriminate|]. simpl in *. auto.
      * intros q Hq. apply Hun. simpl in Hq. lia.
      * exact Hnc.
      * exact Hwo.
    + destruct (flush_done_body_ok fuel k f w hist) as (r1 & f1 & w1 & d1 & Hrun1 & Ht1 & Hi1 & Hu1 & Hn1 & Hw1).
      { replace k with (k + 0)%nat by lia. apply Hinv; [reflexivity|lia]. }
      rewrite Hrun1.
      destruct (IH (S k) (ret && r1) w1 (d1 ++ hist))
        as (r & l' & w' & d & Hrun & Ht & Hsk & Hin & Hno & Hun & Hnc & Hwo).
      { intros i g Hn Hne. unfold reg_inv.
        destruct (Hinv (S i) g Hn ltac:(lia)) as (A1 & A2 & A3 & A4).
        replace (S k + i)%nat with (k + S i)%nat by lia.
        repeat split; auto; try apply A1.
        apply seg_inv_untouched; [apply Hu1; lia|exact A4]. }
      rewrite Hrun. exists r, (f1 :: l'), w', (d ++ d1).
      split; [reflexivity|]. split; [|split; [|split; [|split; [|split; [|split]]]]].
      * rewrite Ht, Ht1. apply app_assoc.
      * intros [|i] Hi; [lia|]. simpl. apply Hsk. lia.
      * intros [|i] g Hn Hne.
        -- simpl in Hn. inversion Hn; subst g. rewrite Nat.add_0_r.
           destruct Hi1 as (A1 & A2 & A3 & A4). unfold reg_inv. repeat split; auto; try apply A1.
           rewrite <- app_assoc. apply seg_inv_untouched; [apply Hun; lia|exact A4].
        -- simpl in Hn. replace (k + S i)%nat with (S k + i)%nat by lia.
           rewrite <- app_assoc. apply Hin; [exact Hn|lia].
      * intros [|i] Hn; [discriminate|]. simpl in *. auto.
      * intros q Hq. simpl in Hq. apply untouched_app; [apply Hun; lia|apply Hu1; lia].
      * rewrite forallb_app, Hnc, Hn1. reflexivity.
      * intros Hh. rewrite <- app_assoc. auto.
Qed.

Lemma flash_for_addr_Some (l : list (@target_flash D)) :
  forall k x p,
    flash_for_addr_from k l x = Some p ->
    exists i f, p = (k + i)%nat /\ nth_error l i = Some f
                /\ start f <= x < wrap32 (start f + length f).
Proof.
  induction l as [|f l IH]; intros k x p H; simpl in H; [discriminate|].
  destruct ((start f <=? x) && (x <? wrap32 (start f + length f))) eqn:E.
  - inversion H; subst. apply andb_prop in E. destruct E as [E1 E2].
    exists 0%nat, f. rewrite Nat.add_0_r. repeat split; auto; lia.
  - apply IH in H. destruct H as (i & g & -> & Hn & Hr).
    exists (S i), g. repeat split; auto; lia.
Qed.

Lemma store_nth_ne (l : list (@target_flash D)) :
  forall p f i, i <> p -> nth_error (store p f l) i = nth_error l i.
Proof.
  induction l as [|h l IH]; intros [|p] f [|i] H; simpl; auto; try lia.
Qed.

Lemma store_nth_inv (l : list (@target_flash D)) (p i : nat) f f0 g :
  nth_error l p = Some f0 ->
  nth_error (store p f l) i = Some g ->
  (i = p /\ g = f) \/ (i <> p /\ nth_error l i = Some g).
Proof.
  intros Hp Hn. destruct (Nat.eq_dec i p) as [->|Hne].
  - rewrite (store_nth l p f f0 Hp) in Hn. inversion Hn. auto.
  - rewrite store_nth_ne in Hn by assumption. auto.
Qed.

Lemma write_loop_ok fuel0 :
  malloc_succeeds malloc ->
  forall fuel t (dest : Z) (src : list byte) (len : Z) (ret : bool) w (hist : list event),
    (forall i g, nth_error (flash t) i = Some g -> reg_inv geom fuel0 i g hist) ->
    0 <= dest -> 0 <= len -> dest + len <= UINT32_MAX ->
    len <= Z.of_nat (List.length src) ->
    (Z.to_nat len <= fuel)%nat -> (Z.to_nat len <= fuel0)%nat ->
    exists r t' w' d,
      write_loop malloc fuel0 fuel t dest src len ret w = Some (r, t', w')
      /\ trace w' = d ++ trace w
      /\ (forall i g, nth_error (flash t') i = Some g -> reg_inv geom fuel0 i g (d ++ hist))
      /\ (forall q x c, In (EvCopy q x c) d -> supplied dest src x c)
      /\ (writes_ok geom hist -> writes_ok geom (d ++ hist)).
Proof.
  intros Hmal.
  induction fuel as [|fuel IH];
    intros t dest src len ret w hist Hinv Hd Hl Htop Hsrc Hfuel Hfuel0.
  - assert (len = 0) by lia. subst len. simpl.
    exists ret, t, w, []. split; [reflexivity|]. split; [reflexivity|].
    split; [exact Hinv|]. split; [intros q x c []|auto].
  - destruct (Z.eqb_spec len 0) as [->|Hne].
    { simpl. exists ret, t, w, []. split; [reflexivity|]. split; [reflexivity|].
      split; [exact Hinv|]. split; [intros q x c []|auto]. }
    simpl write_loop. rewrite (proj2 (Z.eqb_neq len 0) Hne).
    destruct (target_flash_for_addr t dest) as [p|] eqn:Hfind.
    2:{ exists false, t, w, []. split; [reflexivity|]. split; [reflexivity|].
        split; [exact Hinv|]. split; [intros q x c []|auto]. }
    unfold target_flash_for_addr in Hfind.
    destruct (flash_for_addr_Some _ _ _ _ Hfind) as (i & f & Ep & Hnth & Hrange).
    simpl in Ep. subst i.
    destruct (flush_done_others_ok fuel0 p (flash t) 0 ret w hist)
      as (r1 & l1 & w1 & d1 & Hrun1 & Ht1 & Hsk & Hin & Hno & Hun & Hnc1 & Hwo1).
    { intros i g Hn _. apply Hinv. exact Hn. }
    rewrite Hrun1. rewrite (Hsk p eq_refl), Hnth.
    pose proof (wrap32_range (start f + length f)) as Hfe.
    set (flash_end := wrap32 (start f + length f)) in *.
    unfold UINT32_MAX in *.
    rewrite (wrap32_small (dest + len)) by lia.
    set (local_end := Z.min (dest + len) flash_end).
    assert (Hle : dest < local_end <= dest + len) by (unfold local_end; lia).
    rewrite (wrap32_small (local_end - dest)) by lia.
    set (ll := local_end - dest) in *.
    rewrite (wrap32_small (len - ll)) by (unfold ll; lia).
    assert (Hreg : reg_inv geom fuel0 p f (d1 ++ hist)).
    { destruct (Hinv p f Hnth) as (A1 & A2 & A3 & A4). unfold reg_inv. repeat split; auto;
        try apply A1.
      apply seg_inv_untouched; [apply Hun; lia|exact A4]. }
    assert (Hnth1 : nth_error l1 p = Some f) by (rewrite (Hsk p eq_refl); exact Hnth).
    assert (Hcont : forall fX wX dp retX,
               trace wX = dp ++ trace w1 ->
               reg_inv geom fuel0 p fX (dp ++ d1 ++ hist) ->
               (forall q, q <> p -> untouched q dp) ->
               (forall q x c, In (EvCopy q x c) dp -> supplied dest src x c) ->
               (writes_ok geom (d1 ++ hist) -> writes_ok geom (dp ++ d1 ++ hist)) ->
               exists r t' w' d,
                 write_loop malloc fuel0 fuel (set_flash t (store p fX l1)) local_end
                            (skipn (Z.to_nat ll) src) (len - ll) retX wX = Some (r, t', w')
                 /\ trace w' = d ++ trace w
                 /\ (forall i g, nth_error (flash t') i = Some g ->
                                 reg_inv geom fuel0 i g (d ++ hist))
                 /\ (forall q x c, In (EvCopy q x c) d -> supplied dest src x c)
                 /\ (writes_ok geom hist -> writes_ok geom (d ++ hist))).
    { intros fX wX dp retX HtX HrX HuX HcX HwX.
      destruct (IH (set_flash t (store p fX l1)) local_end (skipn (Z.to_nat ll) src)
                   (len - ll) retX wX (dp ++ d1 ++ hist))
        as (r & t' & w' & d & Hrun & Ht & Hi & Hc & Hw);
        unfold UINT32_MAX; try (unfold ll in *; lia).
      - cbn [flash set_flash]. intros i g Hn.
        destruct (store_nth_inv l1 p i fX f g Hnth1 Hn) as [[-> ->] | [Hne' Hn']].
        + exact HrX.
        + destruct (Hin i g Hn' ltac:(simpl; lia)) as (A1 & A2 & A3 & A4).
          unfold reg_inv. repeat split; auto; try apply A1.
          apply seg_inv_untouched; [apply HuX; exact Hne'|exact A4].
      - rewrite length_skipn. unfold ll in *. lia.
      - rewrite Hrun. exists r, t', w', (d ++ dp ++ d1).
        split; [reflexivity|]. split; [|split; [|split]].
        + rewrite Ht, HtX, Ht1. rewrite <- !app_assoc. reflexivity.
        + intros i g Hn. rewrite <- !app_assoc. apply Hi. exact Hn.
        + intros q x c Hin'. apply in_app_or in Hin'. destruct Hin' as [Hin' | Hin'].
          * replace local_end with (dest + ll) in Hc by (unfold ll; lia).
            apply supplied_shift with (ll := ll); [unfold ll in *; lia|]. eapply Hc; eauto.
          * apply in_app_or in Hin'. destruct Hin' as [Hin' | Hin']; [eauto|].
            exfalso. rewrite forallb_forall in Hnc1. specialize (Hnc1 _ Hin'). discriminate.
        + intros Hh. rewrite <- !app_assoc. apply Hw. apply HwX. apply Hwo1. exact Hh. }
    destruct (flash_buffered_write_ok fuel0 p f dest src ll w1 (d1 ++ hist) Hmal Hreg)
      as (r2 & f1 & w2 & d2 & Hrun2 & Ht2 & Hs2 & Hi2 & Hu2 & Hc2 & Hw2);
      unfold UINT32_MAX; try (unfold ll in *; lia).
    rewrite Hrun2.
    assert (Hreg1 : reg_inv geom fuel0 p f1 (d2 ++ d1 ++ hist)).
    { destruct Hreg as (A1 & A2 & A3 & A4). unfold reg_inv.
      split; [eapply region_ok_static; eauto|]. split; [|split; [|exact Hi2]].
      - replace (writesize f1) with (writesize f) by (unfold static in Hs2; congruence).
        replace (erased f1) with (erased f) by (unfold static in Hs2; congruence).
        exact A2.
      - replace (writebufsize f1) with (writebufsize f) by (unfold static in Hs2; congruence).
        exact A3. }
    destruct (Z.eqb_spec local_end flash_end) as [Eend|Eend].
    + destruct (flush_done_body_ok fuel0 p f1 w2 (d2 ++ d1 ++ hist) Hreg1)
        as (r3 & f3 & w4 & d3 & Hrun3 & Ht3 & Hi3 & Hu3 & Hn3 & Hw3).
      unfold flush_done_body in Hrun3.
      destruct (flash_buffered_flush fuel0 p f1 w2) as [[[ra fa] wa]|]; [|discriminate].
      destruct (flash_done p fa wa) as [[rb fb] wb]. inversion Hrun3; subst.
      apply (Hcont f3 w4 (d3 ++ d2)).
      * rewrite Ht3, Ht2. apply app_assoc.
      * rewrite <- app_assoc. exact Hi3.
      * intros q Hq. apply untouched_app; auto.
      * intros q x c Hin'. apply in_app_or in Hin'. destruct Hin' as [Hin' | Hin']; [|eauto].
        exfalso. rewrite forallb_forall in Hn3. specialize (Hn3 _ Hin'). discriminate.
      * intros Hh. rewrite <- app_assoc. auto.
    + apply (Hcont f1 w2 d2); auto.
Qed.

Lemma enter_flash_mode_effect t w :
  exists d0,
    trace (snd (target_enter_flash_mode target_reset t w)) = d0 ++ trace w
    /\ flash (snd (fst (target_enter_flash_mode target_reset t w))) = flash t
    /\ (forall q, untouched q d0)
    /\ forallb (fun e => negb (is_copy e)) d0 = true
    /\ forallb (fun e => match e with EvWrite _ _ _ _ _ => false | _ => true end) d0 = true.
Proof.
  unfold target_enter_flash_mode, call. destruct (flash_mode t).
  - exists []. cbn. repeat split; intros; reflexivity.
  - destruct (enter_flash_mode t) as [h|]; [destruct (h (dev w)) as [d [|]]|];
      cbn [snd fst trace flash set_flash_mode]; exists_new; cbn;
      repeat split; intros; reflexivity.
Qed.

Lemma target_flash_write_ok fuel t (dest : Z) (src : list byte) w (hist : list event) :
  malloc_succeeds malloc ->
  (forall i g, nth_error (flash t) i = Some g -> reg_inv geom fuel i g hist) ->
  0 <= dest -> dest + Z.of_nat (List.length src) <= UINT32_MAX ->
  (List.length src <= fuel)%nat ->
  exists r t' w' d,
    target_flash_write malloc target_reset fuel t dest src (Z.of_nat (List.length src)) w
    = Some (r, t', w')
    /\ trace w' = d ++ trace w
    /\ (forall i g, nth_error (flash t') i = Some g -> reg_inv geom fuel i g (d ++ hist))
    /\ (forall q x c, In (EvCopy q x c) d -> supplied dest src x c)
    /\ (writes_ok geom hist -> writes_ok geom (d ++ hist)).
Proof.
  intros Hmal Hinv Hd Htop Hfuel. unfold target_flash_write.
  destruct (enter_flash_mode_effect t w) as (d0 & Ht0 & Hfl & Hu0 & Hn0 & Hw0).
  destruct (target_enter_flash_mode target_reset t w) as [[ok t1] w1]. cbn [fst snd] in *.
  assert (Hinv1 : forall i g, nth_error (flash t1) i = Some g ->
                              reg_inv geom fuel i g (d0 ++ hist)).
  { rewrite Hfl. intros i g Hn. destruct (Hinv i g Hn) as (A1 & A2 & A3 & A4).
    unfold reg_inv. repeat split; auto; try apply A1.
    apply seg_inv_untouched; auto. }
  destruct ok; cbn [negb].
  - destruct (write_loop_ok fuel Hmal fuel t1 dest src (Z.of_nat (List.length src)) true w1
                (d0 ++ hist) Hinv1)
      as (r & t' & w' & d & Hrun & Ht & Hi & Hc & Hw); try lia.
    rewrite Hrun. exists r, t', w', (d ++ d0).
    split; [reflexivity|]. split; [|split; [|split]].
    + rewrite Ht, Ht0. apply app_assoc.
    + intros i g Hn. rewrite <- app_assoc. auto.
    + intros q x c Hin. apply in_app_or in Hin. destruct Hin as [Hin|Hin]; [eauto|].
      exfalso. rewrite forallb_forall in Hn0. specialize (Hn0 _ Hin). discriminate.
    + intros Hh. rewrite <- app_assoc. apply Hw. apply writes_ok_app; auto.
  - exists false, t1, w1, d0.
    split; [reflexivity|]. split; [exact Ht0|]. split; [exact Hinv1|]. split.
    + intros q x c Hin.
      exfalso. rewrite forallb_forall in Hn0. specialize (Hn0 _ Hin). discriminate.
    + intros Hh. apply writes_ok_app; auto.
Qed.

Lemma target_flash_write_all_ok fuel (reqs : list (Z * list byte)) :
  malloc_succeeds malloc ->
  Forall (fun req => 0 <= fst req
                     /\ fst req + Z.of_nat (List.length (snd req)) <= UINT32_MAX
                     /\ (List.length (snd req) <= fuel)%nat) reqs ->
  forall t w (hist : list event),
    (forall i g, nth_error (flash t) i = Some g -> reg_inv geom fuel i g hist) ->
    exists rs t' w' d,
      target_flash_write_all malloc target_reset fuel t reqs w = Some (rs, t', w')
      /\ trace w' = d ++ trace w
      /\ copies_ok reqs d
      /\ (writes_ok geom hist -> writes_ok geom (d ++ hist)).
Proof.
  intros Hmal Hreqs. induction Hreqs as [|[dest src] reqs (Hd & Htop & Hfuel) _ IH];
    intros t w hist Hinv.
  - exists [], t, w, []. repeat split; auto. intros p d c [].
  - cbn [fst snd] in *. simpl target_flash_write_all.
    destruct (target_flash_write_ok fuel t dest src w hist Hmal Hinv Hd Htop Hfuel)
      as (r & t1 & w1 & d1 & Hrun1 & Ht1 & Hi1 & Hc1 & Hw1).
    rewrite Hrun1.
    destruct (IH t1 w1 (d1 ++ hist) Hi1) as (rs & t' & w' & d & Hrun & Ht & Hc & Hw).
    rewrite Hrun. exists (r :: rs), t', w', (d ++ d1).
    split; [reflexivity|]. split; [|split].
    + rewrite Ht, Ht1. apply app_assoc.
    + intros p x c Hin. apply in_app_or in Hin. destruct Hin as [Hin|Hin].
      * destruct (Hc p x c Hin) as (dest' & src' & Hin' & Hs').
        exists dest', src'. split; [right; exact Hin'|exact Hs'].
      * exists dest, src. split; [left; reflexivity|eauto].
    + intros Hh. rewrite <- app_assoc. auto.
Qed.

End Write.

(** ** Lookup, flash mode and what the operations leave alone *)

Lemma same_regions_refl {D : Type} (l : list (@target_flash D)) : same_regions l l.
Proof. unfold same_regions. induction l; constructor; auto. Qed.

Lemma same_regions_trans {D : Type} (a b c : list (@target_flash D)) :
  same_regions a b -> same_regions b c -> same_regions a c.
Proof.
  unfold same_regions. intros H. revert c.
  induction H as [|x y a b Hxy _ IH]; intros c Hc; inversion Hc; subst; constructor.
  - congruence.
  - auto.
Qed.

Lemma same_regions_store {D : Type} (l l1 : list (@target_flash D)) :
  same_regions l l1 ->
  forall p f f1, nth_error l1 p = Some f -> static f1 = static f ->
                 same_regions l (store p f1 l1).
Proof.
  unfold same_regions. induction 1 as [|x y l l1 Hxy Hl IH]; intros [|p] f f1 Hn Hs;
    simpl in *; try discriminate.
  - inversion Hn; subst. constructor; [congruence | exact Hl].
  - constructor; [exact Hxy | eapply IH; eauto].
Qed.

Section Extra.

Context {D : Type}.
Variable malloc : D -> Z -> D * option (nat -> byte).
Variable target_reset : D -> D.
Implicit Types (t : @target D) (w : @world D) (f : @target_flash D).

Lemma flash_for_addr_from_spec (l : list (@target_flash D)) :
  forall k x,
    match flash_for_addr_from k l x with
    | Some p =>
        exists i f, p = (k + i)%nat /\ nth_error l i = Some f /\ in_region f x
                    /\ forall j g, (j < i)%nat -> nth_error l j = Some g -> ~ in_region g x
    | None => forall j g, nth_error l j = Some g -> ~ in_region g x
    end.
Proof.
  induction l as [|f l IH]; intros k x; simpl.
  - intros [|j] g H; discriminate.
  - destruct ((start f <=? x) && (x <? wrap32 (start f + length f))) eqn:E.
    + apply andb_prop in E. destruct E as [E1 E2].
      exists 0%nat, f. rewrite Nat.add_0_r. repeat split; auto.
      * apply Z.leb_le; exact E1.
      * apply Z.ltb_lt; exact E2.
      * intros j g Hj. lia.
    + assert (Hf : ~ in_region f x).
      { unfold in_region. intros [H1 H2].
        apply Z.leb_le in H1. apply Z.ltb_lt in H2. rewrite H1, H2 in E. discriminate. }
      specialize (IH (S k) x).
      destruct (flash_for_addr_from (S k) l x) as [p|].
      * destruct IH as (i & g & -> & Hn & Hr & Hlt).
        exists (S i), g. split; [lia|]. split; [exact Hn|]. split; [exact Hr|].
        intros [|j] h Hj Hh; simpl in Hh.
        -- inversion Hh; subst. exact Hf.
        -- eapply Hlt; [|exact Hh]. lia.
      * intros [|j] h Hh; simpl in Hh.
        -- inversion Hh; subst. exact Hf.
        -- eapply IH; exact Hh.
Qed.

(** X1: on a chain whose regions end below the top address,
    [target_flash_for_addr] answers the first region whose interval
    [start, start + length) holds the address, and NULL exactly when no
    region's interval holds it. *)
Theorem target_flash_for_addr_first_match t (addr : Z) :
  Forall ends_below_top (flash t) ->
  match target_flash_for_addr t addr with
  | Some p =>
      exists f, nth_error (flash t) p = Some f /\ in_interval f addr
                /\ forall q g, (q < p)%nat -> nth_error (flash t) q = Some g ->
                               ~ in_interval g addr
  | None => forall f, In f (flash t) -> ~ in_interval f addr
  end.
Proof.
  intros Hall.
  assert (Heq : forall f, In f (flash t) -> (in_region f addr <-> in_interval f addr)).
  { intros f Hf. rewrite Forall_forall in Hall. destruct (Hall f Hf) as (H0 & H1 & H2).
    unfold in_region, in_interval, wrap32, UINT32_MAX in *.
    rewrite Z.mod_small by lia. reflexivity. }
  unfold target_flash_for_addr.
  pose proof (flash_for_addr_from_spec (flash t) 0 addr) as H.
  destruct (flash_for_addr_from 0 (flash t) addr) as [p|].
  - destruct H as (i & f & -> & Hn & Hr & Hlt). cbn [Nat.add]. exists f.
    split; [exact Hn|]. split; [apply Heq; eauto using nth_error_In|].
    intros q g Hq Hg Hi. apply (Hlt q g Hq Hg). apply Heq; eauto using nth_error_In.
  - intros f Hf Hi. destruct (In_nth_error _ _ Hf) as (q & Hq).
    apply (H q f Hq). apply Heq; auto.
Qed.

Lemma same_target_intro t t' :
  same_regions (flash t) (flash t') ->
  enter_flash_mode t' = enter_flash_mode t ->
  exit_flash_mode t' = exit_flash_mode t ->
  same_target t t'.
Proof.
  intros Hs He Hx. unfold same_target.
  split; [exact Hs|]. split; [exact He|]. split; [exact Hx|].
  intros x. unfold target_flash_for_addr. apply flash_for_addr_static. exact Hs.
Qed.

Lemma same_target_trans t1 t2 t3 : same_target t1 t2 -> same_target t2 t3 -> same_target t1 t3.
Proof.
  intros (A1 & A2 & A3 & A4) (B1 & B2 & B3 & B4). unfold same_target.
  split; [eapply same_regions_trans; eauto|].
  split; [congruence|]. split; [congruence|].
  intros x. rewrite B4. apply A4.
Qed.

Lemma for_each_flash_same
    (body : nat -> @target_flash D -> @world D -> option (bool * @target_flash D * @world D))
    (except : option nat) :
  (forall p f w r f' w', body p f w = Some (r, f', w') -> static f' = static f) ->
  forall l k ret w r l' w',
    for_each_flash body except k l ret w = Some (r, l', w') -> same_regions l l'.
Proof.
  intros Hb. induction l as [|f l IH]; intros k ret w r l' w' H; simpl in H.
  - inversion H; subst. constructor.
  - destruct (match except with Some q => Nat.eqb k q | None => false end).
    + destruct (for_each_flash body except (S k) l ret w) as [[[r0 l0] w0]|] eqn:Hr;
        [|discriminate].
      inversion H; subst. constructor; [reflexivity|eapply IH; eauto].
    + destruct (body k f w) as [[[r1 f1] w1]|] eqn:Hf; [|discriminate].
      destruct (for_each_flash body except (S k) l (ret && r1) w1) as [[[r0 l0] w0]|] eqn:Hr;
        [|discriminate].
      inversion H; subst. constructor; [eapply Hb; eauto|eapply IH; eauto].
Qed.

Lemma for_each_flash_skipped
    (body : nat -> @target_flash D -> @world D -> option (bool * @target_flash D * @world D))
    (p : nat) :
  forall l k ret w r l' w',
    for_each_flash body (Some p) k l ret w = Some (r, l', w') ->
    forall i, (k + i)%nat = p -> nth_error l' i = nth_error l i.
Proof.
  induction l as [|f l IH]; intros k ret w r l' w' H i Hi; simpl in H.
  - inversion H; subst. reflexivity.
  - destruct (Nat.eqb_spec k p) as [E|E].
    + destruct (for_each_flash body (Some p) (S k) l ret w) as [[[r0 l0] w0]|] eqn:Hr;
        [|discriminate].
      inversion H; subst. destruct i as [|i]; [reflexivity|]. lia.
    + destruct (body k f w) as [[[r1 f1] w1]|] eqn:Hf; [|discriminate].
      destruct (for_each_flash body (Some p) (S k) l (ret && r1) w1) as [[[r0 l0] w0]|] eqn:Hr;
        [|discriminate].
      inversion H; subst. destruct i as [|i]; [lia|]. simpl.
      eapply (IH (S k)); [exact Hr|]. lia.
Qed.

Lemma done_body_static p f w r f' w' :
  done_body p f w = Some (r, f', w') -> static f' = static f.
Proof.
  unfold done_body. intros H. pose proof (flash_done_static p f w) as Hs.
  destruct (flash_done p f w) as [[r0 f0] w0]. inversion H; subst. exact Hs.
Qed.

Lemma flush_done_body_static fuel p f w r f' w' :
  flush_done_body fuel p f w = Some (r, f', w') -> static f' = static f.
Proof.
  unfold flush_done_body. intros H.
  destruct (flash_buffered_flush fuel p f w) as [[[r1 f1] w1]|] eqn:Hf; [|discriminate].
  apply flash_buffered_flush_static in Hf.
  pose proof (flash_done_static p f1 w1) as Hs.
  destruct (flash_done p f1 w1) as [[r2 f2] w2]. inversion H; subst.
  cbn [fst snd] in Hs. congruence.
Qed.

Lemma buffered_write_loop_static fuel0 fuel p :
  forall f dest src len ret w r f' w',
    buffered_write_loop fuel0 fuel p f dest src len ret w = Some (r, f', w') ->
    static f' = static f.
Proof.
  induction fuel as [|fuel IH]; intros f dest src len ret w r f' w' H; simpl in H.
  - destruct (len =? 0); [|discriminate]. inversion H; reflexivity.
  - destruct (len =? 0). { inversion H; reflexivity. }
    destruct (writebufsize f =? 0); [discriminate|].
    destruct (buffer_setup fuel0 p f dest ret w) as [[[ret1 f1] w1]|] eqn:Hs; [|discriminate].
    apply buffer_setup_static in Hs. destruct Hs as [Hs _].
    destruct (_ <? _); [discriminate|].
    destruct (buf f1) as [b|]; [|discriminate].
    destruct (memcpy_at _ _ _) as [b'|]; [|discriminate].
    apply IH in H. rewrite H, <- Hs. reflexivity.
Qed.

Lemma flash_buffered_write_static fuel p f dest src len w r f' w' :
  flash_buffered_write malloc fuel p f dest src len w = Some (r, f', w') ->
  static f' = static f.
Proof.
  unfold flash_buffered_write, call. intros H. destruct (buf f).
  - now apply buffered_write_loop_static in H.
  - cbn [dev emit] in H. destruct (malloc (dev w) (writebufsize f)) as [d0 [init|]].
    + apply buffered_write_loop_static in H. rewrite H. reflexivity.
    + inversion H; reflexivity.
Qed.

Lemma erase_loop_same fuel :
  forall t addr len ret w r t' w',
    erase_loop fuel t addr len ret w = Some (r, t', w') -> same_target t t'.
Proof.
  induction fuel as [|fuel IH]; intros t addr len ret w r t' w' H; simpl in H.
  - destruct (len =? 0); [|discriminate]. inversion H; subst.
    apply same_target_intro; auto using same_regions_refl.
  - destruct (len =? 0).
    { inversion H; subst. apply same_target_intro; auto using same_regions_refl. }
    destruct (target_flash_for_addr t addr) as [p|];
      [|inversion H; subst; apply same_target_intro; auto using same_regions_refl].
    destruct (for_each_flash done_body (Some p) 0 (flash t) ret w) as [[[ret1 l1] w1]|] eqn:Ho;
      [|discriminate].
    pose proof (for_each_flash_same done_body (Some p) done_body_static _ _ _ _ _ _ _ Ho) as Hs1.
    destruct (nth_error l1 p) as [f|] eqn:Hn; [|discriminate].
    pose proof (flash_prepare_static p f w1) as Hsp.
    destruct (flash_prepare p f w1) as [[ok f1] w2]. cbn [fst snd] in Hsp.
    assert (Hstep : forall g, static g = static f ->
                              same_target t (set_flash t (store p g l1))).
    { intros g Hg. apply same_target_intro; auto.
      cbn [flash set_flash]. eapply same_regions_store; eauto. }
    destruct ok; cbn [negb] in H.
    + unfold call in H. destruct (erase f1 _ _ (dev w2)) as [d rc].
      destruct (_ =? 0).
      * pose proof (flash_done_static p f1 {| dev := d; trace := EvErase p (align_down addr (blocksize f)) (blocksize f1) rc :: trace w2 |}) as Hsd.
        destruct (flash_done p f1 _) as [[rd f2] w4]. cbn [fst snd] in Hsd.
        apply IH in H. eapply same_target_trans; [apply (Hstep f2); congruence|exact H].
      * apply IH in H. eapply same_target_trans; [apply (Hstep f1); congruence|exact H].
    + inversion H; subst. apply Hstep. exact Hsp.
Qed.

Lemma write_loop_same fuel0 fuel :
  forall t dest src len ret w r t' w',
    write_loop malloc fuel0 fuel t dest src len ret w = Some (r, t', w') -> same_target t t'.
Proof.
  induction fuel as [|fuel IH]; intros t dest src len ret w r t' w' H; simpl in H.
  - destruct (len =? 0); [|discriminate]. inversion H; subst.
    apply same_target_intro; auto using same_regions_refl.
  - destruct (len =? 0).
    { inversion H; subst. apply same_target_intro; auto using same_regions_refl. }
    destruct (target_flash_for_addr t dest) as [p|];
      [|inversion H; subst; apply same_target_intro; auto using same_regions_refl].
    destruct (for_each_flash (flush_done_body fuel0) (Some p) 0 (flash t) ret w)
      as [[[ret1 l1] w1]|] eqn:Ho; [|discriminate].
    pose proof (for_each_flash_same (flush_done_body fuel0) (Some p)
                  (flush_done_body_static fuel0) _ _ _ _ _ _ _ Ho) as Hs1.
    destruct (nth_error l1 p) as [f|] eqn:Hn; [|discriminate].
    destruct (flash_buffered_write _ _ _ _ _ _ _ _) as [[[r2 f1] w2]|] eqn:Hb; [|discriminate].
    apply flash_buffered_write_static in Hb.
    assert (Hstep : forall g, static g = static f ->
                              same_target t (set_flash t (store p g l1))).
    { intros g Hg. apply same_target_intro; auto.
      cbn [flash set_flash]. eapply same_regions_store; eauto. }
    destruct (_ =? _).
    + destruct (flash_buffered_flush fuel0 p f1 w2) as [[[r3 f2] w3]|] eqn:Hf; [|discriminate].
      apply flash_buffered_flush_static in Hf.
      pose proof (flash_done_static p f2 w3) as Hsd.
      destruct (flash_done p f2 w3) as [[r4 f3] w4]. cbn [fst snd] in Hsd.
      apply IH in H. eapply same_target_trans; [apply (Hstep f3); congruence|exact H].
    + apply IH in H. eapply same_target_trans; [apply (Hstep f1); congruence|exact H].
Qed.

Lemma enter_flash_mode_same t w :
  same_target t (snd (fst (target_enter_flash_mode target_reset t w))).
Proof.
  unfold target_enter_flash_mode, call. destruct (flash_mode t).
  - apply same_target_intro; auto using same_regions_refl.
  - destruct (enter_flash_mode t) as [h|]; [destruct (h (dev w)) as [d [|]]|];
      apply same_target_intro; auto using same_regions_refl.
Qed.

(** X2: whatever they return, [target_flash_erase], [target_flash_write]
    and [target_flash_complete] leave the flash chain with the same
    regions (geometry and hooks, position by position), the target with the
    same mode hooks, and every address resolving to the region it resolved
    to before. *)
Theorem operations_keep_regions
    (fuel : nat) t (addr len : Z) (src : list byte) w :
  (forall r t' w',
     target_flash_erase target_reset fuel t addr len w = Some (r, t', w') ->
     same_target t t')
  /\ (forall r t' w',
        target_flash_write malloc target_reset fuel t addr src len w = Some (r, t', w') ->
        same_target t t')
  /\ (forall r t' w',
        target_flash_complete target_reset fuel t w = Some (r, t', w') ->
        same_target t t').
Proof.
  split; [|split]; intros r t' w' H.
  - unfold target_flash_erase in H. pose proof (enter_flash_mode_same t w) as He.
    destruct (target_enter_flash_mode target_reset t w) as [[ok t1] w1]. cbn [fst snd] in He.
    destruct ok; cbn [negb] in H.
    + apply erase_loop_same in H. eapply same_target_trans; eauto.
    + inversion H; subst. exact He.
  - unfold target_flash_write in H. pose proof (enter_flash_mode_same t w) as He.
    destruct (target_enter_flash_mode target_reset t w) as [[ok t1] w1]. cbn [fst snd] in He.
    destruct ok; cbn [negb] in H.
    + apply write_loop_same in H. eapply same_target_trans; eauto.
    + inversion H; subst. exact He.
  - unfold target_flash_complete in H. destruct (flash_mode t) eqn:Hm; cbn [negb] in H.
    + destruct (for_each_flash (flush_done_body fuel) None 0 (flash t) true w)
        as [[[ret l1] w1]|] eqn:Ho; [|discriminate].
      pose proof (for_each_flash_same (flush_done_body fuel) None
                    (flush_done_body_static fuel) _ _ _ _ _ _ _ Ho) as Hs1.
      unfold target_exit_flash_mode, call in H. cbn [flash_mode set_flash negb] in H.
      rewrite Hm in H. cbn [negb] in H.
      destruct (exit_flash_mode (set_flash t l1)) as [h|] eqn:Hx;
        [destruct (h (dev w1)) as [d0 r0]|]; inversion H; subst;
        apply same_target_intro; auto.
    + inversion H; subst. apply same_target_intro; auto using same_regions_refl.
Qed.

End Extra.

(** ** Event classes and return values *)

Lemma tracks_refl (P : event -> bool) (ret : bool) (tr : list event) : tracks P ret ret tr tr.
Proof. exists []. simpl. rewrite andb_true_r. auto. Qed.

Lemma tracks_trans (P : event -> bool) (a b c : bool) (tr tr1 tr2 : list event) :
  tracks P a b tr tr1 -> tracks P b c tr1 tr2 -> tracks P a c tr tr2.
Proof.
  intros (d1 & -> & Hp1 & ->) (d2 & -> & Hp2 & ->). exists (d2 ++ d1).
  rewrite app_assoc, !forallb_app, Hp1, Hp2. repeat split.
  destruct a, (forallb op_ok d1), (forallb op_ok d2); reflexivity.
Qed.

Lemma tracks_step (P : event -> bool) (ret : bool) (e : event) (tr : list event) :
  P e = true -> tracks P ret (ret && op_ok e) tr (e :: tr).
Proof. intros H. exists [e]. simpl. rewrite H, !andb_true_r. auto. Qed.

Lemma tracks_silent (P : event -> bool) (ret : bool) (e : event) (tr : list event) :
  P e = true -> op_ok e = true -> tracks P ret ret tr (e :: tr).
Proof. intros H Ho. exists [e]. simpl. rewrite H, Ho, !andb_true_r. auto. Qed.

Lemma tracks_and (P : event -> bool) (ret r : bool) (tr tr' : list event) :
  tracks P true r tr tr' -> tracks P ret (ret && r) tr tr'.
Proof. intros (d & -> & Hp & ->). exists d. auto. Qed.

Lemma tracks_vouched (P : event -> bool) (ret r : bool) (tr tr' : list event) :
  tracks P ret r tr tr' -> vouched P ret r tr tr'.
Proof.
  intros (d & -> & Hp & ->). exists d. repeat split; auto;
    destruct ret, (forallb op_ok d); auto; discriminate.
Qed.

Lemma vouched_after (P : event -> bool) (a b c : bool) (tr tr1 tr2 : list event) :
  tracks P a b tr tr1 -> vouched P b c tr1 tr2 -> vouched P a c tr tr2.
Proof.
  intros (d1 & -> & Hp1 & ->) (d2 & -> & Hp2 & Hv). exists (d2 ++ d1).
  rewrite app_assoc, !forallb_app, Hp1, Hp2. repeat split; auto.
  - destruct (Hv H) as [Ha _]. destruct a; [reflexivity|discriminate].
  - destruct (Hv H) as [Ha ->]. destruct a, (forallb op_ok d1); auto; discriminate.
Qed.

Lemma vouched_false (P : event -> bool) (a b : bool) (tr tr1 : list event) :
  tracks P a b tr tr1 -> vouched P a false tr tr1.
Proof. intros (d1 & -> & Hp1 & ->). exists d1. repeat split; auto; discriminate. Qed.

Section Events.

Context {D : Type}.
Variable malloc : D -> Z -> D * option (nat -> byte).
Variable target_reset : D -> D.
Variable P : event -> bool.
Implicit Types (t : @target D) (w : @world D) (f : @target_flash D).

Hypothesis P_prepare : forall p ok, P (EvPrepare p ok) = true.
Hypothesis P_done : forall p ok, P (EvDone p ok) = true.
Hypothesis P_free : forall p, P (EvFree p) = true.
Hypothesis P_call_done : forall p, P (CallDone p) = true.
Hypothesis P_write : forall p a data n rc, P (EvWrite p a data n rc) = true.
Hypothesis P_call_flush : forall p lo hi, P (CallFlush p lo hi) = true.
Hypothesis P_copy : forall p d c, P (EvCopy p d c) = true.
Hypothesis P_malloc : forall p n ok, P (EvMalloc p n ok) = true.
Hypothesis P_call_write : forall p d n, P (CallBufferedWrite p d n) = true.
Hypothesis P_erase : forall p a n rc, P (EvErase p a n rc) = true.
Hypothesis P_enter : forall ok, P (EvEnterFlashMode ok) = true.
Hypothesis P_exit : forall ok, P (EvExitFlashMode ok) = true.
Hypothesis P_reset : P EvReset = true.

Lemma flash_prepare_events p f w :
  tracks P true (fst (fst (flash_prepare p f w))) (trace w)
         (trace (snd (flash_prepare p f w))).
Proof.
  unfold flash_prepare, call. destruct (ready f); [apply tracks_refl|].
  destruct (prepare f) as [h|]; [destruct (h (dev w)) as [d0 r]|];
    cbn [fst snd trace]; [|apply tracks_refl].
  apply (tracks_step P true (EvPrepare p r)). apply P_prepare.
Qed.

Lemma flash_done_events p f w :
  tracks P true (fst (fst (flash_done p f w))) (trace w) (trace (snd (flash_done p f w))).
Proof.
  unfold flash_done, call, emit. destruct (ready f); cbn [negb].
  - destruct (done f) as [h|]; [destruct (h _) as [d0 r]|]; destruct (buf f);
      cbn [fst snd trace dev]; unfold tracks; exists_new; cbn;
      rewrite ?P_done, ?P_free, ?P_call_done, ?andb_true_r; auto.
  - cbn [fst snd trace]. apply tracks_silent; auto.
Qed.

Lemma flush_loop_events fuel p f b :
  forall aligned_addr src len ret w r w',
    flush_loop fuel p f b aligned_addr src len ret w = Some (r, w') ->
    tracks P ret r (trace w) (trace w').
Proof.
  induction fuel as [|fuel IH]; intros a s len ret w r w' H; simpl in H.
  - destruct (len =? 0); [|discriminate]. inversion H; subst. apply tracks_refl.
  - destruct (len =? 0). { inversion H; subst. apply tracks_refl. }
    destruct (read_bytes b s (writesize f)) as [data|]; [|discriminate].
    unfold call in H. destruct (write f a data (writesize f) (dev w)) as [d0 rc].
    apply IH in H. cbn [trace] in H.
    eapply tracks_trans; [|exact H].
    apply (tracks_step P ret (EvWrite p a data (writesize f) rc)). apply P_write.
Qed.

Lemma flash_buffered_flush_events fuel p f w r f' w' :
  flash_buffered_flush fuel p f w = Some (r, f', w') ->
  tracks P true r (trace w) (trace w').
Proof.
  unfold flash_buffered_flush. intros H.
  assert (Hc : tracks P true true (trace w)
                 (trace (emit (CallFlush p (buf_addr_low f) (buf_addr_high f)) w))).
  { apply tracks_silent; auto. }
  destruct (buf f) as [b|]; [|inversion H; subst; exact Hc].
  destruct (_ && _); [|inversion H; subst; exact Hc].
  pose proof (flash_prepare_events p f
                (emit (CallFlush p (buf_addr_low f) (buf_addr_high f)) w)) as Hp.
  destruct (flash_prepare p f _) as [[ok f1] w1]. cbn [fst snd] in Hp.
  destruct ok; cbn [negb] in H.
  - destruct (flush_loop _ _ _ _ _ _ _ _ _) as [[ret w2]|] eqn:Hl; [|discriminate].
    inversion H; subst. apply flush_loop_events in Hl.
    eapply tracks_trans; [exact Hc|]. eapply tracks_trans; [exact Hp|exact Hl].
  - inversion H; subst. eapply tracks_trans; [exact Hc|exact Hp].
Qed.

Lemma done_body_events p f w r f' w' :
  done_body p f w = Some (r, f', w') -> tracks P true r (trace w) (trace w').
Proof.
  unfold done_body. intros H. pose proof (flash_done_events p f w) as Hd.
  destruct (flash_done p f w) as [[r0 f0] w0]. inversion H; subst. exact Hd.
Qed.

Lemma flush_done_body_events fuel p f w r f' w' :
  flush_done_body fuel p f w = Some (r, f', w') -> tracks P true r (trace w) (trace w').
Proof.
  unfold flush_done_body. intros H.
  destruct (flash_buffered_flush fuel p f w) as [[[r1 f1] w1]|] eqn:Hf; [|discriminate].
  apply flash_buffered_flush_events in Hf.
  pose proof (flash_done_events p f1 w1) as Hd.
  destruct (flash_done p f1 w1) as [[r2 f2] w2]. cbn [fst snd] in Hd. inversion H; subst.
  eapply tracks_trans; [exact Hf|]. rewrite andb_comm, andb_comm. apply tracks_and. exact Hd.
Qed.

Lemma for_each_flash_events
    (body : nat -> @target_flash D -> @world D -> option (bool * @target_flash D * @world D))
    (except : option nat) :
  (forall p f w r f' w', body p f w = Some (r, f', w') ->
                         tracks P true r (trace w) (trace w')) ->
  forall l k ret w r l' w',
    for_each_flash body except k l ret w = Some (r, l', w') ->
    tracks P ret r (trace w) (trace w').
Proof.
  intros Hb. induction l as [|f l IH]; intros k ret w r l' w' H; simpl in H.
  - inversion H; subst. apply tracks_refl.
  - destruct (match except with Some q => Nat.eqb k q | None => false end).
    + destruct (for_each_flash body except (S k) l ret w) as [[[r0 l0] w0]|] eqn:Hr;
        [|discriminate].
      inversion H; subst. eapply IH; eauto.
    + destruct (body k f w) as [[[r1 f1] w1]|] eqn:Hf; [|discriminate].
      destruct (for_each_flash body except (S k) l (ret && r1) w1) as [[[r0 l0] w0]|] eqn:Hr;
        [|discriminate].
      inversion H; subst. apply Hb in Hf. apply IH in Hr.
      eapply tracks_trans; [apply tracks_and; exact Hf|exact Hr].
Qed.

Lemma buffer_setup_events fuel0 p f dest ret w ret1 f1 w1 :
  buffer_setup fuel0 p f dest ret w = Some (ret1, f1, w1) ->
  tracks P ret ret1 (trace w) (trace w1).
Proof.
  unfold buffer_setup. intros H. destruct (negb _).
  - destruct (flash_buffered_flush fuel0 p f w) as [[[r0 f0] w0]|] eqn:Hf; [|discriminate].
    destruct (buf f0) as [b0|]; [|discriminate].
    destruct (memset _ _ _); [|discriminate].
    inversion H; subst. apply tracks_and. eapply flash_buffered_flush_events; eauto.
  - inversion H; subst. apply tracks_refl.
Qed.

Lemma buffered_write_loop_events fuel0 fuel p :
  forall f dest src len ret w r f' w',
    buffered_write_loop fuel0 fuel p f dest src len ret w = Some (r, f', w') ->
    tracks P ret r (trace w) (trace w').
Proof.
  induction fuel as [|fuel IH]; intros f dest src len ret w r f' w' H; simpl in H.
  - destruct (len =? 0); [|discriminate]. inversion H; subst. apply tracks_refl.
  - destruct (len =? 0). { inversion H; subst. apply tracks_refl. }
    destruct (writebufsize f =? 0); [discriminate|].
    destruct (buffer_setup fuel0 p f dest ret w) as [[[ret1 f1] w1]|] eqn:Hs; [|discriminate].
    apply buffer_setup_events in Hs.
    destruct (_ <? _); [discriminate|].
    destruct (buf f1) as [b|]; [|discriminate].
    destruct (memcpy_at _ _ _) as [b'|]; [|discriminate].
    apply IH in H. cbn [trace emit] in H.
    eapply tracks_trans; [exact Hs|]. eapply tracks_trans; [|exact H].
    apply tracks_silent; auto.
Qed.

Lemma flash_buffered_write_events fuel p f dest src len w r f' w' :
  flash_buffered_write malloc fuel p f dest src len w = Some (r, f', w') ->
  tracks P true r (trace w) (trace w').
Proof.
  unfold flash_buffered_write. intros H.
  assert (Hc : tracks P true true (trace w) (trace (emit (CallBufferedWrite p dest len) w))).
  { apply tracks_silent; auto. }
  destruct (buf f).
  - apply buffered_write_loop_events in H. eapply tracks_trans; eauto.
  - unfold call in H. cbn [dev emit] in H.
    destruct (malloc (dev w) (writebufsize f)) as [d0 [init|]].
    + apply buffered_write_loop_events in H. cbn [trace] in H.
      eapply tracks_trans; [exact Hc|]. eapply tracks_trans; [|exact H].
      apply tracks_silent; auto.
    + inversion H; subst. cbn [trace]. eapply tracks_trans; [exact Hc|].
      apply (tracks_step P true (EvMalloc p (writebufsize f') false)). auto.
Qed.

Lemma enter_flash_mode_events t w :
  tracks P true (fst (fst (target_enter_flash_mode target_reset t w))) (trace w)
         (trace (snd (target_enter_flash_mode target_reset t w))).
Proof.
  unfold target_enter_flash_mode, call. destruct (flash_mode t); [apply tracks_refl|].
  destruct (enter_flash_mode t) as [h|]; [destruct (h (dev w)) as [d r]|];
    cbn [fst snd trace].
  - apply (tracks_step P true (EvEnterFlashMode r)). auto.
  - apply tracks_silent; auto.
Qed.

Lemma exit_flash_mode_events t w :
  tracks P true true (trace w) (trace (snd (target_exit_flash_mode target_reset t w))).
Proof.
  unfold target_exit_flash_mode, call. destruct (flash_mode t); [|apply tracks_refl].
  cbn [negb].
  destruct (exit_flash_mode t) as [h|]; [destruct (h (dev w)) as [d r]|];
    cbn [fst snd trace]; apply tracks_silent; auto.
Qed.

Lemma erase_loop_events fuel :
  forall t addr len ret w r t' w',
    erase_loop fuel t addr len ret w = Some (r, t', w') ->
    vouched P ret r (trace w) (trace w').
Proof.
  induction fuel as [|fuel IH]; intros t addr len ret w r t' w' H; simpl in H.
  - destruct (len =? 0); [|discriminate]. inversion H; subst.
    apply tracks_vouched, tracks_refl.
  - destruct (len =? 0). { inversion H; subst. apply tracks_vouched, tracks_refl. }
    destruct (target_flash_for_addr t addr) as [p|];
      [|inversion H; subst; eapply vouched_false, tracks_refl].
    destruct (for_each_flash done_body (Some p) 0 (flash t) ret w) as [[[ret1 l1] w1]|] eqn:Ho;
      [|discriminate].
    pose proof (for_each_flash_events done_body (Some p) done_body_events _ _ _ _ _ _ _ Ho)
      as Hs1.
    destruct (nth_error l1 p) as [f|] eqn:Hn; [|discriminate].
    pose proof (flash_prepare_events p f w1) as Hp.
    destruct (flash_prepare p f w1) as [[ok f1] w2]. cbn [fst snd] in Hp.
    destruct ok; cbn [negb] in H.
    + unfold call in H. destruct (erase f1 _ _ (dev w2)) as [d rc].
      assert (He : tracks P ret1 (ret1 && (rc =? 0)) (trace w1)
                     (EvErase p (align_down addr (blocksize f)) (blocksize f1) rc :: trace w2)).
      { eapply tracks_trans; [|apply (tracks_step P _ (EvErase p _ _ rc)); auto].
        destruct Hp as (dp & -> & Hpp & Hpo). exists dp. repeat split; auto.
        simpl in Hpo. rewrite <- Hpo, andb_true_r. reflexivity. }
      destruct (_ =? 0).
      * pose proof (flash_done_events p f1 {| dev := d; trace := EvErase p (align_down addr (blocksize f)) (blocksize f1) rc :: trace w2 |}) as Hd.
        destruct (flash_done p f1 _) as [[rd f2] w4]. cbn [fst snd trace] in Hd.
        apply IH in H.
        eapply vouched_after; [exact Hs1|]. eapply vouched_after; [exact He|].
        eapply vouched_after; [apply tracks_and; exact Hd|exact H].
      * apply IH in H. cbn [trace] in H.
        eapply vouched_after; [exact Hs1|]. eapply vouched_after; [exact He|exact H].
    + inversion H; subst. eapply vouched_false.
      eapply tracks_trans; [exact Hs1|apply tracks_and; exact Hp].
Qed.

Lemma write_loop_events fuel0 fuel :
  forall t dest src len ret w r t' w',
    write_loop malloc fuel0 fuel t dest src len ret w = Some (r, t', w') ->
    vouched P ret r (trace w) (trace w').
Proof.
  induction fuel as [|fuel IH]; intros t dest src len ret w r t' w' H; simpl in H.
  - destruct (len =? 0); [|discriminate]. inversion H; subst.
    apply tracks_vouched, tracks_refl.
  - destruct (len =? 0). { inversion H; subst. apply tracks_vouched, tracks_refl. }
    destruct (target_flash_for_addr t dest) as [p|];
      [|inversion H; subst; eapply vouched_false, tracks_refl].
    destruct (for_each_flash (flush_done_body fuel0) (Some p) 0 (flash t) ret w)
      as [[[ret1 l1] w1]|] eqn:Ho; [|discriminate].
    pose proof (for_each_flash_events (flush_done_body fuel0) (Some p)
                  (flush_done_body_events fuel0) _ _ _ _ _ _ _ Ho) as Hs1.
    destruct (nth_error l1 p) as [f|] eqn:Hn; [|discriminate].
    destruct (flash_buffered_write _ _ _ _ _ _ _ _) as [[[r2 f1] w2]|] eqn:Hb; [|discriminate].
    apply flash_buffered_write_events in Hb.
    destruct (_ =? _).
    + destruct (flash_buffered_flush fuel0 p f1 w2) as [[[r3 f2] w3]|] eqn:Hf; [|discriminate].
      apply flash_buffered_flush_events in Hf.
      pose proof (flash_done_events p f2 w3) as Hd.
      destruct (flash_done p f2 w3) as [[r4 f3] w4]. cbn [fst snd] in Hd.
      apply IH in H.
      eapply vouched_after; [exact Hs1|].
      eapply vouched_after; [apply tracks_and; exact Hb|].
      eapply vouched_after; [apply tracks_and; exact Hf|].
      eapply vouched_after; [apply tracks_and; exact Hd|exact H].
    + apply IH in H.
      eapply vouched_after; [exact Hs1|].
      eapply vouched_after; [apply tracks_and; exact Hb|exact H].
Qed.

Lemma target_flash_erase_events fuel t addr len w r t' w' :
  target_flash_erase target_reset fuel t addr len w = Some (r, t', w') ->
  vouched P true r (trace w) (trace w').
Proof.
  unfold target_flash_erase. intros H. pose proof (enter_flash_mode_events t w) as He.
  destruct (target_enter_flash_mode target_reset t w) as [[ok t1] w1]. cbn [fst snd] in He.
  destruct ok; cbn [negb] in H.
  - apply erase_loop_events in H. eapply vouched_after; eauto.
  - inversion H; subst. eapply vouched_false; eauto.
Qed.

Lemma target_flash_write_events fuel t dest src len w r t' w' :
  target_flash_write malloc target_reset fuel t dest src len w = Some (r, t', w') ->
  vouched P true r (trace w) (trace w').
Proof.
  unfold target_flash_write. intros H. pose proof (enter_flash_mode_events t w) as He.
  destruct (target_enter_flash_mode target_reset t w) as [[ok t1] w1]. cbn [fst snd] in He.
  destruct ok; cbn [negb] in H.
  - apply write_loop_events in H. eapply vouched_after; eauto.
  - inversion H; subst. eapply vouched_false; eauto.
Qed.

Lemma target_flash_complete_events fuel t w r t' w' :
  flash_mode t = true ->
  target_flash_complete target_reset fuel t w = Some (r, t', w') ->
  tracks P true r (trace w) (trace w').
Proof.
  unfold target_flash_complete. intros Hm H. rewrite Hm in H. cbn [negb] in H.
  destruct (for_each_flash (flush_done_body fuel) None 0 (flash t) true w)
    as [[[ret l1] w1]|] eqn:Ho; [|discriminate].
  pose proof (for_each_flash_events (flush_done_body fuel) None
                (flush_done_body_events fuel) _ _ _ _ _ _ _ Ho) as Hs1.
  pose proof (exit_flash_mode_events (set_flash t l1) w1) as Hx.
  destruct (target_exit_flash_mode target_reset (set_flash t l1) w1) as [[x t3] w4].
  cbn [snd] in Hx. inversion H; subst.
  eapply tracks_trans; [exact Hs1|]. destruct Hx as (d & -> & Hp & Ho').
  exists d. repeat split; auto. destruct r; [exact Ho'|reflexivity].
Qed.

End Events.

Section Results.

Context {D : Type}.
Variable malloc : D -> Z -> D * option (nat -> byte).
Variable target_reset : D -> D.
Implicit Types (t : @target D) (w : @world D) (f : @target_flash D).

Lemma flush_done_body_result fuel p f w r f' w' :
  flush_done_body fuel p f w = Some (r, f', w') ->
  tracks (fun _ => true) true r (trace w) (trace w').
Proof. intros H. eapply flush_done_body_events; try exact H; intros; reflexivity. Qed.

Lemma for_each_flash_result fuel (except : option nat) (l : list (@target_flash D))
    k ret w r l' w' :
  for_each_flash (flush_done_body fuel) except k l ret w = Some (r, l', w') ->
  tracks (fun _ => true) ret r (trace w) (trace w').
Proof.
  intros H. eapply for_each_flash_events; [|exact H].
  intros. eapply flush_done_body_result; eauto.
Qed.

Lemma flash_buffered_write_result fuel p f dest src len w r f' w' :
  flash_buffered_write malloc fuel p f dest src len w = Some (r, f', w') ->
  tracks (fun _ => true) true r (trace w) (trace w').
Proof. intros H. eapply flash_buffered_write_events; try exact H; intros; reflexivity. Qed.

Lemma enter_flash_mode_result t w :
  tracks (fun _ => true) true (fst (fst (target_enter_flash_mode target_reset t w)))
         (trace w) (trace (snd (target_enter_flash_mode target_reset t w))).
Proof. apply enter_flash_mode_events; intros; reflexivity. Qed.

Lemma target_flash_complete_result fuel t w r t' w' :
  flash_mode t = true ->
  target_flash_complete target_reset fuel t w = Some (r, t', w') ->
  tracks (fun _ => true) true r (trace w) (trace w').
Proof.
  intros Hm H. eapply target_flash_complete_events; try exact H; try exact Hm;
    intros; reflexivity.
Qed.

End Results.

Section Outcomes.

Context {D : Type}.
Variable malloc : D -> Z -> D * option (nat -> byte).
Variable target_reset : D -> D.
Implicit Types (t : @target D) (w : @world D) (f : @target_flash D).

(** X3: an erase calls nothing but the flash-mode entry, the prepare,
    erase and done hooks and [free]: it never calls a write primitive,
    never flushes and never allocates.  A write never erases and never
    leaves flash mode.  [target_flash_complete] never erases, allocates,
    buffers or enters flash mode. *)
Theorem operations_event_classes
    (fuel : nat) t (addr len : Z) (src : list byte) w :
  (forall r t' w',
     target_flash_erase target_reset fuel t addr len w = Some (r, t', w') ->
     exists new, trace w' = new ++ trace w /\ forallb erase_family new = true)
  /\ (forall r t' w',
        target_flash_write malloc target_reset fuel t addr src len w = Some (r, t', w') ->
        exists new, trace w' = new ++ trace w /\ forallb write_family new = true)
  /\ (forall r t' w',
        target_flash_complete target_reset fuel t w = Some (r, t', w') ->
        exists new, trace w' = new ++ trace w /\ forallb complete_family new = true).
Proof.
  split; [|split]; intros r t' w' H.
  - assert (V : vouched erase_family true r (trace w) (trace w')).
    { eapply (target_flash_erase_events target_reset); try exact H; intros; reflexivity. }
    destruct V as (d & Ht & Hp & _). exists d. auto.
  - assert (V : vouched write_family true r (trace w) (trace w')).
    { eapply (target_flash_write_events malloc target_reset); try exact H;
        intros; reflexivity. }
    destruct V as (d & Ht & Hp & _). exists d. auto.
  - destruct (flash_mode t) eqn:Hm.
    + assert (V : tracks complete_family true r (trace w) (trace w')).
      { eapply (target_flash_complete_events target_reset); try exact H; try exact Hm;
          intros; reflexivity. }
      destruct V as (d & Ht & Hp & _). exists d. auto.
    + unfold target_flash_complete in H. rewrite Hm in H. inversion H; subst.
      exists []. auto.
Qed.

(** X4: a [true] from [target_flash_erase] or [target_flash_write] vouches
    for every call made on the way: the enter-flash-mode hook, every
    prepare and done hook, every erase and write primitive and every
    allocation answered success.  In flash mode the result of
    [target_flash_complete] is exactly the conjunction of the answers of
    the prepare hooks, write primitives and done hooks it called; what
    the exit-flash-mode hook answers is dropped. *)
Theorem results_vouch_for_answers
    (fuel : nat) t (addr len : Z) (src : list byte) w :
  (forall t' w',
     target_flash_erase target_reset fuel t addr len w = Some (true, t', w') ->
     exists new, trace w' = new ++ trace w /\ forallb op_ok new = true)
  /\ (forall t' w',
        target_flash_write malloc target_reset fuel t addr src len w = Some (true, t', w') ->
        exists new, trace w' = new ++ trace w /\ forallb op_ok new = true)
  /\ (forall r t' w',
        flash_mode t = true ->
        target_flash_complete target_reset fuel t w = Some (r, t', w') ->
        exists new, trace w' = new ++ trace w /\ r = forallb op_ok new).
Proof.
  split; [|split].
  - intros t' w' H.
    assert (V : vouched (fun _ => true) true true (trace w) (trace w')).
    { eapply (target_flash_erase_events target_reset); try exact H; intros; reflexivity. }
    destruct V as (d & Ht & _ & Hv). exists d. split; [exact Ht|]. apply Hv. reflexivity.
  - intros t' w' H.
    assert (V : vouched (fun _ => true) true true (trace w) (trace w')).
    { eapply (target_flash_write_events malloc target_reset); try exact H;
        intros; reflexivity. }
    destruct V as (d & Ht & _ & Hv). exists d. split; [exact Ht|]. apply Hv. reflexivity.
  - intros r t' w' Hm H.
    assert (V : tracks (fun _ => true) true r (trace w) (trace w')).
    { eapply (target_flash_complete_events target_reset); try exact H; try exact Hm;
        intros; reflexivity. }
    destruct V as (d & Ht & _ & Hv). exists d. auto.
Qed.

(** X5: a request of length zero only enters flash mode: what
    [target_flash_erase] and [target_flash_write] return is what
    [target_enter_flash_mode] returned, whatever the address, and no region
    is looked up, retired or prepared. *)
Theorem zero_length_request_only_enters_flash_mode
    (fuel : nat) t (addr : Z) (src : list byte) w :
  target_flash_erase target_reset fuel t addr 0 w
  = Some (target_enter_flash_mode target_reset t w)
  /\ target_flash_write malloc target_reset fuel t addr src 0 w
     = Some (target_enter_flash_mode target_reset t w).
Proof.
  unfold target_flash_erase, target_flash_write.
  destruct (target_enter_flash_mode target_reset t w) as [[ok t1] w1].
  destruct ok; cbn [negb]; [|auto]. destruct fuel; auto.
Qed.

(** X6: when no region holds the first address of a request of non-zero
    length, [target_flash_erase] and [target_flash_write] return [false]
    after the attempt to enter flash mode and nothing else: no region is
    retired, prepared, erased or written, but the target stays in flash
    mode if it was entered. *)
Theorem unowned_address_fails_after_entering_flash_mode
    (fuel : nat) t (addr len : Z) (src : list byte) w :
  target_flash_for_addr t addr = None ->
  len <> 0 ->
  let '(_, t1, w1) := target_enter_flash_mode target_reset t w in
  target_flash_erase target_reset (S fuel) t addr len w = Some (false, t1, w1)
  /\ target_flash_write malloc target_reset (S fuel) t addr src len w = Some (false, t1, w1)
  /\ flash t1 = flash t.
Proof.
  intros Hn Hl. unfold target_flash_erase, target_flash_write.
  pose proof (enter_flash_mode_effect target_reset t w) as (d0 & _ & Hf & _).
  destruct (target_enter_flash_mode target_reset t w) as [[ok t1] w1]. cbn [fst snd] in Hf.
  apply Z.eqb_neq in Hl.
  assert (Hn1 : target_flash_for_addr t1 addr = None).
  { unfold target_flash_for_addr in *. rewrite Hf. exact Hn. }
  destruct ok; cbn [negb]; [|auto]. simpl. rewrite Hl, Hn1. auto.
Qed.

Lemma for_each_flash_all
    (body : nat -> @target_flash D -> @world D -> option (bool * @target_flash D * @world D))
    (R : @target_flash D -> @target_flash D -> Prop) :
  (forall p f w r f' w', body p f w = Some (r, f', w') -> R f f') ->
  forall l k ret w r l' w',
    for_each_flash body None k l ret w = Some (r, l', w') -> Forall2 R l l'.
Proof.
  intros Hb. induction l as [|f l IH]; intros k ret w r l' w' H; simpl in H.
  - inversion H; subst. constructor.
  - destruct (body k f w) as [[[r1 f1] w1]|] eqn:Hf; [|discriminate].
    destruct (for_each_flash body None (S k) l (ret && r1) w1) as [[[r0 l0] w0]|] eqn:Hr;
      [|discriminate].
    inversion H; subst. constructor; [eapply Hb; eauto|eapply IH; eauto].
Qed.

Lemma flash_buffered_flush_flushed fuel p f w r f' w' :
  flash_buffered_flush fuel p f w = Some (r, f', w') ->
  prepare_succeeds f -> flushed f' /\ ready f' = true \/ f' = f /\ flushed f.
Proof.
  unfold flash_buffered_flush. intros H Hp.
  destruct (buf f) as [b|] eqn:Hb.
  - destruct (buf_addr_base f =? UINT32_MAX) eqn:E1; cbn [negb andb] in H.
    { inversion H; subst. right. split; [reflexivity|]. unfold flushed. rewrite Hb.
      left. apply Z.eqb_eq. exact E1. }
    destruct (buf_addr_low f =? UINT32_MAX) eqn:E2; cbn [negb andb] in H.
    { inversion H; subst. right. split; [reflexivity|]. unfold flushed. rewrite Hb.
      right. left. apply Z.eqb_eq. exact E2. }
    destruct (buf_addr_low f <? buf_addr_high f) eqn:E3.
    + destruct (flash_prepare_true p f
                  (emit (CallFlush p (buf_addr_low f) (buf_addr_high f)) w) (or_intror Hp))
        as (f1 & w1 & dp & Hpr & _ & _ & Hb1 & _).
      assert (Hr1 : ready f1 = true).
      { unfold flash_prepare in Hpr. destruct (ready f) eqn:Hr.
        - inversion Hpr; subst. exact Hr.
        - destruct (prepare f) as [h|]; [unfold call in Hpr; destruct (h _) as [d0 ok]|];
            inversion Hpr; subst; reflexivity. }
      rewrite Hpr in H. cbn [negb] in H.
      destruct (flush_loop _ _ _ _ _ _ _ _ _) as [[ret w2]|]; [|discriminate].
      inversion H; subst. left. split; [|exact Hr1].
      unfold flushed. cbn. destruct (buf f1); auto.
    + inversion H; subst. right. split; [reflexivity|]. unfold flushed. rewrite Hb.
      right. right. apply Z.ltb_ge. exact E3.
  - inversion H; subst. right. split; [reflexivity|]. unfold flushed. rewrite Hb. exact I.
Qed.

Lemma flash_done_retires p f w :
  ready (snd (fst (flash_done p f w))) = false
  /\ (flushed f -> flushed (snd (fst (flash_done p f w))))
  /\ (ready f = true -> buf (snd (fst (flash_done p f w))) = None).
Proof.
  unfold flash_done, call, emit. destruct (ready f) eqn:Hr; cbn [negb].
  - destruct (done f) as [h|]; [destruct (h _) as [d0 r]|]; destruct (buf f) eqn:Hb;
      cbn [fst snd]; unfold flushed; cbn; rewrite ?Hb; auto.
  - cbn [fst snd]. repeat split; auto. discriminate.
Qed.

(** X7: in flash mode, when [target_flash_complete] returns the target
    is out of flash mode and every region is retired: none is ready, and
    a region whose prepare hook cannot fail holds nothing left to write
    out, its buffer freed if it was ready or had bytes to flush. *)
Theorem target_flash_complete_retires_every_region (fuel : nat) t w :
  flash_mode t = true ->
  forall r t' w',
    target_flash_complete target_reset fuel t w = Some (r, t', w') ->
    flash_mode t' = false
    /\ Forall2 (fun f f' =>
                  ready f' = false
                  /\ (prepare_succeeds f ->
                      flushed f' /\ (ready f = true \/ ~ flushed f -> buf f' = None)))
               (flash t) (flash t').
Proof.
  intros Hm r t' w' H. unfold target_flash_complete in H. rewrite Hm in H. cbn [negb] in H.
  destruct (for_each_flash (flush_done_body fuel) None 0 (flash t) true w)
    as [[[ret l1] w1]|] eqn:Ho; [|discriminate].
  pose proof (exit_flash_mode_flag target_reset (set_flash t l1) w1) as Hx.
  assert (Hfl : flash (snd (fst (target_exit_flash_mode target_reset (set_flash t l1) w1)))
                = l1).
  { unfold target_exit_flash_mode, call.
    cbn [flash_mode set_flash exit_flash_mode]. rewrite Hm. cbn [negb].
    destruct (exit_flash_mode t) as [h|]; [destruct (h (dev w1)) as [d0 r0]|];
      reflexivity. }
  destruct (target_exit_flash_mode target_reset (set_flash t l1) w1) as [[x t3] w4].
  cbn [fst snd] in Hx, Hfl. inversion H; subst. split; [exact Hx|].
  eapply for_each_flash_all; [|exact Ho].
  clear. intros p f w r f' w' H. unfold flush_done_body in H.
  destruct (flash_buffered_flush fuel p f w) as [[[r1 f1] w1]|] eqn:Hf; [|discriminate].
  pose proof (flash_done_retires p f1 w1) as (Hr & Hk & Hb).
  destruct (flash_done p f1 w1) as [[r2 f2] w2]. cbn [fst snd] in Hr, Hk, Hb.
  inversion H; subst. split; [exact Hr|]. intros Hp.
  destruct (flash_buffered_flush_flushed _ _ _ _ _ _ _ Hf Hp) as [[Hfl Hrd]|[-> Hfl]].
  - split; [auto|]. intros _. auto.
  - split; [auto|]. intros [Hrd|Hn]; [auto|contradiction].
Qed.

(** X15: once the target is in flash mode, [target_flash_erase] and
    [target_flash_write] leave its mode alone: they call neither the
    enter-flash-mode hook nor the exit-flash-mode hook, and they do not
    reset the target. *)
Theorem in_flash_mode_erase_and_write_do_not_reset
    (fuel : nat) t (addr len : Z) (src : list byte) w :
  flash_mode t = true ->
  (forall r t' w',
     target_flash_erase target_reset fuel t addr len w = Some (r, t', w') ->
     exists new, trace w' = new ++ trace w
                 /\ forallb (fun e => negb (mode_event e)) new = true)
  /\ (forall r t' w',
        target_flash_write malloc target_reset fuel t addr src len w = Some (r, t', w') ->
        exists new, trace w' = new ++ trace w
                    /\ forallb (fun e => negb (mode_event e)) new = true).
Proof.
  intros Hm. split; intros r t' w' H.
  - unfold target_flash_erase, target_enter_flash_mode in H. rewrite Hm in H.
    cbn [negb] in H.
    assert (V : vouched (fun e => negb (mode_event e)) true r (trace w) (trace w')).
    { eapply erase_loop_events; try exact H; intros; reflexivity. }
    destruct V as (d & Ht & Hp & _). exists d. auto.
  - unfold target_flash_write, target_enter_flash_mode in H. rewrite Hm in H.
    cbn [negb] in H.
    assert (V : vouched (fun e => negb (mode_event e)) true r (trace w) (trace w')).
    { eapply (write_loop_events malloc); try exact H; intros; reflexivity. }
    destruct V as (d & Ht & Hp & _). exists d. auto.
Qed.

End Outcomes.

(** ** What a flush writes out *)

Lemma write_calls_app (a b : list event) :
  write_calls (a ++ b) = write_calls a ++ write_calls b.
Proof. unfold write_calls. apply flat_map_app. Qed.

Lemma write_calls_In (p : nat) (a : Z) (data : list byte) (tr : list event) :
  In (p, a, data) (write_calls tr) -> exists n rc, In (EvWrite p a data n rc) tr.
Proof.
  induction tr as [|e tr IH]; simpl; [intros []|].
  intros H. apply in_app_or in H. destruct H as [H|H].
  - destruct e; simpl in H; try contradiction. destruct H as [H|[]].
    inversion H; subst. eauto.
  - destruct (IH H) as (n & rc & Hin). eauto.
Qed.

Lemma covering_blocks_aligned (low high s : Z) :
  0 < s ->
  covering_blocks (low - low mod s) (high - (low - low mod s)) s
  = covering_blocks low (high - low) s.
Proof.
  intros Hs. unfold covering_blocks.
  assert (E : (low - low mod s) / s = low / s).
  { pose proof (Z.div_mod low s ltac:(lia)) as Hdm.
    replace (low - low mod s) with (low / s * s) by lia. apply Z.div_mul. lia. }
  rewrite E.
  replace (low - low mod s + (high - (low - low mod s)) - 1) with (low + (high - low) - 1)
    by lia.
  reflexivity.
Qed.

Section Flush.

Context {D : Type}.
Implicit Types (w : @world D) (f : @target_flash D).

Lemma flush_loop_calls p f (b : list byte) (base : Z) :
  0 < writesize f ->
  Z.of_nat (List.length b) = writebufsize f ->
  0 <= base -> base mod writesize f = 0 ->
  (base + writebufsize f) mod writesize f = 0 ->
  base + writebufsize f <= 4294967296 ->
  forall fuel aligned len ret w,
    0 < len -> aligned + len <= base + writebufsize f ->
    aligned mod writesize f = 0 -> base <= aligned ->
    (Z.to_nat len <= fuel)%nat ->
    exists r w' d,
      flush_loop fuel p f b aligned (aligned - base) len ret w = Some (r, w')
      /\ trace w' = d ++ trace w
      /\ write_calls (rev d)
         = map (fun a => (p, a, buffer_span b base a (writesize f)))
               (covering_blocks aligned len (writesize f)).
Proof.
  intros Hws Hlen Hbase Hbm Hem Htop.
  induction fuel as [|fuel IH]; intros aligned len ret w Hpos Hfit Ham Hba Hfuel; [lia|].
  simpl flush_loop. rewrite (proj2 (Z.eqb_neq len 0)) by lia.
  assert (Hstep : aligned + writesize f <= base + writebufsize f).
  { apply aligned_step; auto. lia. }
  assert (Hal : writesize f * (aligned / writesize f) = aligned).
  { pose proof (Z.div_mod aligned (writesize f) ltac:(lia)). lia. }
  unfold read_bytes.
  replace (0 <=? aligned - base) with true by (symmetry; apply Z.leb_le; lia).
  replace (0 <=? writesize f) with true by (symmetry; apply Z.leb_le; lia).
  replace (aligned - base + writesize f <=? Z.of_nat (List.length b)) with true
    by (symmetry; apply Z.leb_le; lia).
  cbn [andb]. unfold call.
  change (firstn (Z.to_nat (writesize f)) (skipn (Z.to_nat (aligned - base)) b))
    with (buffer_span b base aligned (writesize f)).
  set (data := buffer_span b base aligned (writesize f)).
  destruct (write f aligned data (writesize f) (dev w)) as [d0 rc].
  set (ev := EvWrite p aligned data (writesize f) rc).
  destruct (Z.le_gt_cases len (writesize f)) as [Hle|Hgt].
  - replace (len - Z.min len (writesize f)) with 0 by lia.
    exists (ret && (rc =? 0)), {| dev := d0; trace := ev :: trace w |}, [ev].
    split; [destruct fuel; reflexivity|]. split; [reflexivity|].
    rewrite covering_blocks_last by lia. rewrite Hal. reflexivity.
  - replace (len - Z.min len (writesize f)) with (len - writesize f) by lia.
    rewrite (wrap32_small (aligned + writesize f)) by lia.
    replace (aligned - base + writesize f) with (aligned + writesize f - base) by lia.
    destruct (IH (aligned + writesize f) (len - writesize f) (ret && (rc =? 0))
                 {| dev := d0; trace := ev :: trace w |})
      as (r & w' & d & Hrun & Ht & Hc); try lia.
    { apply mod0_add; auto. }
    exists r, w', (d ++ [ev]). split; [exact Hrun|]. split.
    + rewrite Ht, <- app_assoc. reflexivity.
    + rewrite rev_unit. cbn [write_calls flat_map app ev]. fold (write_calls (rev d)).
      rewrite Hc. rewrite (covering_blocks_cons aligned len) by lia.
      rewrite Hal. cbn [map].
      replace (len - (aligned + writesize f - aligned)) with (len - writesize f) by lia.
      reflexivity.
Qed.

(** The flush of an active segment. *)
Lemma flash_buffered_flush_calls fuel p f w (b : list byte) :
  buf f = Some b ->
  Z.of_nat (List.length b) = writebufsize f ->
  is_pow2 (writesize f) = true -> is_pow2 (writebufsize f) = true ->
  writesize f <= writebufsize f ->
  buf_addr_base f mod writebufsize f = 0 ->
  0 <= buf_addr_base f <= buf_addr_low f ->
  buf_addr_low f < buf_addr_high f ->
  buf_addr_high f <= buf_addr_base f + writebufsize f ->
  buf_addr_high f <= UINT32_MAX ->
  ready f = true \/ prepare_succeeds f ->
  (Z.to_nat (writebufsize f) <= fuel)%nat ->
  exists r f' w' new,
    flash_buffered_flush fuel p f w = Some (r, f', w')
    /\ trace w' = new ++ trace w
    /\ write_calls (rev new)
       = map (fun a => (p, a, buffer_span b (buf_addr_base f) a (writesize f)))
             (covering_blocks (buf_addr_low f) (buf_addr_high f - buf_addr_low f)
                              (writesize f)).
Proof.
  intros Hb Hlen Hps Hpw Hle Hbm [Hb0 Hbl] Hlh Hhb Hhm Hprep Hfuel.
  pose proof (is_pow2_range _ Hpw) as Hwr. pose proof (is_pow2_range _ Hps) as Hsr.
  unfold flash_buffered_flush. rewrite Hb. unfold UINT32_MAX in *.
  rewrite (proj2 (Z.eqb_neq (buf_addr_base f) 4294967295)) by lia.
  rewrite (proj2 (Z.eqb_neq (buf_addr_low f) 4294967295)) by lia.
  rewrite (proj2 (Z.ltb_lt _ _) Hlh). cbn [negb andb].
  set (mk := CallFlush p (buf_addr_low f) (buf_addr_high f)).
  destruct (flash_prepare_true p f (emit mk w) Hprep)
    as (f1 & w1 & dp & Hpr & Htp & Hs1 & Hb1 & E1 & E2 & E3 & Hdp).
  rewrite Hpr. cbn [negb]. rewrite E1, E2, E3.
  assert (Ews : writesize f1 = writesize f) by (unfold static in Hs1; congruence).
  assert (Ewb : writebufsize f1 = writebufsize f) by (unfold static in Hs1; congruence).
  rewrite Ews.
  assert (Hwm : writebufsize f mod writesize f = 0) by (apply pow2_divides; auto).
  assert (Hbs : buf_addr_base f mod writesize f = 0).
  { apply mod0_trans with (b := writebufsize f); auto; lia. }
  rewrite (align_down_is_pow2 (buf_addr_low f) (writesize f)) by (auto; lia).
  pose proof (Z.mod_pos_bound (buf_addr_low f) (writesize f) ltac:(lia)) as Hmb.
  pose proof (align_down_ge (buf_addr_base f) (buf_addr_low f) (writesize f)
                ltac:(lia) Hbs Hbl) as Hge.
  rewrite <- (covering_blocks_aligned (buf_addr_low f) (buf_addr_high f) (writesize f))
    by lia.
  set (aligned := buf_addr_low f - buf_addr_low f mod writesize f) in *.
  assert (Ham : aligned mod writesize f = 0).
  { unfold aligned. rewrite Zminus_mod_idemp_r. rewrite Z.sub_diag. apply Z.mod_0_l. lia. }
  rewrite (wrap32_small (aligned - buf_addr_base f)) by lia.
  rewrite (wrap32_small (buf_addr_high f - aligned)) by lia.
  destruct (flush_loop_calls p f1 b (buf_addr_base f))
    with (fuel := fuel) (aligned := aligned) (len := buf_addr_high f - aligned)
         (ret := true) (w := w1)
    as (r & w' & d & Hrun & Ht & Hc); rewrite ?Ews, ?Ewb; auto; try lia.
  - rewrite Z.add_mod, Hbs, Hwm by lia. reflexivity.
  - apply aligned_step; auto; try lia. now apply pow2_divides_top.
  - rewrite Ews in Hc. rewrite Hrun.
    exists r, (set_buf_addr f1 4294967295 4294967295 0), w', (d ++ dp ++ [mk]).
    split; [reflexivity|]. split.
    + rewrite Ht, Htp. cbn [trace emit]. rewrite <- !app_assoc. reflexivity.
    + rewrite !rev_app_distr, !write_calls_app, Hc.
      assert (Hn : write_calls (rev dp) = []).
      { clear -Hdp. induction dp as [|e dp IH]; [reflexivity|].
        simpl in Hdp. apply andb_prop in Hdp. destruct Hdp as [He Hd].
        simpl. rewrite write_calls_app, (IH Hd). destruct e; try discriminate. reflexivity. }
      rewrite Hn. reflexivity.
Qed.

(** X8: the flush of an active buffer segment calls the write primitive
    once for each [writesize]-aligned block meeting the dirty range
    [buf_addr_low, buf_addr_high), in ascending order and for no other
    address, handing it the [writesize] bytes the scratch buffer holds for
    that block. *)
Theorem flash_buffered_flush_writes_dirty_blocks (fuel p : nat) f w (b : list byte) :
  buf f = Some b ->
  Z.of_nat (List.length b) = writebufsize f ->
  is_pow2 (writesize f) = true -> is_pow2 (writebufsize f) = true ->
  writesize f <= writebufsize f ->
  buf_addr_base f mod writebufsize f = 0 ->
  0 <= buf_addr_base f <= buf_addr_low f ->
  buf_addr_low f < buf_addr_high f ->
  buf_addr_high f <= buf_addr_base f + writebufsize f ->
  buf_addr_high f <= UINT32_MAX ->
  ready f = true \/ prepare_succeeds f ->
  (Z.to_nat (writebufsize f) <= fuel)%nat ->
  exists r f' w' new,
    flash_buffered_flush fuel p f w = Some (r, f', w')
    /\ trace w' = new ++ trace w
    /\ write_calls (rev new)
       = map (fun a => (p, a, buffer_span b (buf_addr_base f) a (writesize f)))
             (covering_blocks (buf_addr_low f) (buf_addr_high f - buf_addr_low f)
                              (writesize f))
    /\ NoDup (covering_blocks (buf_addr_low f) (buf_addr_high f - buf_addr_low f)
                              (writesize f))
    /\ (forall a, In a (covering_blocks (buf_addr_low f) (buf_addr_high f - buf_addr_low f)
                                        (writesize f)) <->
                  a mod writesize f = 0 /\ a < buf_addr_high f
                  /\ buf_addr_low f < a + writesize f).
Proof.
  intros Hb Hlen Hps Hpw Hle Hbm Hbl Hlh Hhb Hhm Hprep Hfuel.
  destruct (flash_buffered_flush_calls fuel p f w b Hb Hlen Hps Hpw Hle Hbm Hbl Hlh Hhb Hhm
              Hprep Hfuel) as (r & f' & w' & new & Hrun & Ht & Hc).
  pose proof (is_pow2_range _ Hps) as Hsr.
  exists r, f', w', new. split; [exact Hrun|]. split; [exact Ht|]. split; [exact Hc|].
  split; [apply covering_blocks_NoDup; lia|].
  intros a. rewrite covering_blocks_spec by lia.
  replace (buf_addr_low f + (buf_addr_high f - buf_addr_low f)) with (buf_addr_high f) by lia.
  reflexivity.
Qed.

End Flush.

(** ** Every buffered byte reaches the write primitive *)

Lemma delivered_app_l (p : nat) (d h : list event) (x : Z) (v : byte) :
  delivered p h x v -> delivered p (d ++ h) x v.
Proof.
  intros (a & data & n & rc & Hin & Hr & Hv). exists a, data, n, rc.
  split; [apply in_or_app; right; exact Hin|auto].
Qed.

Lemma delivered_app_r (p : nat) (d h : list event) (x : Z) (v : byte) :
  delivered p d x v -> delivered p (d ++ h) x v.
Proof.
  intros (a & data & n & rc & Hin & Hr & Hv). exists a, data, n, rc.
  split; [apply in_or_app; left; exact Hin|auto].
Qed.

Lemma due_untouched (q : nat) (d h : list event) (x : Z) (v : byte) :
  untouched q d -> due q h x v -> due q (d ++ h) x v.
Proof.
  intros Hu [Hp|Hd].
  - left. rewrite pending_untouched; auto.
  - right. apply delivered_app_l. exact Hd.
Qed.

Lemma due_flushed (q : nat) (d h : list event) (x : Z) (v : byte) :
  (forall y u, pending q h y = Some u -> delivered q d y u) ->
  due q h x v -> delivered q (d ++ h) x v.
Proof.
  intros Hf [Hp|Hd].
  - apply delivered_app_r. auto.
  - apply delivered_app_l. exact Hd.
Qed.

Lemma due_copy_other (p q : nat) (dest : Z) (chunk : list byte) (h : list event)
    (x : Z) (v : byte) :
  q <> p \/ ~ (dest <= x < dest + Z.of_nat (List.length chunk)) ->
  due q h x v -> due q (EvCopy p dest chunk :: h) x v.
Proof.
  intros Hc [Hp|Hd].
  - left. simpl. destruct (Nat.eqb_spec p q) as [E|E]; cbn [andb]; [|exact Hp].
    destruct Hc as [Hc|Hc]; [congruence|].
    destruct (Z.leb_spec dest x); cbn [andb]; [|exact Hp].
    destruct (Z.ltb_spec x (dest + Z.of_nat (List.length chunk))); [lia|exact Hp].
  - right. apply (delivered_app_l q [EvCopy p dest chunk]). exact Hd.
Qed.

Lemma due_copy_new (p : nat) (dest : Z) (chunk : list byte) (h : list event)
    (k : Z) (v : byte) :
  0 <= k < Z.of_nat (List.length chunk) ->
  nth_error chunk (Z.to_nat k) = Some v ->
  due p (EvCopy p dest chunk :: h) (dest + k) v.
Proof.
  intros Hk Hv. left. simpl. rewrite Nat.eqb_refl. cbn [andb].
  destruct (Z.leb_spec dest (dest + k)); [|lia]. cbn [andb].
  destruct (Z.ltb_spec (dest + k) (dest + Z.of_nat (List.length chunk))); [|lia].
  replace (dest + k - dest) with k by lia. exact Hv.
Qed.

Lemma buffer_span_nth (b : list byte) (base a n k : Z) (er : byte) :
  0 <= a - base -> 0 <= k < n -> a - base + n <= Z.of_nat (List.length b) ->
  nth_error (buffer_span b base a n) (Z.to_nat k)
  = Some (nth (Z.to_nat (a - base + k)) b er)
  /\ Z.of_nat (List.length (buffer_span b base a n)) = n.
Proof.
  intros Ha Hk Hb. unfold buffer_span.
  assert (Hl : List.length (firstn (Z.to_nat n) (skipn (Z.to_nat (a - base)) b))
               = Z.to_nat n).
  { rewrite length_firstn, length_skipn. lia. }
  split; [|lia].
  rewrite (nth_error_nth' _ er) by lia. f_equal.
  rewrite nth_firstn.
  replace (Z.to_nat k <? Z.to_nat n)%nat with true by (symmetry; apply Nat.ltb_lt; lia).
  rewrite nth_skipn. f_equal. lia.
Qed.

Lemma holds_same_regions {D : Type} (l l' : list (@target_flash D)) (p : nat) (x : Z) :
  same_regions l l' -> holds l' p x -> holds l p x.
Proof.
  unfold same_regions, holds, in_region. intros H. revert p.
  induction H as [|f f' l l' Hs _ IH]; intros [|p] (g & Hn & Hr); simpl in *;
    try discriminate.
  - inversion Hn; subst. exists f. split; [reflexivity|].
    unfold static in Hs. inversion Hs. congruence.
  - apply IH. exists g. auto.
Qed.

Section Delivery.

Context {D : Type}.
Variable malloc : D -> Z -> D * option (nat -> byte).
Variable target_reset : D -> D.
Variable geom : nat -> option (Z * byte).
Implicit Types (t : @target D) (w : @world D) (f : @target_flash D).

(** A flush hands every buffered byte to the write primitive. *)
Lemma flash_buffered_flush_delivers fuel p f w (hist : list event) r f' w' :
  region_ok f ->
  seg_inv p f hist ->
  (Z.to_nat (writebufsize f) <= fuel)%nat ->
  flash_buffered_flush fuel p f w = Some (r, f', w') ->
  exists d, trace w' = d ++ trace w
            /\ forall x v, pending p hist x = Some v -> delivered p d x v.
Proof.
  intros (Hpw & Hps & Hle & Hprep) Hinv Hfuel Hrun.
  assert (Hnone : (forall x, pending p hist x = None) ->
                  exists d, trace w' = d ++ trace w
                            /\ forall x v, pending p hist x = Some v -> delivered p d x v).
  { intros Hn.
    destruct (flash_buffered_flush_quiet fuel p f w r f' w' Hrun) as (d & Ht & _).
    exists (d ++ [CallFlush p (buf_addr_low f) (buf_addr_high f)]). split.
    - rewrite Ht, <- app_assoc. reflexivity.
    - intros x v Hp. rewrite Hn in Hp. discriminate. }
  unfold seg_inv in Hinv. destruct (buf f) as [b|] eqn:Hb; [|auto].
  destruct Hinv as [Hlen [(_ & _ & _ & Hn) | (A1 & A2 & A3 & A4 & A5 & A6 & A7 & A8)]];
    [auto|].
  pose proof (is_pow2_range _ Hpw) as Hwr. pose proof (is_pow2_range _ Hps) as Hsr.
  destruct (flash_buffered_flush_calls fuel p f w b Hb Hlen Hps Hpw Hle A2
              (conj A1 A3) A4 A5 A6 (or_intror Hprep) Hfuel)
    as (r0 & f0 & w0 & new & Hrun0 & Ht0 & Hc).
  rewrite Hrun in Hrun0. inversion Hrun0; subst r0 f0 w0.
  exists new. split; [exact Ht0|]. intros x v Hp.
  assert (Hx : buf_addr_low f <= x < buf_addr_high f) by (apply A7; congruence).
  assert (Hwm : writebufsize f mod writesize f = 0) by (apply pow2_divides; auto).
  assert (Hbs : buf_addr_base f mod writesize f = 0).
  { apply mod0_trans with (b := writebufsize f); auto; lia. }
  pose proof (Z.mod_pos_bound x (writesize f) ltac:(lia)) as Hmb.
  set (a := x - x mod writesize f).
  assert (Ham : a mod writesize f = 0).
  { unfold a. rewrite Zminus_mod_idemp_r. rewrite Z.sub_diag. apply Z.mod_0_l. lia. }
  assert (Hge : buf_addr_base f <= a).
  { apply align_down_ge; auto; lia. }
  assert (Hae : a + writesize f <= buf_addr_base f + writebufsize f).
  { apply aligned_step; auto; try lia.
    rewrite Z.add_mod, Hbs, Hwm by lia. reflexivity. }
  assert (Hin : In a (covering_blocks (buf_addr_low f) (buf_addr_high f - buf_addr_low f)
                                      (writesize f))).
  { apply covering_blocks_spec; try lia. }
  apply (in_map (fun a => (p, a, buffer_span b (buf_addr_base f) a (writesize f)))) in Hin.
  rewrite <- Hc in Hin. apply write_calls_In in Hin. destruct Hin as (n & rc & Hin).
  apply in_rev in Hin.
  destruct (buffer_span_nth b (buf_addr_base f) a (writesize f) (x - a) (erased f))
    as [Hnth Hl]; try lia.
  exists a, (buffer_span b (buf_addr_base f) a (writesize f)), n, rc.
  split; [exact Hin|]. split; [lia|].
  rewrite Hnth. rewrite A8 by lia.
  replace (buf_addr_base f + (a - buf_addr_base f + (x - a))) with x by lia.
  rewrite Hp. reflexivity.
Qed.

Lemma flush_done_body_delivers fuel p f w (hist : list event) r f' w' :
  reg_inv geom fuel p f hist ->
  flush_done_body fuel p f w = Some (r, f', w') ->
  exists d, trace w' = d ++ trace w
            /\ forall x v, due p hist x v -> delivered p (d ++ hist) x v.
Proof.
  intros (Hok & Hgeom & Hf0 & Hinv) Hrun. unfold flush_done_body in Hrun.
  destruct (flash_buffered_flush fuel p f w) as [[[r1 f1] w1]|] eqn:Hf; [|discriminate].
  destruct (flash_buffered_flush_delivers fuel p f w hist r1 f1 w1 Hok Hinv Hf0 Hf)
    as (d1 & Ht1 & Hd1).
  destruct (flash_done_effect p f1 w1) as (dd & Htd & _).
  destruct (flash_done p f1 w1) as [[r2 f2] w2]. cbn [fst snd] in Htd.
  inversion Hrun; subst. exists (dd ++ d1). split.
  - rewrite Htd, Ht1. apply app_assoc.
  - intros x v Hdue. rewrite <- app_assoc. apply delivered_app_l.
    apply due_flushed; auto.
Qed.

(** The walk over the flash chain: what was accounted for stays so, and
    the regions visited are left with everything delivered. *)
Lemma for_each_flash_delivers fuel (except : option nat) (l : list (@target_flash D)) :
  forall k ret w (hist : list event) r l' w',
    (forall i g, nth_error l i = Some g -> except <> Some (k + i)%nat ->
                 reg_inv geom fuel (k + i) g hist) ->
    for_each_flash (flush_done_body fuel) except k l ret w = Some (r, l', w') ->
    exists d,
      trace w' = d ++ trace w
      /\ (forall q x v, due q hist x v -> due q (d ++ hist) x v)
      /\ (forall i g, nth_error l i = Some g -> except <> Some (k + i)%nat ->
                      forall x v, due (k + i) hist x v -> delivered (k + i) (d ++ hist) x v).
Proof.
  induction l as [|f l IH]; intros k ret w hist r l' w' Hinv Hrun; simpl in Hrun.
  - inversion Hrun; subst. exists []. split; [reflexivity|]. split; [auto|].
    intros [|i] g Hn; discriminate.
  - destruct (match except with Some q => Nat.eqb k q | None => false end) eqn:Hskip.
    + assert (Hex : except = Some k).
      { destruct except as [q|]; [|discriminate]. apply Nat.eqb_eq in Hskip. congruence. }
      destruct (for_each_flash (flush_done_body fuel) except (S k) l ret w)
        as [[[r0 l0] w0]|] eqn:Hr; [|discriminate].
      inversion Hrun; subst r0 l' w0. clear Hrun.
      destruct (IH (S k) ret w hist r l0 w') as (d & Ht & Hk & Hv); [|exact Hr|].
      { intros i g Hn Hne. replace (S k + i)%nat with (k + S i)%nat by lia.
        apply Hinv; [exact Hn|]. replace (k + S i)%nat with (S k + i)%nat by lia.
        exact Hne. }
      exists d. split; [exact Ht|]. split; [exact Hk|].
      intros [|i] g Hn Hne x v Hdue.
      * exfalso. apply Hne. rewrite Nat.add_0_r. exact Hex.
      * replace (k + S i)%nat with (S k + i)%nat in * by lia. eapply Hv; eauto.
    + assert (Hex : except <> Some k).
      { destruct except as [q|]; [|discriminate]. apply Nat.eqb_neq in Hskip. congruence. }
      assert (Hreg : reg_inv geom fuel k f hist).
      { replace k with (k + 0)%nat by lia. apply Hinv; [reflexivity|].
        rewrite Nat.add_0_r. exact Hex. }
      destruct (flush_done_body_ok geom fuel k f w hist Hreg)
        as (r1 & f1 & w1 & d1 & Hrun1 & Ht1 & Hi1 & Hu1 & _).
      destruct (flush_done_body_delivers fuel k f w hist r1 f1 w1 Hreg Hrun1)
        as (d1' & Ht1' & Hd1).
      assert (d1' = d1).
      { apply (app_inv_tail (trace w)). congruence. }
      subst d1'. rewrite Hrun1 in Hrun.
      destruct (for_each_flash (flush_done_body fuel) except (S k) l (ret && r1) w1)
        as [[[r0 l0] w0]|] eqn:Hr; [|discriminate].
      inversion Hrun; subst r0 l' w0. clear Hrun.
      destruct (IH (S k) (ret && r1) w1 (d1 ++ hist) r l0 w') as (d & Ht & Hk & Hv);
        [|exact Hr|].
      { intros i g Hn Hne. replace (S k + i)%nat with (k + S i)%nat in * by lia.
        destruct (Hinv (S i) g Hn Hne) as (A1 & A2 & A3 & A4).
        unfold reg_inv. split; [exact A1|]. split; [exact A2|]. split; [exact A3|].
        apply seg_inv_untouched; [apply Hu1; lia|exact A4]. }
      assert (Hkeep : forall q x v, due q hist x v -> due q (d1 ++ hist) x v).
      { intros q x v Hdue. destruct (Nat.eq_dec q k) as [->|Hne].
        - right. apply Hd1. exact Hdue.
        - apply due_untouched; [apply Hu1; exact Hne|exact Hdue]. }
      exists (d ++ d1). split; [rewrite Ht, Ht1; apply app_assoc|]. split.
      * intros q x v Hdue. rewrite <- app_assoc. apply Hk, Hkeep, Hdue.
      * intros [|i] g Hn Hne x v Hdue; rewrite <- app_assoc.
        -- rewrite Nat.add_0_r in *. apply delivered_app_l. apply Hd1. exact Hdue.
        -- replace (k + S i)%nat with (S k + i)%nat in * by lia.
           eapply Hv; eauto.
Qed.

Lemma buffer_setup_keeps fuel0 p f (dest : Z) (ret : bool) w (hist : list event)
    ret1 f1 w1 :
  region_ok f ->
  seg_inv p f hist ->
  (Z.to_nat (writebufsize f) <= fuel0)%nat ->
  buffer_setup fuel0 p f dest ret w = Some (ret1, f1, w1) ->
  exists d1, trace w1 = d1 ++ trace w
             /\ forall x v, due p hist x v -> due p (d1 ++ hist) x v.
Proof.
  intros Hok Hinv Hf0 Hrun. unfold buffer_setup in Hrun. destruct (negb _).
  - destruct (flash_buffered_flush fuel0 p f w) as [[[r0 f0] w0]|] eqn:Hf; [|discriminate].
    destruct (buf f0) as [b0|]; [|discriminate].
    destruct (memset _ _ _); [|discriminate].
    inversion Hrun; subst.
    destruct (flash_buffered_flush_delivers fuel0 p f w hist r0 f0 w1 Hok Hinv Hf0 Hf)
      as (d & Ht & Hd).
    exists d. split; [exact Ht|]. intros x v Hdue. right. apply due_flushed; auto.
  - inversion Hrun; subst. exists []. split; [reflexivity|]. auto.
Qed.

Lemma buffered_write_loop_due fuel0 p :
  forall fuel f (dest : Z) (src : list byte) (len : Z) (ret : bool) w (hist : list event)
         r f' w',
    region_ok f ->
    geom p = Some (writesize f, erased f) ->
    seg_inv p f hist -> buf f <> None ->
    0 <= dest -> 0 <= len -> dest + len <= UINT32_MAX ->
    len <= Z.of_nat (List.length src) ->
    (Z.to_nat (writebufsize f) <= fuel0)%nat ->
    buffered_write_loop fuel0 fuel p f dest src len ret w = Some (r, f', w') ->
    exists d,
      trace w' = d ++ trace w
      /\ (forall q x v, due q hist x v -> (q = p -> ~ (dest <= x < dest + len)) ->
                        due q (d ++ hist) x v)
      /\ (forall k v, 0 <= k < len -> nth_error src (Z.to_nat k) = Some v ->
                      due p (d ++ hist) (dest + k) v).
Proof.
  induction fuel as [|fuel IH];
    intros f dest src len ret w hist r f' w' Hok Hgeom Hinv Hbuf Hd Hl Htop Hsrc Hf0 Hrun.
  - simpl in Hrun. destruct (Z.eqb_spec len 0) as [->|Hne]; [|discriminate].
    inversion Hrun; subst. exists []. split; [reflexivity|]. split; [auto|]. intros; lia.
  - destruct (Z.eqb_spec len 0) as [->|Hne].
    { simpl in Hrun. inversion Hrun; subst. exists []. split; [reflexivity|].
      split; [auto|]. intros; lia. }
    pose proof Hok as (Hpw & Hps & Hle & Hprep).
    pose proof (is_pow2_range _ Hpw) as Hwr.
    simpl buffered_write_loop in Hrun. rewrite (proj2 (Z.eqb_neq len 0) Hne) in Hrun.
    rewrite (proj2 (Z.eqb_neq (writebufsize f) 0)) in Hrun by lia.
    unfold UINT32_MAX in *.
    destruct (buffer_setup_ok geom fuel0 p f dest ret w hist Hok Hgeom Hinv Hbuf
                ltac:(unfold UINT32_MAX; lia) Hf0)
      as (ret1 & f1 & w1 & d1 & b1 & Hrun1 & Ht1 & Hs1 & Hb1 & Hlen1 & Hbase1 & Hlh1 & Hr1
          & Hbuf1 & Hun1 & Hnc1 & Hwo1).
    destruct (buffer_setup_keeps fuel0 p f dest ret w hist ret1 f1 w1 Hok Hinv Hf0 Hrun1)
      as (d1' & Ht1' & Hk1).
    assert (d1' = d1) by (apply (app_inv_tail (trace w)); congruence). subst d1'.
    rewrite Hrun1 in Hrun.
    assert (Ewb : writebufsize f1 = writebufsize f) by (unfold static in Hs1; congruence).
    assert (Eer : erased f1 = erased f) by (unfold static in Hs1; congruence).
    assert (Ews : writesize f1 = writesize f) by (unfold static in Hs1; congruence).
    unfold chunk_len, chunk_offset in Hrun. rewrite Ewb in Hrun.
    pose proof (Z.mod_pos_bound dest (writebufsize f) ltac:(lia)) as Hm.
    rewrite (wrap32_small (writebufsize f - dest mod writebufsize f)) in Hrun by lia.
    set (ll := Z.min (writebufsize f - dest mod writebufsize f) len) in *.
    assert (Hll : 0 < ll <= len) by (unfold ll; lia).
    replace (Z.of_nat (List.length src) <? ll) with false in Hrun
      by (symmetry; apply Z.ltb_ge; lia).
    rewrite Hb1 in Hrun.
    set (chunk := firstn (Z.to_nat ll) src) in *.
    assert (Hcl : Z.of_nat (List.length chunk) = ll).
    { unfold chunk. rewrite firstn_length_le by lia. lia. }
    destruct (copy_step p f1 b1 (d1 ++ hist) dest chunk)
      as (b2 & Hcp & Hinv2); rewrite ?Ewb, ?Eer; auto; unfold UINT32_MAX; try lia.
    rewrite Ewb in Hcp. rewrite Hcp in Hrun.
    rewrite (wrap32_small (dest + ll)) in Hrun by lia.
    rewrite Hcl in Hinv2.
    set (f2 := set_buf (set_buf_addr f1 (buf_addr_base f1) (Z.min (buf_addr_low f1) dest)
                          (Z.max (buf_addr_high f1) (dest + ll))) (Some b2)) in *.
    assert (Hs2 : static f2 = static f) by (rewrite <- Hs1; reflexivity).
    destruct (IH f2 (dest + ll) (skipn (Z.to_nat ll) src) (len - ll) ret1
                 (emit (EvCopy p dest chunk) w1) (EvCopy p dest chunk :: d1 ++ hist)
                 r f' w')
      as (d & Ht & Hk & Hn); unfold UINT32_MAX; try lia; try exact Hrun.
    + eapply region_ok_static; eauto.
    + replace (writesize f2) with (writesize f) by (unfold static in Hs2; congruence).
      replace (erased f2) with (erased f) by (unfold static in Hs2; congruence).
      exact Hgeom.
    + exact Hinv2.
    + unfold f2. cbn. discriminate.
    + rewrite length_skipn. lia.
    + replace (writebufsize f2) with (writebufsize f) by (unfold static in Hs2; congruence).
      exact Hf0.
    + exists (d ++ EvCopy p dest chunk :: d1). split; [|split].
      * rewrite Ht. cbn [trace emit]. rewrite Ht1, <- app_assoc. reflexivity.
      * intros q x v Hdue Hout. rewrite <- app_assoc. cbn [app]. apply Hk.
        -- apply due_copy_other.
           ++ destruct (Nat.eq_dec q p) as [E|E]; [right|left; exact E].
              specialize (Hout E). lia.
           ++ destruct (Nat.eq_dec q p) as [->|E]; [apply Hk1; exact Hdue|].
              apply due_untouched; [apply Hun1; exact E|exact Hdue].
        -- intros E. specialize (Hout E). lia.
      * intros k v Hkr Hv. rewrite <- app_assoc. cbn [app].
        destruct (Z.lt_ge_cases k ll) as [Hlt|Hge].
        -- apply Hk; [|intros _; lia].
           apply due_copy_new; [lia|]. unfold chunk. rewrite nth_error_firstn.
           replace (Z.to_nat k <? Z.to_nat ll)%nat with true
             by (symmetry; apply Nat.ltb_lt; lia).
           exact Hv.
        -- replace (dest + k) with (dest + ll + (k - ll)) by lia.
           apply Hn; [lia|]. rewrite nth_error_skipn.
           replace (Z.to_nat ll + Z.to_nat (k - ll))%nat with (Z.to_nat k) by lia.
           exact Hv.
Qed.

Lemma flash_buffered_write_due fuel p f (dest : Z) (src : list byte) (len : Z) w
    (hist : list event) r f' w' :
  malloc_succeeds malloc ->
  reg_inv geom fuel p f hist ->
  0 <= dest -> 0 <= len -> dest + len <= UINT32_MAX ->
  len <= Z.of_nat (List.length src) ->
  flash_buffered_write malloc fuel p f dest src len w = Some (r, f', w') ->
  exists d,
    trace w' = d ++ trace w
    /\ (forall q x v, due q hist x v -> (q = p -> ~ (dest <= x < dest + len)) ->
                      due q (d ++ hist) x v)
    /\ (forall k v, 0 <= k < len -> nth_error src (Z.to_nat k) = Some v ->
                    due p (d ++ hist) (dest + k) v).
Proof.
  intros Hmal (Hok & Hgeom & Hf0 & Hinv) Hd Hl Htop Hsrc Hrun.
  unfold flash_buffered_write in Hrun.
  set (mk := CallBufferedWrite p dest len) in *.
  destruct (buf f) as [b|] eqn:Hb.
  - destruct (buffered_write_loop_due fuel p fuel f dest src len true (emit mk w)
                (mk :: hist) r f' w') as (d & Ht & Hk & Hn); auto; try congruence.
    exists (d ++ [mk]). split; [|split].
    + rewrite Ht, <- app_assoc. reflexivity.
    + intros q x v Hdue Hout. rewrite <- app_assoc. apply Hk; [|exact Hout].
      apply (due_untouched q [mk]); [reflexivity|exact Hdue].
    + intros k v Hkr Hv. rewrite <- app_assoc. apply Hn; auto.
  - unfold call in Hrun. cbn [dev emit] in Hrun.
    pose proof (Hmal (dev w) (writebufsize f)) as Hm.
    destruct (malloc (dev w) (writebufsize f)) as [d0 [init|]]; [|simpl in Hm; congruence].
    set (me := EvMalloc p (writebufsize f) true) in *.
    set (b := map init (seq 0 (Z.to_nat (writebufsize f)))) in *.
    set (f1 := set_buf (set_buf_addr f UINT32_MAX UINT32_MAX 0) (Some b)) in *.
    pose proof (is_pow2_range _ (proj1 Hok)) as Hwr.
    destruct (buffered_write_loop_due fuel p fuel f1 dest src len true
                {| dev := d0; trace := me :: mk :: trace w |} (me :: mk :: hist) r f' w')
      as (d & Ht & Hk & Hn); auto; try (unfold f1; cbn; discriminate).
    { unfold seg_inv, f1. cbn [buf set_buf]. split.
      - unfold b. rewrite length_map, length_seq. cbn. lia.
      - left. unfold seg_idle. cbn. repeat split; auto.
        unfold seg_inv in Hinv. rewrite Hb in Hinv. exact Hinv. }
    exists (d ++ [me; mk]). split; [|split].
    + rewrite Ht, <- app_assoc. reflexivity.
    + intros q x v Hdue Hout. rewrite <- app_assoc. apply Hk; [|exact Hout].
      apply (due_untouched q [me; mk]); [reflexivity|exact Hdue].
    + intros k v Hkr Hv. rewrite <- app_assoc. apply Hn; auto.
Qed.

Lemma write_loop_due fuel0 :
  malloc_succeeds malloc ->
  forall fuel t (dest : Z) (src : list byte) (len : Z) (ret : bool) w (hist : list event)
         r t' w',
    (forall i g, nth_error (flash t) i = Some g -> reg_inv geom fuel0 i g hist) ->
    0 <= dest -> 0 <= len -> dest + len <= UINT32_MAX ->
    len <= Z.of_nat (List.length src) ->
    (Z.to_nat len <= fuel0)%nat ->
    (forall k, 0 <= k < len -> target_flash_for_addr t (dest + k) <> None) ->
    write_loop malloc fuel0 fuel t dest src len ret w = Some (r, t', w') ->
    tracks (fun _ => true) ret r (trace w) (trace w')
    /\ exists d,
      trace w' = d ++ trace w
      /\ (forall q x v, due q hist x v -> ~ (dest <= x < dest + len) ->
                        due q (d ++ hist) x v)
      /\ (forall k v, 0 <= k < len -> nth_error src (Z.to_nat k) = Some v ->
                      exists p, holds (flash t) p (dest + k)
                                /\ due p (d ++ hist) (dest + k) v).
Proof.
  intros Hmal.
  induction fuel as [|fuel IH];
    intros t dest src len ret w hist r t' w' Hinv Hd Hl Htop Hsrc Hfuel0 Hown Hrun.
  - simpl in Hrun. destruct (Z.eqb_spec len 0) as [->|Hne]; [|discriminate].
    inversion Hrun; subst. split; [apply tracks_refl|].
    exists []. split; [reflexivity|]. split; [auto|]. intros; lia.
  - destruct (Z.eqb_spec len 0) as [->|Hne].
    { simpl in Hrun. inversion Hrun; subst. split; [apply tracks_refl|].
      exists []. split; [reflexivity|]. split; [auto|]. intros; lia. }
    simpl write_loop in Hrun. rewrite (proj2 (Z.eqb_neq len 0) Hne) in Hrun.
    destruct (target_flash_for_addr t dest) as [p|] eqn:Hfind.
    2:{ exfalso. apply (Hown 0); [lia|]. rewrite Z.add_0_r. exact Hfind. }
    unfold target_flash_for_addr in Hfind.
    destruct (flash_for_addr_Some _ _ _ _ Hfind) as (i & f & Ep & Hnth & Hrange).
    simpl in Ep. subst i.
    destruct (flush_done_others_ok geom fuel0 p (flash t) 0 ret w hist)
      as (r1 & l1 & w1 & d1 & Hrun1 & Ht1 & Hsk & Hin & Hno & Hun & Hnc1 & Hwo1).
    { intros i g Hn _. apply Hinv. exact Hn. }
    destruct (for_each_flash_delivers fuel0 (Some p) (flash t) 0 ret w hist r1 l1 w1)
      as (d1' & Ht1' & Hk1 & _); [|exact Hrun1|].
    { intros i g Hn _. apply Hinv. exact Hn. }
    assert (d1' = d1) by (apply (app_inv_tail (trace w)); congruence). subst d1'.
    pose proof (for_each_flash_same (flush_done_body fuel0) (Some p)
                  (flush_done_body_static fuel0) _ _ _ _ _ _ _ Hrun1) as Hsame1.
    pose proof (for_each_flash_result _ _ _ _ _ _ _ _ _ Hrun1) as Hres1.
    rewrite Hrun1 in Hrun. rewrite (Hsk p eq_refl), Hnth in Hrun.
    pose proof (wrap32_range (start f + length f)) as Hfe.
    set (flash_end := wrap32 (start f + length f)) in *.
    unfold UINT32_MAX in *.
    rewrite (wrap32_small (dest + len)) in Hrun by lia.
    set (local_end := Z.min (dest + len) flash_end) in *.
    assert (Hle : dest < local_end <= dest + len) by (unfold local_end; lia).
    rewrite (wrap32_small (local_end - dest)) in Hrun by lia.
    set (ll := local_end - dest) in *.
    rewrite (wrap32_small (len - ll)) in Hrun by (unfold ll; lia).
    assert (Hreg : reg_inv geom fuel0 p f (d1 ++ hist)).
    { destruct (Hinv p f Hnth) as (A1 & A2 & A3 & A4). unfold reg_inv.
      split; [exact A1|]. split; [exact A2|]. split; [exact A3|].
      apply seg_inv_untouched; [apply Hun; lia|exact A4]. }
    assert (Hnth1 : nth_error l1 p = Some f) by (rewrite (Hsk p eq_refl); exact Hnth).
    assert (Hcont : forall fX wX dp retX,
               trace wX = dp ++ trace w1 ->
               reg_inv geom fuel0 p fX (dp ++ d1 ++ hist) ->
               static fX = static f ->
               (forall q, q <> p -> untouched q dp) ->
               (forall q x v, due q (d1 ++ hist) x v -> ~ (dest <= x < local_end) ->
                              due q (dp ++ d1 ++ hist) x v) ->
               (forall k v, 0 <= k < ll -> nth_error src (Z.to_nat k) = Some v ->
                            due p (dp ++ d1 ++ hist) (dest + k) v) ->
               tracks (fun _ => true) r1 retX (trace w1) (trace wX) ->
               write_loop malloc fuel0 fuel (set_flash t (store p fX l1)) local_end
                          (skipn (Z.to_nat ll) src) (len - ll) retX wX = Some (r, t', w') ->
               tracks (fun _ => true) ret r (trace w) (trace w')
               /\ exists d,
                 trace w' = d ++ trace w
                 /\ (forall q x v, due q hist x v -> ~ (dest <= x < dest + len) ->
                                   due q (d ++ hist) x v)
                 /\ (forall k v, 0 <= k < len -> nth_error src (Z.to_nat k) = Some v ->
                                 exists p, holds (flash t) p (dest + k)
                                           /\ due p (d ++ hist) (dest + k) v)).
    { intros fX wX dp retX HtX HrX HsX HuX HkX HnX HresX HrunX.
      assert (Hsame : same_regions (flash t) (store p fX l1)).
      { eapply same_regions_store; eauto. }
      destruct (IH (set_flash t (store p fX l1)) local_end (skipn (Z.to_nat ll) src)
                   (len - ll) retX wX (dp ++ d1 ++ hist) r t' w')
        as (Hres & d & Ht & Hk & Hn);
        unfold UINT32_MAX; try (unfold ll in *; lia); try exact HrunX.
      - cbn [flash set_flash]. intros i g Hn.
        destruct (store_nth_inv l1 p i fX f g Hnth1 Hn) as [[-> ->] | [Hne' Hn']].
        + exact HrX.
        + destruct (Hin i g Hn' ltac:(simpl; lia)) as (A1 & A2 & A3 & A4).
          unfold reg_inv. split; [exact A1|]. split; [exact A2|]. split; [exact A3|].
          apply seg_inv_untouched; [apply HuX; exact Hne'|exact A4].
      - rewrite length_skipn. unfold ll in *. lia.
      - intros k Hk. unfold target_flash_for_addr. cbn [flash set_flash].
        rewrite (flash_for_addr_static _ _ Hsame).
        replace (local_end + k) with (dest + (ll + k)) by (unfold ll; lia).
        apply Hown. unfold ll in *. lia.
      - split.
        { eapply tracks_trans; [exact Hres1|]. eapply tracks_trans; eauto. }
        exists (d ++ dp ++ d1). split; [|split].
        + rewrite Ht, HtX, Ht1. rewrite <- !app_assoc. reflexivity.
        + intros q x v Hdue Hout. rewrite <- !app_assoc. apply Hk.
          * apply HkX; [apply Hk1; exact Hdue|lia].
          * unfold ll in *. lia.
        + intros k v Hkr Hv. rewrite <- !app_assoc.
          destruct (Z.lt_ge_cases k ll) as [Hlt|Hge].
          * exists p. split.
            -- exists f. split; [exact Hnth|]. unfold in_region.
               fold flash_end. unfold ll, local_end in *. lia.
            -- apply Hk; [apply HnX; [lia|exact Hv]|]. unfold ll in *. lia.
          * destruct (Hn (k - ll) v) as (p' & Hh & Hdue).
            -- unfold ll in *. lia.
            -- rewrite nth_error_skipn.
               replace (Z.to_nat ll + Z.to_nat (k - ll))%nat with (Z.to_nat k)
                 by (unfold ll in *; lia).
               exact Hv.
            -- replace (local_end + (k - ll)) with (dest + k) in * by (unfold ll; lia).
               exists p'. split; [|exact Hdue].
               cbn [flash set_flash] in Hh. eapply holds_same_regions; eauto. }
    destruct (flash_buffered_write_ok malloc geom fuel0 p f dest src ll w1 (d1 ++ hist)
                Hmal Hreg)
      as (r2 & f1 & w2 & d2 & Hrun2 & Ht2 & Hs2 & Hi2 & Hu2 & Hc2 & Hw2);
      unfold UINT32_MAX; try (unfold ll in *; lia).
    destruct (flash_buffered_write_due fuel0 p f dest src ll w1 (d1 ++ hist) r2 f1 w2
                Hmal Hreg)
      as (d2' & Ht2' & Hk2 & Hn2); unfold UINT32_MAX; try (unfold ll in *; lia);
      try exact Hrun2.
    assert (d2' = d2) by (apply (app_inv_tail (trace w1)); congruence). subst d2'.
    pose proof (flash_buffered_write_result _ _ _ _ _ _ _ _ _ _ _ Hrun2) as Hres2.
    rewrite Hrun2 in Hrun.
    assert (Hreg1 : reg_inv geom fuel0 p f1 (d2 ++ d1 ++ hist)).
    { destruct Hreg as (A1 & A2 & A3 & A4). unfold reg_inv.
      split; [eapply region_ok_static; eauto|]. split; [|split; [|exact Hi2]].
      - replace (writesize f1) with (writesize f) by (unfold static in Hs2; congruence).
        replace (erased f1) with (erased f) by (unfold static in Hs2; congruence).
        exact A2.
      - replace (writebufsize f1) with (writebufsize f) by (unfold static in Hs2; congruence).
        exact A3. }
    assert (Hkeep2 : forall q x v, due q (d1 ++ hist) x v -> ~ (dest <= x < local_end) ->
                                   due q (d2 ++ d1 ++ hist) x v).
    { intros q x v Hdue Hout. apply Hk2; [exact Hdue|]. intros _. unfold ll. lia. }
    destruct (Z.eqb_spec local_end flash_end) as [Eend|Eend].
    + destruct (flush_done_body_ok geom fuel0 p f1 w2 (d2 ++ d1 ++ hist) Hreg1)
        as (r3 & f3 & w4 & d3 & Hrun3 & Ht3 & Hi3 & Hu3 & Hn3 & Hw3).
      destruct (flush_done_body_delivers fuel0 p f1 w2 (d2 ++ d1 ++ hist) r3 f3 w4
                  Hreg1 Hrun3) as (d3' & Ht3' & Hd3).
      assert (d3' = d3) by (apply (app_inv_tail (trace w2)); congruence). subst d3'.
      pose proof (flush_done_body_static _ _ _ _ _ _ _ Hrun3) as Hs3.
      pose proof (flush_done_body_result _ _ _ _ _ _ _ Hrun3) as Hres3.
      unfold flush_done_body in Hrun3.
      destruct (flash_buffered_flush fuel0 p f1 w2) as [[[ra fa] wa]|]; [|discriminate].
      destruct (flash_done p fa wa) as [[rb fb] wb]. inversion Hrun3; subst.
      apply (Hcont f3 w4 (d3 ++ d2) (r1 && r2 && ra && rb)).
      * rewrite Ht3, Ht2. apply app_assoc.
      * rewrite <- app_assoc. exact Hi3.
      * congruence.
      * intros q Hq. apply untouched_app; auto.
      * intros q x v Hdue Hout. rewrite <- app_assoc.
        destruct (Nat.eq_dec q p) as [->|Hq].
        -- right. apply Hd3. apply Hkeep2; auto.
        -- apply due_untouched; [apply Hu3; exact Hq|]. apply Hkeep2; auto.
      * intros k v Hkr Hv. rewrite <- app_assoc. right. apply Hd3. apply Hn2; auto.
      * eapply tracks_trans; [apply tracks_and; exact Hres2|].
        replace (r1 && r2 && ra && rb) with (r1 && r2 && (ra && rb))
          by (destruct r1, r2, ra, rb; reflexivity).
        apply tracks_and. exact Hres3.
      * exact Hrun.
    + apply (Hcont f1 w2 d2 (r1 && r2)); auto. apply tracks_and. exact Hres2.
Qed.

Lemma target_flash_write_same fuel t (dest : Z) (src : list byte) (len : Z) w r t' w' :
  target_flash_write malloc target_reset fuel t dest src len w = Some (r, t', w') ->
  same_target t t'.
Proof.
  unfold target_flash_write. intros H.
  pose proof (enter_flash_mode_same target_reset t w) as He.
  destruct (target_enter_flash_mode target_reset t w) as [[ok t1] w1]. cbn [fst snd] in He.
  destruct ok; cbn [negb] in H.
  - apply write_loop_same in H. eapply same_target_trans; eauto.
  - inversion H; subst. exact He.
Qed.

Lemma target_flash_write_flash_mode fuel t (dest : Z) (src : list byte) (len : Z) w
    r t' w' :
  fst (fst (target_enter_flash_mode target_reset t w)) = true ->
  target_flash_write malloc target_reset fuel t dest src len w = Some (r, t', w') ->
  flash_mode t' = true.
Proof.
  unfold target_flash_write. intros Hen H.
  destruct (target_enter_flash_mode target_reset t w) as [[ok t1] w1] eqn:He.
  cbn [fst] in Hen. subst ok. cbn [negb] in H.
  apply write_loop_flash_mode in H. rewrite H.
  eapply enter_flash_mode_true; eauto.
Qed.

Lemma target_flash_write_due fuel t (dest : Z) (src : list byte) w (hist : list event)
    r t' w' :
  malloc_succeeds malloc ->
  (forall i g, nth_error (flash t) i = Some g -> reg_inv geom fuel i g hist) ->
  0 <= dest -> dest + Z.of_nat (List.length src) <= UINT32_MAX ->
  (List.length src <= fuel)%nat ->
  owned t (dest, src) ->
  fst (fst (target_enter_flash_mode target_reset t w)) = true ->
  target_flash_write malloc target_reset fuel t dest src (Z.of_nat (List.length src)) w
  = Some (r, t', w') ->
  tracks (fun _ => true) true r (trace w) (trace w')
  /\ exists d,
    trace w' = d ++ trace w
    /\ (forall q x v, due q hist x v -> ~ (dest <= x < dest + Z.of_nat (List.length src)) ->
                      due q (d ++ hist) x v)
    /\ (forall k v, nth_error src k = Some v ->
                    exists p, holds (flash t) p (dest + Z.of_nat k)
                              /\ due p (d ++ hist) (dest + Z.of_nat k) v).
Proof.
  intros Hmal Hinv Hd Htop Hfuel Hown Hen Hrun. unfold target_flash_write in Hrun.
  destruct (enter_flash_mode_effect target_reset t w) as (d0 & Ht0 & Hfl & Hu0 & _).
  pose proof (enter_flash_mode_result target_reset t w) as Hres0.
  destruct (target_enter_flash_mode target_reset t w) as [[ok t1] w1]. cbn [fst snd] in *.
  subst ok. cbn [negb] in Hrun.
  destruct (write_loop_due fuel Hmal fuel t1 dest src (Z.of_nat (List.length src)) true
              w1 (d0 ++ hist) r t' w') as (Hres & d & Ht & Hk & Hn); try lia; try exact Hrun.
  - rewrite Hfl. intros i g Hn. destruct (Hinv i g Hn) as (A1 & A2 & A3 & A4).
    unfold reg_inv. split; [exact A1|]. split; [exact A2|]. split; [exact A3|].
    apply seg_inv_untouched; auto.
  - intros k Hk. unfold target_flash_for_addr. rewrite Hfl. apply (Hown k). exact Hk.
  - split; [eapply tracks_trans; eauto|].
    exists (d ++ d0). split; [rewrite Ht, Ht0; apply app_assoc|]. split.
    + intros q x v Hdue Hout. rewrite <- app_assoc. apply Hk; [|exact Hout].
      apply due_untouched; auto.
    + intros k v Hv. rewrite <- app_assoc.
      assert (Hlt : (k < List.length src)%nat).
      { apply nth_error_Some. congruence. }
      destruct (Hn (Z.of_nat k) v) as (p & Hh & Hdue); [lia|rewrite Nat2Z.id; exact Hv|].
      exists p. rewrite Hfl in Hh. auto.
Qed.

Lemma for_each_flash_except_out
    (body : nat -> @target_flash D -> @world D -> option (bool * @target_flash D * @world D))
    (p : nat) (l : list (@target_flash D)) :
  forall k ret w,
    (p < k \/ k + List.length l <= p)%nat ->
    for_each_flash body (Some p) k l ret w = for_each_flash body None k l ret w.
Proof.
  induction l as [|f l IH]; intros k ret w Hp; simpl; [reflexivity|].
  simpl in Hp. replace (Nat.eqb k p) with false by (symmetry; apply Nat.eqb_neq; lia).
  destruct (body k f w) as [[[r1 f1] w1]|]; [|reflexivity].
  rewrite IH by lia. reflexivity.
Qed.

(** Completing hands over whatever is still buffered. *)
Lemma target_flash_complete_delivers fuel t w (hist : list event) :
  flash_mode t = true ->
  (forall i g, nth_error (flash t) i = Some g -> reg_inv geom fuel i g hist) ->
  exists r t' w' d,
    target_flash_complete target_reset fuel t w = Some (r, t', w')
    /\ trace w' = d ++ trace w
    /\ r = forallb op_ok d
    /\ forall q x v, holds (flash t) q x -> due q hist x v -> delivered q (d ++ hist) x v.
Proof.
  intros Hm Hinv.
  assert (Hres : forall r t' w' d,
             target_flash_complete target_reset fuel t w = Some (r, t', w') ->
             trace w' = d ++ trace w -> r = forallb op_ok d).
  { intros r t' w' d Hrun Ht.
    destruct (target_flash_complete_result target_reset fuel t w r t' w' Hm Hrun)
      as (d' & Ht' & _ & Hr).
    assert (d' = d) by (apply (app_inv_tail (trace w)); congruence). subst d'. exact Hr. }
  unfold target_flash_complete in *. rewrite Hm in *. cbn [negb] in *.
  destruct (flush_done_others_ok geom fuel (List.length (flash t)) (flash t) 0 true w hist)
    as (r1 & l1 & w1 & d1 & Hrun1 & Ht1 & _).
  { intros i g Hn _. apply Hinv. exact Hn. }
  rewrite for_each_flash_except_out in Hrun1 by (simpl; lia).
  destruct (for_each_flash_delivers fuel None (flash t) 0 true w hist r1 l1 w1)
    as (d1' & Ht1' & _ & Hv); [|exact Hrun1|].
  { intros i g Hn _. apply Hinv. exact Hn. }
  assert (d1' = d1) by (apply (app_inv_tail (trace w)); congruence). subst d1'.
  rewrite Hrun1 in *.
  assert (Hx : exists dx, trace (snd (target_exit_flash_mode target_reset (set_flash t l1) w1))
                          = dx ++ trace w1).
  { unfold target_exit_flash_mode, call. destruct (negb _); [exists []; reflexivity|].
    destruct (exit_flash_mode _) as [h|]; [destruct (h (dev w1)) as [d0 r0]|];
      cbn [snd trace]; eexists [_]; reflexivity. }
  destruct Hx as (dx & Htx).
  destruct (target_exit_flash_mode target_reset (set_flash t l1) w1) as [[x t3] w4].
  cbn [snd] in Htx. exists r1, t3, w4, (dx ++ d1).
  split; [reflexivity|]. split; [rewrite Htx, Ht1; apply app_assoc|].
  split; [apply (Hres r1 t3 w4); [reflexivity|rewrite Htx, Ht1; apply app_assoc]|].
  intros q x0 v (g & Hn & _) Hdue. rewrite <- app_assoc. apply delivered_app_l.
  apply (Hv q g Hn); [discriminate|exact Hdue].
Qed.

Lemma target_flash_write_all_due fuel (reqs : list (Z * list byte)) :
  malloc_succeeds malloc ->
  Forall (fun req => 0 <= fst req
                     /\ fst req + Z.of_nat (List.length (snd req)) <= UINT32_MAX
                     /\ (List.length (snd req) <= fuel)%nat) reqs ->
  forall t w (hist : list event),
    (forall i g, nth_error (flash t) i = Some g -> reg_inv geom fuel i g hist) ->
    Forall (owned t) reqs ->
    fst (fst (target_enter_flash_mode target_reset t w)) = true ->
    exists rs t' w' d,
      target_flash_write_all malloc target_reset fuel t reqs w = Some (rs, t', w')
      /\ trace w' = d ++ trace w
      /\ (forall i g, nth_error (flash t') i = Some g -> reg_inv geom fuel i g (d ++ hist))
      /\ same_target t t'
      /\ (reqs <> [] -> flash_mode t' = true)
      /\ forallb (fun b => b) rs = forallb op_ok d
      /\ (forall q x v, due q hist x v ->
            Forall (fun r => ~ (fst r <= x < fst r + Z.of_nat (List.length (snd r)))) reqs ->
            due q (d ++ hist) x v)
      /\ (disjoint_requests reqs ->
          forall dest src k v,
            In (dest, src) reqs -> nth_error src k = Some v ->
            exists p, holds (flash t) p (dest + Z.of_nat k)
                      /\ due p (d ++ hist) (dest + Z.of_nat k) v).
Proof.
  intros Hmal Hreqs. induction Hreqs as [|[dest src] reqs (Hd & Htop & Hfuel) _ IH];
    intros t w hist Hinv Hown Hen.
  - exists [], t, w, []. split; [reflexivity|]. split; [reflexivity|].
    split; [exact Hinv|]. split.
    { apply same_target_intro; auto using same_regions_refl. }
    split; [congruence|]. split; [reflexivity|]. split; [auto|]. intros _ dest src k v [].
  - cbn [fst snd] in *. simpl target_flash_write_all.
    inversion Hown as [|? ? Hown1 Hownr]; subst.
    destruct (target_flash_write_ok malloc target_reset geom fuel t dest src w hist
                Hmal Hinv Hd Htop Hfuel)
      as (r & t1 & w1 & d1 & Hrun1 & Ht1 & Hi1 & _).
    destruct (target_flash_write_due fuel t dest src w hist r t1 w1
                Hmal Hinv Hd Htop Hfuel Hown1 Hen Hrun1)
      as ((dr & Htr & _ & Hres1) & d1' & Ht1' & Hk1 & Hn1).
    assert (d1' = d1) by (apply (app_inv_tail (trace w)); congruence). subst d1'.
    assert (dr = d1) by (apply (app_inv_tail (trace w)); congruence). subst dr.
    cbn [andb] in Hres1.
    pose proof (target_flash_write_same _ _ _ _ _ _ _ _ _ Hrun1) as Hsame1.
    pose proof (target_flash_write_flash_mode _ _ _ _ _ _ _ _ _ Hen Hrun1) as Hm1.
    rewrite Hrun1.
    destruct (IH t1 w1 (d1 ++ hist) Hi1)
      as (rs & t' & w' & d & Hrun & Ht & Hi & Hsame & _ & Hrs & Hk & Hn).
    { rewrite Forall_forall in *. intros req Hin k Hkr.
      destruct Hsame1 as (_ & _ & _ & Hlook). rewrite Hlook. apply (Hownr req Hin k Hkr). }
    { unfold target_enter_flash_mode. rewrite Hm1. reflexivity. }
    rewrite Hrun. exists (r :: rs), t', w', (d ++ d1).
    split; [reflexivity|]. split; [rewrite Ht, Ht1; apply app_assoc|].
    split; [intros i g Hnth; rewrite <- app_assoc; auto|].
    split; [eapply same_target_trans; eauto|].
    split.
    { intros _. destruct reqs as [|req reqs'].
      - simpl in Hrun. inversion Hrun; subst. exact Hm1.
      - destruct (IH t1 w1 (d1 ++ hist) Hi1) as (rs2 & t2 & w2 & d2 & Hrun' & _ & _ & _
                                                  & Hm2 & _).
        + rewrite Forall_forall in *. intros rq Hin k Hkr.
          destruct Hsame1 as (_ & _ & _ & Hlook). rewrite Hlook. apply (Hownr rq Hin k Hkr).
        + unfold target_enter_flash_mode. rewrite Hm1. reflexivity.
        + rewrite Hrun in Hrun'. inversion Hrun'; subst. apply Hm2. discriminate. }
    split.
    { cbn [forallb]. rewrite forallb_app, Hrs, Hres1. apply andb_comm. }
    split.
    + intros q x v Hdue Hout. inversion Hout as [|? ? Ho1 Hor]; subst. cbn [fst snd] in Ho1.
      rewrite <- app_assoc. apply Hk; [|exact Hor]. apply Hk1; auto.
    + intros [Hhead Hdis] dest' src' k v [Hin|Hin] Hv.
      * inversion Hin; subst dest' src'.
        destruct (Hn1 k v Hv) as (p & Hh & Hdue). exists p. split; [exact Hh|].
        rewrite <- app_assoc. apply Hk; [exact Hdue|].
        assert (Hlt : (k < List.length src)%nat) by (apply nth_error_Some; congruence).
        rewrite Forall_forall in *. intros rq Hrq. specialize (Hhead rq Hrq). lia.
      * destruct (Hn Hdis dest' src' k v Hin Hv) as (p & Hh & Hdue). exists p.
        rewrite <- app_assoc. split; [|exact Hdue].
        destruct Hsame1 as (Hsr & _). eapply holds_same_regions; eauto.
Qed.

(** The session, request by request: a byte stays accounted for as long as
    no later request writes to its address. *)
Lemma target_flash_write_all_latest fuel (reqs : list (Z * list byte)) :
  malloc_succeeds malloc ->
  Forall (fun req => 0 <= fst req
                     /\ fst req + Z.of_nat (List.length (snd req)) <= UINT32_MAX
                     /\ (List.length (snd req) <= fuel)%nat) reqs ->
  forall t w (hist : list event),
    (forall i g, nth_error (flash t) i = Some g -> reg_inv geom fuel i g hist) ->
    Forall (owned t) reqs ->
    fst (fst (target_enter_flash_mode target_reset t w)) = true ->
    exists rs t' w' d,
      target_flash_write_all malloc target_reset fuel t reqs w = Some (rs, t', w')
      /\ trace w' = d ++ trace w
      /\ (forall i g, nth_error (flash t') i = Some g -> reg_inv geom fuel i g (d ++ hist))
      /\ same_target t t'
      /\ (forall q x v, due q hist x v -> not_rewritten reqs x -> due q (d ++ hist) x v)
      /\ (forall pre dest src post k v,
            reqs = pre ++ (dest, src) :: post -> nth_error src k = Some v ->
            not_rewritten post (dest + Z.of_nat k) ->
            exists p, holds (flash t) p (dest + Z.of_nat k)
                      /\ due p (d ++ hist) (dest + Z.of_nat k) v).
Proof.
  intros Hmal Hreqs. induction Hreqs as [|[dest0 src0] reqs (Hd & Htop & Hfuel) _ IH];
    intros t w hist Hinv Hown Hen.
  - exists [], t, w, []. split; [reflexivity|]. split; [reflexivity|].
    split; [exact Hinv|]. split.
    { apply same_target_intro; auto using same_regions_refl. }
    split; [auto|]. intros [|a pre] dest src post k v Hs; discriminate.
  - cbn [fst snd] in *. simpl target_flash_write_all.
    inversion Hown as [|? ? Hown1 Hownr]; subst.
    destruct (target_flash_write_ok malloc target_reset geom fuel t dest0 src0 w hist
                Hmal Hinv Hd Htop Hfuel)
      as (r & t1 & w1 & d1 & Hrun1 & Ht1 & Hi1 & _).
    destruct (target_flash_write_due fuel t dest0 src0 w hist r t1 w1
                Hmal Hinv Hd Htop Hfuel Hown1 Hen Hrun1)
      as (_ & d1' & Ht1' & Hk1 & Hn1).
    assert (d1' = d1) by (apply (app_inv_tail (trace w)); congruence). subst d1'.
    pose proof (target_flash_write_same _ _ _ _ _ _ _ _ _ Hrun1) as Hsame1.
    pose proof (target_flash_write_flash_mode _ _ _ _ _ _ _ _ _ Hen Hrun1) as Hm1.
    rewrite Hrun1.
    destruct (IH t1 w1 (d1 ++ hist) Hi1)
      as (rs & t' & w' & d & Hrun & Ht & Hi & Hsame & Hk & Hn).
    { rewrite Forall_forall in *. intros req Hin k Hkr.
      destruct Hsame1 as (_ & _ & _ & Hlook). rewrite Hlook. apply (Hownr req Hin k Hkr). }
    { unfold target_enter_flash_mode. rewrite Hm1. reflexivity. }
    rewrite Hrun. exists (r :: rs), t', w', (d ++ d1).
    split; [reflexivity|]. split; [rewrite Ht, Ht1; apply app_assoc|].
    split; [intros i g Hnth; rewrite <- app_assoc; auto|].
    split; [eapply same_target_trans; eauto|].
    split.
    + intros q x v Hdue Hout. inversion Hout as [|? ? Ho1 Hor]; subst. cbn [fst snd] in Ho1.
      rewrite <- app_assoc. apply Hk; [|exact Hor]. apply Hk1; auto.
    + intros [|a pre] dest src post k v Hs Hv Hpost; cbn [app] in Hs.
      * inversion Hs; subst dest0 src0 post.
        destruct (Hn1 k v Hv) as (p & Hh & Hdue). exists p. split; [exact Hh|].
        rewrite <- app_assoc. apply Hk; [exact Hdue|exact Hpost].
      * inversion Hs; subst a reqs.
        destruct (Hn pre dest src post k v eq_refl Hv Hpost) as (p & Hh & Hdue). exists p.
        rewrite <- app_assoc. split; [|exact Hdue].
        destruct Hsame1 as (Hsr & _). eapply holds_same_regions; eauto.
Qed.

(** What is pending for a region lies in its scratch buffer, inside the
    dirty range. *)
Lemma pending_buffered fuel p f (hist : list event) (x : Z) (v : byte) :
  reg_inv geom fuel p f hist -> pending p hist x = Some v -> buffered f x v.
Proof.
  intros (_ & _ & _ & Hseg) Hp. unfold seg_inv in Hseg.
  destruct (buf f) as [b|] eqn:Hb; [|rewrite Hseg in Hp; discriminate].
  destruct Hseg as [Hlen [(_ & _ & _ & Hn) | (A1 & A2 & A3 & A4 & A5 & A6 & A7 & A8)]].
  { rewrite Hn in Hp. discriminate. }
  assert (Hx : buf_addr_low f <= x < buf_addr_high f) by (apply A7; congruence).
  exists b. split; [exact Hb|]. split; [lia|]. split; [exact Hx|].
  specialize (A8 (x - buf_addr_base f) ltac:(lia)).
  replace (buf_addr_base f + (x - buf_addr_base f)) with x in A8 by lia.
  rewrite Hp in A8. cbn [render] in A8. rewrite <- A8. apply nth_error_nth'. lia.
Qed.

(** The next flush of a region hands over what is pending for it. *)
Lemma pending_flushed_next fuel p f (hist : list event) (x : Z) (v : byte) :
  reg_inv geom fuel p f hist -> pending p hist x = Some v -> flushed_next fuel p f x v.
Proof.
  intros (Hok & Hg & Hfuel & Hseg) Hp w.
  destruct (flash_buffered_flush_ok geom fuel p f w hist Hok Hg Hseg Hfuel)
    as (r & f' & w' & d & Hrun & Ht & _).
  destruct (flash_buffered_flush_delivers fuel p f w hist r f' w' Hok Hseg Hfuel Hrun)
    as (d' & Ht' & Hdel).
  assert (d' = d) by (apply (app_inv_tail (trace w)); congruence). subst d'.
  exists r, f', w', d. split; [exact Hrun|]. split; [exact Ht|]. apply Hdel. exact Hp.
Qed.

End Delivery.

Section DeliverySession.

Context {D : Type}.
Variable malloc : D -> Z -> D * option (nat -> byte).
Variable target_reset : D -> D.
Implicit Types (t : @target D) (w : @world D) (f : @target_flash D).

(** X9: take a target whose regions have power-of-two [writesize] and
    [writebufsize] with [writesize <= writebufsize], prepare hooks that do
    not fail and no buffer yet, an allocator that does not fail, flash mode
    that can be entered, and a session of at least one write request, the
    requests lying below the top address on pairwise disjoint ranges owned
    by regions of the target.  The session followed by
    [target_flash_complete] returns, and by then every byte of every
    request has been handed to the write primitive of a region holding its
    address, at that address. *)
Theorem write_session_then_complete_delivers_every_byte
    (fuel : nat) t (reqs : list (Z * list byte)) w :
  malloc_succeeds malloc ->
  Forall (fun f => region_ok f /\ buf f = None
                   /\ (Z.to_nat (writebufsize f) <= fuel)%nat) (flash t) ->
  Forall (fun req => 0 <= fst req
                     /\ fst req + Z.of_nat (List.length (snd req)) <= UINT32_MAX
                     /\ (List.length (snd req) <= fuel)%nat) reqs ->
  disjoint_requests reqs ->
  Forall (owned t) reqs ->
  reqs <> [] ->
  fst (fst (target_enter_flash_mode target_reset t w)) = true ->
  exists rs t1 w1 r t2 w2 new,
    target_flash_write_all malloc target_reset fuel t reqs w = Some (rs, t1, w1)
    /\ target_flash_complete target_reset fuel t1 w1 = Some (r, t2, w2)
    /\ trace w2 = new ++ trace w
    /\ forall dest src k v,
         In (dest, src) reqs -> nth_error src k = Some v ->
         exists p, holds (flash t) p (dest + Z.of_nat k)
                   /\ delivered p new (dest + Z.of_nat k) v.
Proof.
  intros Hmal Hregs Hreqs Hdis Hown Hne Hen.
  destruct (target_flash_write_all_due malloc target_reset (geometry (flash t)) fuel reqs
              Hmal Hreqs t w [])
    as (rs & t1 & w1 & d1 & Hrun1 & Ht1 & Hi1 & Hsame & Hm1 & _ & _ & Hn1); auto.
  { intros i g Hn. rewrite Forall_forall in Hregs.
    destruct (Hregs g (nth_error_In _ _ Hn)) as (Hok & Hb & Hf).
    unfold reg_inv. split; [exact Hok|]. split; [|split; [exact Hf|]].
    - unfold geometry. rewrite Hn. reflexivity.
    - unfold seg_inv. rewrite Hb. reflexivity. }
  destruct (target_flash_complete_delivers target_reset (geometry (flash t)) fuel t1 w1
              (d1 ++ []) (Hm1 Hne) Hi1)
    as (r & t2 & w2 & d2 & Hrun2 & Ht2 & _ & Hv).
  exists rs, t1, w1, r, t2, w2, (d2 ++ d1).
  split; [exact Hrun1|]. split; [exact Hrun2|].
  split; [rewrite Ht2, Ht1; apply app_assoc|].
  intros dest src k v Hin Hnth.
  destruct (Hn1 Hdis dest src k v Hin Hnth) as (p & Hh & Hdue). exists p.
  split; [exact Hh|].
  rewrite app_nil_r in Hv, Hdue. apply Hv; [|exact Hdue].
  destruct Hsame as (Hsr & _). destruct Hh as (f & Hf & Hr).
  clear -Hsr Hf Hr. unfold same_regions, holds, in_region in *. revert p Hf.
  induction Hsr as [|g g' l l' Hs _ IH]; intros [|p] Hf; simpl in *; try discriminate.
  - inversion Hf; subst. exists g'. split; [reflexivity|].
    unfold static in Hs. inversion Hs. congruence.
  - apply IH. exact Hf.
Qed.

(** X10: on such a target, a non-empty session of owned write requests
    followed by [target_flash_complete] reports success exactly when every
    call made on the way answered success: the conjunction of the results
    of the writes and of the completion is the conjunction of the answers
    of the hooks, write primitives and allocations recorded in the trace
    (the exit-flash-mode hook apart).  No failure is swallowed and none is
    made up. *)
Theorem write_session_result_is_conjunction_of_answers
    (fuel : nat) t (reqs : list (Z * list byte)) w :
  malloc_succeeds malloc ->
  Forall (fun f => region_ok f /\ buf f = None
                   /\ (Z.to_nat (writebufsize f) <= fuel)%nat) (flash t) ->
  Forall (fun req => 0 <= fst req
                     /\ fst req + Z.of_nat (List.length (snd req)) <= UINT32_MAX
                     /\ (List.length (snd req) <= fuel)%nat) reqs ->
  Forall (owned t) reqs ->
  reqs <> [] ->
  fst (fst (target_enter_flash_mode target_reset t w)) = true ->
  exists rs t1 w1 r t2 w2 new,
    target_flash_write_all malloc target_reset fuel t reqs w = Some (rs, t1, w1)
    /\ target_flash_complete target_reset fuel t1 w1 = Some (r, t2, w2)
    /\ trace w2 = new ++ trace w
    /\ forallb (fun b => b) rs && r = forallb op_ok new.
Proof.
  intros Hmal Hregs Hreqs Hown Hne Hen.
  destruct (target_flash_write_all_due malloc target_reset (geometry (flash t)) fuel reqs
              Hmal Hreqs t w [])
    as (rs & t1 & w1 & d1 & Hrun1 & Ht1 & Hi1 & _ & Hm1 & Hrs & _); auto.
  { intros i g Hn. rewrite Forall_forall in Hregs.
    destruct (Hregs g (nth_error_In _ _ Hn)) as (Hok & Hb & Hf).
    unfold reg_inv. split; [exact Hok|]. split; [|split; [exact Hf|]].
    - unfold geometry. rewrite Hn. reflexivity.
    - unfold seg_inv. rewrite Hb. reflexivity. }
  destruct (target_flash_complete_delivers target_reset (geometry (flash t)) fuel t1 w1
              (d1 ++ []) (Hm1 Hne) Hi1)
    as (r & t2 & w2 & d2 & Hrun2 & Ht2 & Hr & _).
  exists rs, t1, w1, r, t2, w2, (d2 ++ d1).
  split; [exact Hrun1|]. split; [exact Hrun2|].
  split; [rewrite Ht2, Ht1; apply app_assoc|].
  rewrite forallb_app, Hrs, Hr. apply andb_comm.
Qed.

End DeliverySession.

(** ** Regions left retired, and writes without memory *)

Ltac prefix_is :=
  match goal with
  | |- ?l = ?d ++ ?t => let r := trace_prefix l t in unify d r; reflexivity
  end.

Section Retired.

Context {D : Type}.
Variable malloc : D -> Z -> D * option (nat -> byte).
Variable target_reset : D -> D.
Implicit Types (t : @target D) (w : @world D) (f : @target_flash D).

Lemma for_each_flash_others
    (body : nat -> @target_flash D -> @world D -> option (bool * @target_flash D * @world D))
    (R : @target_flash D -> Prop) (p : nat) :
  (forall q f w r f' w', body q f w = Some (r, f', w') -> R f') ->
  forall l k ret w r l' w',
    for_each_flash body (Some p) k l ret w = Some (r, l', w') ->
    forall i g, nth_error l' i = Some g -> (k + i)%nat <> p -> R g.
Proof.
  intros Hb. induction l as [|f l IH]; intros k ret w r l' w' H i g Hn Hne; simpl in H.
  - inversion H; subst. destruct i; discriminate.
  - destruct (Nat.eqb_spec k p) as [E|E].
    + subst k.
      destruct (for_each_flash body (Some p) (S p) l ret w) as [[[r0 l0] w0]|] eqn:Hr;
        [|discriminate].
      inversion H; subst. destruct i as [|i]; [lia|]. simpl in Hn.
      eapply (IH (S p)); eauto. lia.
    + destruct (body k f w) as [[[r1 f1] w1]|] eqn:Hf; [|discriminate].
      destruct (for_each_flash body (Some p) (S k) l (ret && r1) w1) as [[[r0 l0] w0]|] eqn:Hr;
        [|discriminate].
      inversion H; subst. destruct i as [|i]; simpl in Hn.
      * inversion Hn; subst. eapply Hb; eauto.
      * eapply (IH (S k)); eauto. lia.
Qed.

Lemma store_retired (l : list (@target_flash D)) (p : nat) f f0 :
  nth_error l p = Some f0 ->
  (forall i g, nth_error l i = Some g -> i <> p -> ready g = false) ->
  ready f = false ->
  Forall (fun g => ready g = false) (store p f l).
Proof.
  intros Hp Ho Hf. apply Forall_forall. intros g Hin.
  apply In_nth_error in Hin. destruct Hin as [i Hi].
  destruct (store_nth_inv l p i f f0 g Hp Hi) as [[_ ->] | [Hne Hn]]; [exact Hf|].
  eapply Ho; eauto.
Qed.

Lemma erase_loop_retires fuel :
  forall t addr len ret w t' w',
    erase_loop fuel t addr len ret w = Some (true, t', w') ->
    (len = 0 -> Forall (fun f => ready f = false) (flash t)) ->
    Forall (fun f => ready f = false) (flash t').
Proof.
  induction fuel as [|fuel IH]; intros t addr len ret w t' w' H Hz; simpl in H.
  - destruct (Z.eqb_spec len 0) as [E|E]; [|discriminate]. inversion H; subst. auto.
  - destruct (Z.eqb_spec len 0) as [E|E]. { inversion H; subst. auto. }
    destruct (target_flash_for_addr t addr) as [p|]; [|discriminate].
    destruct (for_each_flash done_body (Some p) 0 (flash t) ret w) as [[[ret1 l1] w1]|] eqn:Ho;
      [|discriminate].
    assert (Hoth : forall i g, nth_error l1 i = Some g -> i <> p -> ready g = false).
    { intros i g Hn Hne.
      refine (for_each_flash_others done_body (fun g => ready g = false) p _
                (flash t) 0%nat ret w ret1 l1 w1 Ho i g Hn Hne).
      intros q f0 w0 r0 f0' w0' Hd. unfold done_body in Hd.
      pose proof (flash_done_retires q f0 w0) as (Hr & _).
      destruct (flash_done q f0 w0) as [[rr ff] ww]. inversion Hd; subst. exact Hr. }
    destruct (nth_error l1 p) as [f|] eqn:Hn; [|discriminate].
    destruct (flash_prepare p f w1) as [[ok f1] w2].
    destruct ok; cbn [negb] in H; [|discriminate].
    unfold call in H. destruct (erase f1 _ _ (dev w2)) as [d rc].
    destruct (_ =? 0) eqn:El.
    + pose proof (flash_done_retires p f1 {| dev := d; trace := EvErase p (align_down addr (blocksize f)) (blocksize f1) rc :: trace w2 |}) as (Hr & _).
      destruct (flash_done p f1 _) as [[rd f2] w4]. cbn [fst snd] in Hr.
      apply IH in H; [exact H|]. intros _. cbn [flash set_flash].
      eapply store_retired; eauto.
    + apply IH in H; [exact H|]. intros E0. apply Z.eqb_neq in El. contradiction.
Qed.

Lemma flash_done_frees p f0 f w :
  kept_or_freed f0 f -> kept_or_freed f0 (snd (fst (flash_done p f w))).
Proof.
  unfold kept_or_freed, flash_done, call, emit. intros H H0. specialize (H H0).
  destruct (ready f) eqn:Hr; cbn [negb].
  - right. destruct (done f) as [h|]; [destruct (h _) as [d0 r]|]; destruct (buf f) eqn:Hb;
      cbn; auto.
  - cbn [fst snd]. right. destruct H as [H|H]; [congruence|exact H].
Qed.

Lemma flash_prepare_keeps p f0 f w :
  kept_or_freed f0 f -> kept_or_freed f0 (snd (fst (flash_prepare p f w))).
Proof.
  unfold kept_or_freed, flash_prepare, call. intros H H0. specialize (H H0).
  destruct (ready f) eqn:Hr; [cbn; auto|].
  destruct (prepare f) as [h|]; [destruct (h (dev w)) as [d0 [|]]|];
    cbn [fst snd negb emit ready buf set_ready]; auto.
  all: try (right; destruct H as [H|H]; [congruence|exact H]).
Qed.

Lemma for_each_flash_rel
    (body : nat -> @target_flash D -> @world D -> option (bool * @target_flash D * @world D))
    (except : option nat) (R : @target_flash D -> @target_flash D -> Prop) :
  (forall f0 q f w r f' w', R f0 f -> body q f w = Some (r, f', w') -> R f0 f') ->
  forall l0 l, Forall2 R l0 l ->
  forall k ret w r l' w',
    for_each_flash body except k l ret w = Some (r, l', w') -> Forall2 R l0 l'.
Proof.
  intros Hb l0 l HF. induction HF as [|f0 f l0 l Hf Hl IH]; intros k ret w r l' w' H;
    simpl in H.
  - inversion H; subst. constructor.
  - destruct (match except with Some q => Nat.eqb k q | None => false end).
    + destruct (for_each_flash body except (S k) l ret w) as [[[r0 l1] w0]|] eqn:Hr;
        [|discriminate].
      inversion H; subst. constructor; [exact Hf|eapply IH; eauto].
    + destruct (body k f w) as [[[r1 f1] w1]|] eqn:Hbd; [|discriminate].
      destruct (for_each_flash body except (S k) l (ret && r1) w1) as [[[r0 l1] w0]|] eqn:Hr;
        [|discriminate].
      inversion H; subst. constructor; [eapply Hb; eauto|eapply IH; eauto].
Qed.

Lemma Forall2_nth_r (R : @target_flash D -> @target_flash D -> Prop)
    (l0 l : list (@target_flash D)) :
  Forall2 R l0 l ->
  forall p f, nth_error l p = Some f -> exists f0, nth_error l0 p = Some f0 /\ R f0 f.
Proof.
  induction 1 as [|f0 f l0 l Hf _ IH]; intros [|p] g Hn; simpl in *; try discriminate.
  - inversion Hn; subst. eauto.
  - eauto.
Qed.

Lemma erase_loop_frees fuel (l0 : list (@target_flash D)) :
  forall t addr len ret w r t' w',
    Forall2 kept_or_freed l0 (flash t) ->
    erase_loop fuel t addr len ret w = Some (r, t', w') ->
    Forall2 kept_or_freed l0 (flash t').
Proof.
  induction fuel as [|fuel IH]; intros t addr len ret w r t' w' HF H; simpl in H.
  - destruct (len =? 0); [|discriminate]. inversion H; subst. exact HF.
  - destruct (len =? 0). { inversion H; subst. exact HF. }
    destruct (target_flash_for_addr t addr) as [p|]; [|inversion H; subst; exact HF].
    destruct (for_each_flash done_body (Some p) 0 (flash t) ret w) as [[[ret1 l1] w1]|] eqn:Ho;
      [|discriminate].
    assert (HF1 : Forall2 kept_or_freed l0 l1).
    { refine (for_each_flash_rel done_body (Some p) kept_or_freed _ l0 (flash t) HF
                0%nat ret w ret1 l1 w1 Ho).
      intros f0 q f w0 r0 f' w0' Hk Hd. unfold done_body in Hd.
      pose proof (flash_done_frees q f0 f w0 Hk) as Hk'.
      destruct (flash_done q f w0) as [[rr ff] ww]. inversion Hd; subst. exact Hk'. }
    destruct (nth_error l1 p) as [f|] eqn:Hn; [|discriminate].
    destruct (Forall2_nth_r _ _ _ HF1 p f Hn) as (f0 & Hn0 & Hk).
    pose proof (flash_prepare_keeps p f0 f w1 Hk) as Hk1.
    destruct (flash_prepare p f w1) as [[ok f1] w2]. cbn [fst snd] in Hk1.
    destruct ok; cbn [negb] in H.
    + unfold call in H. destruct (erase f1 _ _ (dev w2)) as [d rc].
      destruct (_ =? 0).
      * pose proof (flash_done_frees p f0 f1 {| dev := d; trace := EvErase p (align_down addr (blocksize f)) (blocksize f1) rc :: trace w2 |} Hk1) as Hk2.
        destruct (flash_done p f1 _) as [[rd f2] w4]. cbn [fst snd] in Hk2.
        apply IH in H; [exact H|]. cbn [flash set_flash].
        eapply store_Forall2; eauto.
      * apply IH in H; [exact H|]. cbn [flash set_flash]. eapply store_Forall2; eauto.
    + inversion H; subst. cbn [flash set_flash]. eapply store_Forall2; eauto.
Qed.

(** X11: when [target_flash_erase] returns [true] for a request of
    non-zero length, no region is left prepared: every region of the chain
    has [ready] false, the erased ones having been retired by [flash_done]
    after their last block; and every region that was ready at the start
    has lost its scratch buffer, whatever it held. *)
Theorem target_flash_erase_success_retires_every_region
    (fuel : nat) t (addr len : Z) w t' w' :
  len <> 0 ->
  target_flash_erase target_reset fuel t addr len w = Some (true, t', w') ->
  Forall2 (fun f f' => ready f' = false /\ (ready f = true -> buf f' = None))
          (flash t) (flash t').
Proof.
  intros Hl H. unfold target_flash_erase in H.
  destruct (enter_flash_mode_effect target_reset t w) as (d0 & _ & Hfl & _).
  destruct (target_enter_flash_mode target_reset t w) as [[ok t1] w1]. cbn [fst snd] in Hfl.
  destruct ok; cbn [negb] in H; [|discriminate].
  assert (Hr : Forall (fun f => ready f = false) (flash t')).
  { eapply erase_loop_retires; eauto. intros E. contradiction. }
  assert (Hk : Forall2 kept_or_freed (flash t) (flash t')).
  { eapply erase_loop_frees; [|exact H]. rewrite Hfl.
    clear. induction (flash t) as [|f l IH]; constructor; auto.
    unfold kept_or_freed. auto. }
  clear -Hr Hk. induction Hk as [|f f' l l' Hf _ IH]; [constructor|].
  inversion Hr; subst. constructor; [|auto].
  split; [assumption|]. intros H0. destruct (Hf H0) as [E|E]; [congruence|exact E].
Qed.

Lemma flush_done_body_empty fuel p f w :
  buf f = None ->
  exists r f' w' d,
    flush_done_body fuel p f w = Some (r, f', w')
    /\ trace w' = d ++ trace w
    /\ forallb (fun e => negb (moves_data e)) d = true
    /\ buf f' = None /\ static f' = static f.
Proof.
  intros Hb. unfold flush_done_body, flash_buffered_flush. rewrite Hb.
  unfold flash_done, call, emit. cbn [ready buf dev trace].
  destruct (ready f); cbn [negb].
  - destruct (done f) as [h|]; [destruct (h (dev w)) as [d0 r0]|]; rewrite Hb;
      eexists _, _, _, _; (split; [reflexivity|]); cbn [trace];
      (split; [prefix_is|]); cbn; auto.
  - eexists _, _, _, _. split; [reflexivity|]. cbn [trace].
    split; [prefix_is|]; cbn; auto.
Qed.

Lemma for_each_flash_empty fuel (except : option nat) (l : list (@target_flash D)) :
  forall k ret w,
    Forall (fun f => buf f = None) l ->
    exists r l' w' d,
      for_each_flash (flush_done_body fuel) except k l ret w = Some (r, l', w')
      /\ trace w' = d ++ trace w
      /\ forallb (fun e => negb (moves_data e)) d = true
      /\ Forall (fun f => buf f = None) l'
      /\ (forall i, except = Some (k + i)%nat -> nth_error l' i = nth_error l i).
Proof.
  induction l as [|f l IH]; intros k ret w Hl; simpl.
  - exists ret, [], w, []. repeat split; auto.
  - inversion Hl as [|? ? Hf Hr]; subst.
    destruct (match except with Some q => Nat.eqb k q | None => false end) eqn:Hskip.
    + destruct (IH (S k) ret w Hr) as (r & l' & w' & d & Hrun & Ht & Hn & Hb & Hs).
      rewrite Hrun. exists r, (f :: l'), w', d.
      split; [reflexivity|]. split; [exact Ht|]. split; [exact Hn|].
      split; [constructor; auto|].
      intros [|i] Hi; [reflexivity|]. simpl. apply Hs. rewrite Hi. f_equal. lia.
    + destruct (flush_done_body_empty fuel k f w Hf)
        as (r1 & f1 & w1 & d1 & Hrun1 & Ht1 & Hn1 & Hb1 & _).
      rewrite Hrun1.
      destruct (IH (S k) (ret && r1) w1 Hr) as (r & l' & w' & d & Hrun & Ht & Hn & Hb & Hs).
      rewrite Hrun. exists r, (f1 :: l'), w', (d ++ d1).
      split; [reflexivity|]. split; [rewrite Ht, Ht1; apply app_assoc|].
      split; [rewrite forallb_app, Hn, Hn1; reflexivity|].
      split; [constructor; auto|].
      intros [|i] Hi.
      * exfalso. rewrite Nat.add_0_r in Hi. subst except.
        rewrite Nat.eqb_refl in Hskip. discriminate.
      * simpl. apply Hs. rewrite Hi. f_equal. lia.
Qed.

Lemma store_Forall (P : @target_flash D -> Prop) (l : list (@target_flash D)) :
  forall p f, Forall P l -> P f -> Forall P (store p f l).
Proof.
  induction l as [|g l IH]; intros [|p] f Hl Hf; simpl; auto;
    inversion Hl; subst; constructor; auto.
Qed.

Lemma write_loop_without_memory fuel0 :
  (forall d n, snd (malloc d n) = None) ->
  forall fuel t (dest : Z) (src : list byte) (len : Z) (ret : bool) w,
    Forall (fun f => buf f = None) (flash t) ->
    0 <= dest -> 0 <= len -> dest + len <= UINT32_MAX ->
    (Z.to_nat len <= fuel)%nat ->
    exists r t' w' d,
      write_loop malloc fuel0 fuel t dest src len ret w = Some (r, t', w')
      /\ trace w' = d ++ trace w
      /\ forallb (fun e => negb (moves_data e)) d = true
      /\ Forall (fun f => buf f = None) (flash t')
      /\ (len <> 0 \/ ret = false -> r = false).
Proof.
  intros Hmal.
  induction fuel as [|fuel IH]; intros t dest src len ret w Hbufs Hd Hl Htop Hfuel.
  - assert (len = 0) by lia. subst len. simpl.
    exists ret, t, w, []. repeat split; auto. intros [E|E]; congruence.
  - destruct (Z.eqb_spec len 0) as [->|Hne].
    { simpl. exists ret, t, w, []. repeat split; auto. intros [E|E]; congruence. }
    simpl write_loop. rewrite (proj2 (Z.eqb_neq len 0) Hne).
    destruct (target_flash_for_addr t dest) as [p|] eqn:Hfind.
    2:{ exists false, t, w, []. repeat split; auto. }
    unfold target_flash_for_addr in Hfind.
    destruct (flash_for_addr_Some _ _ _ _ Hfind) as (i & f & Ep & Hnth & Hrange).
    simpl in Ep. subst i.
    destruct (for_each_flash_empty fuel0 (Some p) (flash t) 0 ret w Hbufs)
      as (r1 & l1 & w1 & d1 & Hrun1 & Ht1 & Hn1 & Hb1 & Hsk).
    rewrite Hrun1. rewrite (Hsk p eq_refl), Hnth.
    assert (Hbf : buf f = None).
    { rewrite Forall_forall in Hbufs. apply Hbufs. eapply nth_error_In; eauto. }
    pose proof (wrap32_range (start f + length f)) as Hfe.
    set (flash_end := wrap32 (start f + length f)) in *.
    unfold UINT32_MAX in *.
    rewrite (wrap32_small (dest + len)) by lia.
    set (local_end := Z.min (dest + len) flash_end).
    assert (Hle : dest < local_end <= dest + len) by (unfold local_end; lia).
    rewrite (wrap32_small (local_end - dest)) by lia.
    set (ll := local_end - dest) in *.
    rewrite (wrap32_small (len - ll)) by (unfold ll; lia).
    unfold flash_buffered_write, call. rewrite Hbf. cbn [dev emit].
    pose proof (Hmal (dev w1) (writebufsize f)) as Hm.
    destruct (malloc (dev w1) (writebufsize f)) as [d0 m]. cbn [snd] in Hm. subst m.
    set (w2 := {| dev := d0;
                  trace := EvMalloc p (writebufsize f) false
                           :: trace (emit (CallBufferedWrite p dest ll) w1) |}).
    assert (Hcont : forall fX wX dp retX,
               trace wX = dp ++ trace w2 ->
               forallb (fun e => negb (moves_data e)) dp = true ->
               buf fX = None -> retX = false ->
               exists r t' w' d,
                 write_loop malloc fuel0 fuel (set_flash t (store p fX l1)) local_end
                            (skipn (Z.to_nat ll) src) (len - ll) retX wX = Some (r, t', w')
                 /\ trace w' = d ++ trace w
                 /\ forallb (fun e => negb (moves_data e)) d = true
                 /\ Forall (fun f => buf f = None) (flash t')
                 /\ (len <> 0 \/ ret = false -> r = false)).
    { intros fX wX dp retX HtX HnX HbX HrX.
      destruct (IH (set_flash t (store p fX l1)) local_end (skipn (Z.to_nat ll) src)
                   (len - ll) retX wX)
        as (r & t' & w' & d & Hrun & Ht & Hn & Hb & Hr);
        unfold UINT32_MAX; try (unfold ll in *; lia).
      { cbn [flash set_flash]. apply store_Forall; auto. }
      rewrite Hrun.
      exists r, t', w',
        (d ++ dp ++ [EvMalloc p (writebufsize f) false; CallBufferedWrite p dest ll] ++ d1).
      split; [reflexivity|]. split; [|split; [|split]].
      - rewrite Ht, HtX. unfold w2. cbn [trace emit]. rewrite Ht1, <- !app_assoc.
        reflexivity.
      - rewrite !forallb_app, Hn, HnX, Hn1. reflexivity.
      - exact Hb.
      - intros _. apply Hr. right. exact HrX. }
    destruct (Z.eqb_spec local_end flash_end) as [Eend|Eend].
    + destruct (flush_done_body_empty fuel0 p f w2 Hbf)
        as (r3 & f3 & w4 & d3 & Hrun3 & Ht3 & Hn3 & Hb3 & _).
      unfold flush_done_body in Hrun3.
      destruct (flash_buffered_flush fuel0 p f w2) as [[[ra fa] wa]|]; [|discriminate].
      destruct (flash_done p fa wa) as [[rb fb] wb]. inversion Hrun3; subst.
      apply (Hcont f3 w4 d3); auto. rewrite andb_false_r. reflexivity.
    + apply (Hcont f w2 []); auto. apply andb_false_r.
Qed.

Lemma enter_flash_mode_no_data t w :
  exists d0,
    trace (snd (target_enter_flash_mode target_reset t w)) = d0 ++ trace w
    /\ flash (snd (fst (target_enter_flash_mode target_reset t w))) = flash t
    /\ forallb (fun e => negb (moves_data e)) d0 = true.
Proof.
  destruct (enter_flash_mode_effect target_reset t w) as (d0 & Ht0 & Hfl & _ & Hc0 & Hw0).
  exists d0. split; [exact Ht0|]. split; [exact Hfl|].
  clear -Hc0 Hw0. induction d0 as [|e d0 IH]; [reflexivity|].
  simpl in *. apply andb_prop in Hc0. apply andb_prop in Hw0.
  destruct Hc0 as [C1 C2]. destruct Hw0 as [W1 W2]. rewrite (IH C2 W2).
  destruct e; simpl in *; try reflexivity; discriminate.
Qed.

(** X12: when the allocator has no memory and no region has a buffer
    yet, [target_flash_write] of a request of non-zero length returns
    [false], whatever the regions answer; not one byte is copied or
    handed to a write primitive, and the regions are left without
    buffers. *)
Theorem target_flash_write_fails_without_memory
    (fuel : nat) t (dest : Z) (src : list byte) (len : Z) w :
  (forall d n, snd (malloc d n) = None) ->
  Forall (fun f => buf f = None) (flash t) ->
  0 <= dest -> 0 < len -> dest + len <= UINT32_MAX ->
  (Z.to_nat len <= fuel)%nat ->
  exists t' w' new,
    target_flash_write malloc target_reset fuel t dest src len w = Some (false, t', w')
    /\ trace w' = new ++ trace w
    /\ forallb (fun e => negb (moves_data e)) new = true
    /\ Forall (fun f => buf f = None) (flash t').
Proof.
  intros Hmal Hbufs Hd Hl Htop Hfuel. unfold target_flash_write.
  destruct (enter_flash_mode_no_data t w) as (d0 & Ht0 & Hfl & Hn0).
  destruct (target_enter_flash_mode target_reset t w) as [[ok t1] w1]. cbn [fst snd] in *.
  destruct ok; cbn [negb].
  - destruct (write_loop_without_memory fuel Hmal fuel t1 dest src len true w1)
      as (r & t' & w' & d & Hrun & Ht & Hn & Hb & Hr); try lia.
    { rewrite Hfl. exact Hbufs. }
    rewrite Hrun. rewrite Hr by (left; lia).
    exists t', w', (d ++ d0). split; [reflexivity|]. split; [|split].
    + rewrite Ht, Ht0. apply app_assoc.
    + rewrite forallb_app, Hn, Hn0. reflexivity.
    + exact Hb.
  - exists t1, w1, d0. split; [reflexivity|]. split; [exact Ht0|]. split; [exact Hn0|].
    rewrite Hfl. exact Hbufs.
Qed.



End Retired.

(** ** What an erase can reach *)

Lemma erase_within_wider {D : Type} (l : list (@target_flash D)) (addr len addr' len' : Z)
    (cs : list (nat * Z * Z)) :
  addr <= addr' -> addr' + len' <= addr + len ->
  Forall (erase_within l addr' len') cs -> Forall (erase_within l addr len) cs.
Proof.
  intros H1 H2. apply Forall_impl. intros [[p a] n] (f & x & Hn & Hb & Hm & Hx & Hr & Ha).
  exists f, x. split; [exact Hn|]. split; [exact Hb|]. split; [exact Hm|].
  split; [lia|]. split; [exact Hr|exact Ha].
Qed.

Lemma same_regions_nth {D : Type} (l l' : list (@target_flash D)) :
  same_regions l l' ->
  forall p g, nth_error l' p = Some g ->
              exists f, nth_error l p = Some f /\ static g = static f.
Proof.
  unfold same_regions. induction 1 as [|f f' l l' Hs _ IH]; intros [|p] g Hn; simpl in *;
    try discriminate.
  - inversion Hn; subst. eauto.
  - eauto.
Qed.

Section EraseReach.

Context {D : Type}.
Variable target_reset : D -> D.
Implicit Types (t : @target D) (w : @world D) (f : @target_flash D).

Lemma flash_prepare_no_erase p f w :
  exists dp, trace (snd (flash_prepare p f w)) = dp ++ trace w /\ erase_calls dp = [].
Proof.
  unfold flash_prepare, call. destruct (ready f); [exists []; auto|].
  destruct (prepare f) as [h|]; [destruct (h (dev w)) as [d0 r]|]; cbn [snd trace].
  - exists [EvPrepare p r]. auto.
  - exists []. auto.
Qed.

Lemma erase_loop_blocks (l0 : list (@target_flash D)) :
  Forall (fun g => is_pow2 (blocksize g) = true) l0 ->
  forall fuel t addr len ret w r t' w',
    same_regions l0 (flash t) ->
    0 <= addr -> 0 <= len -> addr + len <= 4294967296 ->
    erase_loop fuel t addr len ret w = Some (r, t', w') ->
    exists d, trace w' = d ++ trace w
              /\ Forall (erase_within l0 addr len) (erase_calls d).
Proof.
  intros Hpow.
  induction fuel as [|fuel IH]; intros t addr len ret w r t' w' Hsame Ha Hl Htop H;
    simpl in H.
  - destruct (len =? 0); [|discriminate]. inversion H; subst. exists []. split; [reflexivity|].
    constructor.
  - destruct (Z.eqb_spec len 0) as [E|E].
    { inversion H; subst. exists []. split; [reflexivity|constructor]. }
    destruct (target_flash_for_addr t addr) as [p|] eqn:Hfind.
    2:{ inversion H; subst. exists []. split; [reflexivity|constructor]. }
    unfold target_flash_for_addr in Hfind.
    destruct (flash_for_addr_Some _ _ _ _ Hfind) as (i & g & Ep & Hnth & Hrange).
    simpl in Ep. subst i.
    destruct (same_regions_nth _ _ Hsame p g Hnth) as (f0 & Hn0 & Hs0).
    assert (Hbs : blocksize g = blocksize f0) by (unfold static in Hs0; congruence).
    assert (Hreg0 : in_region f0 addr).
    { unfold in_region. unfold static in Hs0. inversion Hs0. congruence. }
    assert (Hp0 : is_pow2 (blocksize f0) = true).
    { rewrite Forall_forall in Hpow. apply Hpow. eapply nth_error_In; eauto. }
    pose proof (is_pow2_range _ Hp0) as Hbr.
    destruct (done_others_spec p (flash t) 0 ret w)
      as (r1 & l1 & w1 & new1 & Hrun1 & Ht1 & Hst1 & Hsk1 & He1 & _).
    rewrite Hrun1 in H. rewrite (Hsk1 p eq_refl), Hnth in H.
    assert (Hnth1 : nth_error l1 p = Some g) by (rewrite (Hsk1 p eq_refl); exact Hnth).
    destruct (flash_prepare_no_erase p g w1) as (dp & Htp & Hep).
    pose proof (flash_prepare_static p g w1) as Hsp.
    destruct (flash_prepare p g w1) as [[ok f1] w2]. cbn [fst snd] in Htp, Hsp.
    assert (Hbs1 : blocksize f1 = blocksize f0) by (unfold static in Hsp; congruence).
    destruct ok; cbn [negb] in H.
    2:{ inversion H; subst. exists (dp ++ new1). split.
        - rewrite Htp, Ht1. apply app_assoc.
        - rewrite erase_calls_app, Hep, He1. constructor. }
    unfold call in H. rewrite Hbs, Hbs1 in H.
    rewrite (align_down_is_pow2 addr (blocksize f0)) in H by (auto; lia).
    pose proof (Z.mod_pos_bound addr (blocksize f0) ltac:(lia)) as Hm.
    set (a := addr - addr mod blocksize f0) in *.
    assert (Ham : a mod blocksize f0 = 0).
    { unfold a. rewrite Zminus_mod_idemp_r. rewrite Z.sub_diag. apply Z.mod_0_l. lia. }
    destruct (erase f1 a (blocksize f0) (dev w2)) as [d0 rc].
    rewrite wrap32_sub_l in H.
    rewrite (wrap32_small (a + blocksize f0 - addr)) in H by (unfold a; lia).
    set (ev := EvErase p a (blocksize f0) rc) in *.
    assert (Hev : erase_within l0 addr len (p, a, blocksize f0)).
    { exists f0, addr. split; [exact Hn0|]. split; [reflexivity|]. split; [exact Ham|].
      split; [lia|]. split; [exact Hreg0|]. unfold a. lia. }
    assert (Hcont : forall fX wX dd retX,
               trace wX = dd ++ ev :: trace w2 ->
               erase_calls dd = [] ->
               static fX = static g ->
               erase_loop fuel (set_flash t (store p fX l1)) (wrap32 (a + blocksize f0))
                          (len - Z.min (a + blocksize f0 - addr) len) retX wX
               = Some (r, t', w') ->
               exists d, trace w' = d ++ trace w
                         /\ Forall (erase_within l0 addr len) (erase_calls d)).
    { intros fX wX dd retX HtX HeX HsX HrunX.
      assert (Hsame2 : same_regions l0 (store p fX l1)).
      { eapply same_regions_trans; [exact Hsame|].
        eapply same_regions_store; eauto. }
      assert (Hrec : exists d2, trace w' = d2 ++ trace wX
                                /\ Forall (erase_within l0 addr len) (erase_calls d2)).
      { destruct (Z.le_gt_cases len (a + blocksize f0 - addr)) as [Hle|Hgt].
        - rewrite Z.min_r, Z.sub_diag in HrunX by lia.
          rewrite erase_loop_zero in HrunX. inversion HrunX; subst.
          exists []. split; [reflexivity|constructor].
        - rewrite Z.min_l in HrunX by lia.
          rewrite (wrap32_small (a + blocksize f0)) in HrunX by (unfold a in *; lia).
          destruct (IH (set_flash t (store p fX l1)) (a + blocksize f0)
                       (len - (a + blocksize f0 - addr)) retX wX r t' w' Hsame2)
            as (d2 & Ht2 & Hf2); [unfold a; lia|lia|lia|exact HrunX|].
          exists d2. split; [exact Ht2|].
          eapply erase_within_wider; [| |exact Hf2]; unfold a in *; lia. }
      destruct Hrec as (d2 & Ht2 & Hf2).
      exists (d2 ++ dd ++ ev :: dp ++ new1). split.
      - rewrite Ht2, HtX, Htp, Ht1. rewrite <- !app_assoc. cbn [app].
        rewrite <- !app_assoc. reflexivity.
      - rewrite !erase_calls_app, HeX. cbn [app].
        change (erase_calls (ev :: dp ++ new1))
          with ((p, a, blocksize f0) :: erase_calls (dp ++ new1)).
        rewrite erase_calls_app, Hep, He1. cbn [app].
        apply Forall_app. split; [exact Hf2|]. constructor; [exact Hev|constructor]. }
    destruct (_ =? 0).
    + destruct (flash_done_spec p f1 {| dev := d0; trace := ev :: trace w2 |})
        as (dd & Htd & Hed & _).
      pose proof (flash_done_static p f1 {| dev := d0; trace := ev :: trace w2 |}) as Hsd.
      destruct (flash_done p f1 _) as [[rd f2] w4]. cbn [fst snd trace] in Htd, Hsd.
      apply (Hcont f2 w4 dd _ Htd Hed ltac:(congruence) H).
    + apply (Hcont f1 {| dev := d0; trace := ev :: trace w2 |} [] _ eq_refl eq_refl Hsp H).
Qed.

(** X14: an erase only reaches what was asked for.  With power-of-two
    block sizes and a request below the top address, every call of an
    erase primitive made by [target_flash_erase] is for one whole block of
    the region it is made on, aligned to that region's block size, and the
    block holds an address of the request that lies in that region; this
    holds as well when the request runs over several regions or stops at
    an address no region holds. *)
Theorem target_flash_erase_calls_within_request
    (fuel : nat) t (addr len : Z) w r t' w' :
  Forall (fun g => is_pow2 (blocksize g) = true) (flash t) ->
  0 <= addr -> 0 <= len -> addr + len <= 4294967296 ->
  target_flash_erase target_reset fuel t addr len w = Some (r, t', w') ->
  exists new, trace w' = new ++ trace w
              /\ Forall (erase_within (flash t) addr len) (erase_calls new).
Proof.
  intros Hpow Ha Hl Htop H. unfold target_flash_erase in H.
  destruct (enter_flash_mode_effect target_reset t w) as (d0 & Ht0 & Hfl & _ & _ & _).
  assert (He0 : erase_calls d0 = []).
  { clear -Ht0. unfold target_enter_flash_mode, call in Ht0.
    destruct (flash_mode t).
    - cbn [snd] in Ht0. assert (d0 = []) by (apply (app_inv_tail (trace w)); exact (eq_sym Ht0)).
      subst. reflexivity.
    - destruct (enter_flash_mode t) as [h|]; [destruct (h (dev w)) as [d r]|];
        cbn [snd trace] in Ht0.
      + assert (d0 = [EvEnterFlashMode r])
          by (apply (app_inv_tail (trace w)); exact (eq_sym Ht0)).
        subst. reflexivity.
      + assert (d0 = [EvReset]) by (apply (app_inv_tail (trace w)); exact (eq_sym Ht0)).
        subst. reflexivity. }
  destruct (target_enter_flash_mode target_reset t w) as [[ok t1] w1]. cbn [fst snd] in *.
  destruct ok; cbn [negb] in H.
  - destruct (erase_loop_blocks (flash t) Hpow fuel t1 addr len true w1 r t' w')
      as (d & Ht & Hf); auto.
    { rewrite Hfl. apply same_regions_refl. }
    exists (d ++ d0). split; [rewrite Ht, Ht0; apply app_assoc|].
    rewrite erase_calls_app, He0, app_nil_r. exact Hf.
  - inversion H; subst. exists d0. split; [exact Ht0|]. rewrite He0. constructor.
Qed.

End EraseReach.

(** ** Primitives are called on prepared regions only *)

Section Prepared.

Context {D : Type}.
Variable malloc : D -> Z -> D * option (nat -> byte).
Variable target_reset : D -> D.
Variables hk init : nat -> bool.
Implicit Types (t : @target D) (w : @world D) (f : @target_flash D).

Lemma region_step_trans p (hist : list event) f1 f2 (d1 d2 : list event) :
  region_step hk init p hist f1 d1 ->
  region_step hk init p (d1 ++ hist) f2 d2 ->
  region_step hk init p hist f2 (d2 ++ d1).
Proof.
  intros (_ & _ & A3) (B1 & B2 & B3). unfold region_step. rewrite <- app_assoc.
  split; [exact B1|]. split; [exact B2|]. intros q Hq. rewrite B3, A3; auto.
Qed.

Lemma region_step_nil p (hist : list event) f :
  prep_inv hk init p f hist -> primitives_prepared hk init hist ->
  region_step hk init p hist f [].
Proof. intros H1 H2. split; [exact H1|]. split; [exact H2|]. reflexivity. Qed.

Lemma region_step_neutral p (hist : list event) f f' (e : event) :
  neutral e = true ->
  prepare f' = prepare f -> ready f' = ready f ->
  prep_inv hk init p f hist -> primitives_prepared hk init hist ->
  region_step hk init p hist f' [e].
Proof.
  intros He Hp Hr H1 H2. unfold region_step, prep_inv. cbn [app].
  split; [|split].
  - intros Hh. destruct (H1 Hh) as [A B]. rewrite Hp, Hr. split; [exact A|].
    rewrite B. destruct e; try discriminate; reflexivity.
  - cbn [primitives_prepared]. split; [|exact H2]. destruct e; try discriminate; exact I.
  - intros q _. destruct e; try discriminate; reflexivity.
Qed.

Lemma flash_prepare_step p f w (hist : list event) :
  prep_inv hk init p f hist -> primitives_prepared hk init hist ->
  exists d, trace (snd (flash_prepare p f w)) = d ++ trace w
            /\ region_step hk init p hist (snd (fst (flash_prepare p f w))) d
            /\ (fst (fst (flash_prepare p f w)) = true ->
                ready (snd (fst (flash_prepare p f w))) = true).
Proof.
  intros H1 H2. unfold flash_prepare, call. destruct (ready f) eqn:Hr.
  - exists []. cbn [fst snd]. split; [reflexivity|].
    split; [apply region_step_nil; auto|auto].
  - destruct (prepare f) as [h|] eqn:Hp.
    + destruct (h (dev w)) as [d0 ok]. cbn [fst snd trace].
      exists [EvPrepare p ok]. split; [reflexivity|]. split.
      * unfold region_step, prep_inv. cbn [app prepared primitives_prepared].
        rewrite Nat.eqb_refl. cbn [andb]. split; [|split].
        -- intros Hh. destruct (H1 Hh) as [A B]. destruct ok; cbn [prepare ready set_ready].
           ++ split; [congruence|reflexivity].
           ++ split; [exact A|exact B].
        -- split; [exact I|exact H2].
        -- intros q Hq.
           replace (Nat.eqb p q) with false by (symmetry; apply Nat.eqb_neq; congruence).
           reflexivity.
      * intros ->. reflexivity.
    + cbn [fst snd]. exists []. split; [reflexivity|]. split; [|reflexivity].
      unfold region_step, prep_inv. cbn [app]. split; [|split; [exact H2|reflexivity]].
      intros Hh. destruct (H1 Hh) as [A _]. congruence.
Qed.

Lemma flash_done_step p f w (hist : list event) :
  prep_inv hk init p f hist -> primitives_prepared hk init hist ->
  exists d, trace (snd (flash_done p f w)) = d ++ trace w
            /\ region_step hk init p hist (snd (fst (flash_done p f w))) d.
Proof.
  intros H1 H2.
  assert (Hgen : forall d f',
             (exists x, d = x ++ [CallDone p]
                        /\ forallb (fun e => match e with EvDone _ _ | EvFree _ => true
                                                     | _ => false end) x = true) ->
             prepare f' = prepare f -> ready f' = false ->
             region_step hk init p hist f' d).
  { intros d f' (x & -> & Hx) Hp Hr. unfold region_step, prep_inv.
    rewrite <- app_assoc. cbn [app].
    assert (E : forall q, prepared q (init q) (x ++ CallDone p :: hist)
                          = prepared q (init q) (CallDone p :: hist)).
    { intros q. clear -Hx. induction x as [|e x IH]; [reflexivity|].
      simpl in Hx. apply andb_prop in Hx. destruct Hx as [He Hx].
      destruct e; try discriminate; simpl; apply IH; exact Hx. }
    split; [|split].
    - intros Hh. destruct (H1 Hh) as [A _]. rewrite Hp, Hr, E. cbn [prepared].
      rewrite Nat.eqb_refl. auto.
    - clear -Hx H2. induction x as [|e x IH]; [simpl; auto|].
      simpl in Hx. apply andb_prop in Hx. destruct Hx as [He Hx].
      cbn [app primitives_prepared]. split; [destruct e; try discriminate; exact I|auto].
    - intros q Hq. rewrite E. cbn [prepared].
      replace (Nat.eqb p q) with false by (symmetry; apply Nat.eqb_neq; congruence).
      reflexivity. }
  unfold flash_done, call, emit. destruct (ready f) eqn:Hr; cbn [negb].
  - destruct (done f) as [h|]; [destruct (h _) as [d0 r]|]; destruct (buf f);
      cbn [fst snd trace dev]; eexists; (split; [prefix_is|]); apply Hgen;
      try reflexivity.
    + exists [EvFree p; EvDone p r]. auto.
    + exists [EvDone p r]. auto.
    + exists [EvFree p]. auto.
    + exists []. auto.
  - cbn [fst snd trace]. exists [CallDone p]. split; [reflexivity|].
    apply Hgen; auto. exists []. auto.
Qed.

Lemma flush_loop_step fuel p f (b : list byte) :
  forall aligned src len ret w (hist : list event) r w',
    (hk p = true -> prepared p (init p) hist = true) ->
    primitives_prepared hk init hist ->
    flush_loop fuel p f b aligned src len ret w = Some (r, w') ->
    exists d, trace w' = d ++ trace w
              /\ primitives_prepared hk init (d ++ hist)
              /\ forall q, prepared q (init q) (d ++ hist) = prepared q (init q) hist.
Proof.
  induction fuel as [|fuel IH]; intros a s len ret w hist r w' Hp H2 H; simpl in H.
  - destruct (len =? 0); [|discriminate]. inversion H; subst. exists []. auto.
  - destruct (len =? 0). { inversion H; subst. exists []. auto. }
    destruct (read_bytes b s (writesize f)) as [data|]; [|discriminate].
    unfold call in H. destruct (write f a data (writesize f) (dev w)) as [d0 rc].
    set (ev := EvWrite p a data (writesize f) rc) in *.
    destruct (IH _ _ _ _ _ (ev :: hist) _ _ ltac:(exact Hp)
                 ltac:(cbn [primitives_prepared]; split; [exact Hp|exact H2]) H)
      as (d & Ht & Hd & Hq).
    exists (d ++ [ev]). rewrite <- !app_assoc. cbn [app].
    split; [rewrite Ht; reflexivity|].
    split; [exact Hd|]. intros q. rewrite Hq. reflexivity.
Qed.

Lemma flash_buffered_flush_step fuel p f w (hist : list event) r f' w' :
  prep_inv hk init p f hist -> primitives_prepared hk init hist ->
  flash_buffered_flush fuel p f w = Some (r, f', w') ->
  exists d, trace w' = d ++ trace w /\ region_step hk init p hist f' d.
Proof.
  intros H1 H2 H. unfold flash_buffered_flush in H.
  set (mk := CallFlush p (buf_addr_low f) (buf_addr_high f)) in *.
  assert (Hmk : region_step hk init p hist f [mk]).
  { apply (region_step_neutral p hist f f mk); auto. }
  destruct (buf f) as [b|]; [|inversion H; subst; exists [mk]; auto].
  destruct (_ && _); [|inversion H; subst; exists [mk]; auto].
  destruct Hmk as (M1 & M2 & M3).
  destruct (flash_prepare_step p f (emit mk w) ([mk] ++ hist) M1 M2) as (dp & Htp & Sp & Hok).
  destruct (flash_prepare p f (emit mk w)) as [[ok f1] w1]. cbn [fst snd] in *.
  assert (Sp' : region_step hk init p hist f1 (dp ++ [mk])).
  { eapply region_step_trans; [|exact Sp]. split; [exact M1|]. split; [exact M2|exact M3]. }
  destruct ok; cbn [negb] in H.
  - destruct (flush_loop _ _ _ _ _ _ _ _ _) as [[ret w2]|] eqn:Hl; [|discriminate].
    inversion H; subst. destruct Sp' as (P1 & P2 & P3).
    destruct (flush_loop_step _ _ _ _ _ _ _ _ _ ((dp ++ [mk]) ++ hist) _ _
                ltac:(intros Hh; destruct (P1 Hh) as [_ E]; rewrite <- E; auto) P2 Hl)
      as (d & Ht & Hd & Hq).
    exists (d ++ dp ++ [mk]). split.
    + rewrite Ht, Htp. cbn [trace emit]. rewrite <- !app_assoc. reflexivity.
    + unfold region_step, prep_inv. rewrite <- app_assoc.
      cbn [prepare ready set_buf_addr]. split; [|split].
      * intros Hh. destruct (P1 Hh) as [A B]. split; [exact A|]. rewrite Hq. exact B.
      * exact Hd.
      * intros q Hne. rewrite Hq. apply P3. exact Hne.
  - inversion H; subst. exists (dp ++ [mk]). split; [|exact Sp'].
    rewrite Htp. cbn [trace emit]. rewrite <- app_assoc. reflexivity.
Qed.

Lemma done_body_step p f w (hist : list event) r f' w' :
  prep_inv hk init p f hist -> primitives_prepared hk init hist ->
  done_body p f w = Some (r, f', w') ->
  exists d, trace w' = d ++ trace w /\ region_step hk init p hist f' d.
Proof.
  intros H1 H2 H. unfold done_body in H.
  destruct (flash_done_step p f w hist H1 H2) as (d & Ht & Hs).
  destruct (flash_done p f w) as [[r0 f0] w0]. inversion H; subst. eauto.
Qed.

Lemma flush_done_body_step fuel p f w (hist : list event) r f' w' :
  prep_inv hk init p f hist -> primitives_prepared hk init hist ->
  flush_done_body fuel p f w = Some (r, f', w') ->
  exists d, trace w' = d ++ trace w /\ region_step hk init p hist f' d.
Proof.
  intros H1 H2 H. unfold flush_done_body in H.
  destruct (flash_buffered_flush fuel p f w) as [[[r1 f1] w1]|] eqn:Hf; [|discriminate].
  destruct (flash_buffered_flush_step _ _ _ _ _ _ _ _ H1 H2 Hf) as (d1 & Ht1 & S1).
  pose proof S1 as (A1 & A2 & _).
  destruct (flash_done_step p f1 w1 (d1 ++ hist) A1 A2) as (d2 & Ht2 & S2).
  destruct (flash_done p f1 w1) as [[r2 f2] w2]. cbn [fst snd] in *. inversion H; subst.
  exists (d2 ++ d1). split; [rewrite Ht2, Ht1; apply app_assoc|].
  eapply region_step_trans; eauto.
Qed.

Lemma for_each_flash_step
    (body : nat -> @target_flash D -> @world D -> option (bool * @target_flash D * @world D))
    (except : option nat) :
  (forall p f w hist r f' w',
      prep_inv hk init p f hist -> primitives_prepared hk init hist ->
      body p f w = Some (r, f', w') ->
      exists d, trace w' = d ++ trace w /\ region_step hk init p hist f' d) ->
  forall l k ret w (hist : list event) r l' w',
    (forall i f, nth_error l i = Some f -> prep_inv hk init (k + i) f hist) ->
    primitives_prepared hk init hist ->
    for_each_flash body except k l ret w = Some (r, l', w') ->
    exists d,
      trace w' = d ++ trace w
      /\ (forall i f, nth_error l' i = Some f -> prep_inv hk init (k + i) f (d ++ hist))
      /\ primitives_prepared hk init (d ++ hist)
      /\ (forall q, (q < k)%nat \/ (k + List.length l <= q)%nat \/ except = Some q ->
                    prepared q (init q) (d ++ hist) = prepared q (init q) hist).
Proof.
  intros Hb. induction l as [|f l IH]; intros k ret w hist r l' w' Hinv H2 H; simpl in H.
  - inversion H; subst. exists []. split; [reflexivity|]. split; [exact Hinv|]. auto.
  - destruct (match except with Some q => Nat.eqb k q | None => false end) eqn:Hskip.
    + destruct (for_each_flash body except (S k) l ret w) as [[[r0 l0] w0]|] eqn:Hr;
        [|discriminate].
      inversion H; subst r0 l' w0. clear H.
      destruct (IH (S k) ret w hist r l0 w') as (d & Ht & Hi & Hp & Hq); auto.
      { intros i g Hn. replace (S k + i)%nat with (k + S i)%nat by lia. apply Hinv. exact Hn. }
      exists d. split; [exact Ht|]. split; [|split; [exact Hp|]].
      * intros [|i] g Hn; simpl in Hn.
        -- inversion Hn; subst g. rewrite Nat.add_0_r.
           specialize (Hinv 0%nat f eq_refl). rewrite Nat.add_0_r in Hinv.
           unfold prep_inv in *. intros Hh. destruct (Hinv Hh) as [A B].
           split; [exact A|]. rewrite Hq; [exact B|]. left. lia.
        -- replace (k + S i)%nat with (S k + i)%nat by lia. apply Hi. exact Hn.
      * intros q Hc. apply Hq. simpl in Hc.
        destruct Hc as [Hc|[Hc|Hc]]; [left; lia|right; left; lia|right; right; exact Hc].
    + destruct (body k f w) as [[[r1 f1] w1]|] eqn:Hf; [|discriminate].
      destruct (for_each_flash body except (S k) l (ret && r1) w1) as [[[r0 l0] w0]|] eqn:Hr;
        [|discriminate].
      inversion H; subst r0 l' w0. clear H.
      destruct (Hb k f w hist r1 f1 w1) as (d1 & Ht1 & S1 & S2 & S3); auto.
      { specialize (Hinv 0%nat f eq_refl). rewrite Nat.add_0_r in Hinv. exact Hinv. }
      destruct (IH (S k) (ret && r1) w1 (d1 ++ hist) r l0 w') as (d & Ht & Hi & Hp & Hq);
        auto.
      { intros i g Hn. replace (S k + i)%nat with (k + S i)%nat by lia.
        specialize (Hinv (S i) g Hn). unfold prep_inv in *. intros Hh.
        destruct (Hinv Hh) as [A B]. split; [exact A|]. rewrite S3 by lia. exact B. }
      exists (d ++ d1). rewrite <- !app_assoc.
      split; [rewrite Ht, Ht1; reflexivity|]. split; [|split; [exact Hp|]].
      * intros [|i] g Hn; simpl in Hn.
        -- inversion Hn; subst g. rewrite Nat.add_0_r.
           unfold prep_inv in *. intros Hh. destruct (S1 Hh) as [A B].
           split; [exact A|]. rewrite Hq; [exact B|]. left. lia.
        -- replace (k + S i)%nat with (S k + i)%nat by lia. apply Hi. exact Hn.
      * intros q Hc. simpl in Hc.
        assert (Hne : q <> k).
        { destruct Hc as [Hc|[Hc|Hc]]; try lia. subst except.
          apply Nat.eqb_neq in Hskip. congruence. }
        rewrite Hq, S3; auto.
        destruct Hc as [Hc|[Hc|Hc]]; [left; lia|right; left; lia|right; right; exact Hc].
Qed.

Lemma region_step_same p (hist : list event) f f' (d : list event) :
  prepare f' = prepare f -> ready f' = ready f ->
  region_step hk init p hist f d -> region_step hk init p hist f' d.
Proof.
  intros Hp Hr (A & B & C). split; [|split; [exact B|exact C]].
  unfold prep_inv in *. rewrite Hp, Hr. exact A.
Qed.

Lemma region_step_primitive p (hist : list event) f (e : event) :
  (match e with
   | EvErase q _ _ _ | EvWrite q _ _ _ _ => q = p
   | _ => False
   end) ->
  (hk p = true -> prepared p (init p) hist = true) ->
  prep_inv hk init p f hist -> primitives_prepared hk init hist ->
  region_step hk init p hist f [e].
Proof.
  intros He Hp H1 H2. unfold region_step, prep_inv. cbn [app].
  destruct e; try contradiction; subst; cbn [prepared primitives_prepared]; auto.
Qed.

Lemma buffer_setup_step fuel0 p f (dest : Z) (ret : bool) w (hist : list event)
    ret1 f1 w1 :
  prep_inv hk init p f hist -> primitives_prepared hk init hist ->
  buffer_setup fuel0 p f dest ret w = Some (ret1, f1, w1) ->
  exists d, trace w1 = d ++ trace w /\ region_step hk init p hist f1 d.
Proof.
  intros H1 H2 H. unfold buffer_setup in H. destruct (negb _).
  - destruct (flash_buffered_flush fuel0 p f w) as [[[r0 f0] w0]|] eqn:Hf; [|discriminate].
    destruct (buf f0) as [b0|]; [|discriminate].
    destruct (memset _ _ _); [|discriminate].
    inversion H; subst.
    destruct (flash_buffered_flush_step _ _ _ _ _ _ _ _ H1 H2 Hf) as (d & Ht & Hs).
    exists d. split; [exact Ht|]. eapply region_step_same; [| |exact Hs]; reflexivity.
  - inversion H; subst. exists []. split; [reflexivity|]. apply region_step_nil; auto.
Qed.

Lemma buffered_write_loop_step fuel0 fuel p :
  forall f (dest : Z) (src : list byte) (len : Z) (ret : bool) w (hist : list event)
         r f' w',
    prep_inv hk init p f hist -> primitives_prepared hk init hist ->
    buffered_write_loop fuel0 fuel p f dest src len ret w = Some (r, f', w') ->
    exists d, trace w' = d ++ trace w /\ region_step hk init p hist f' d.
Proof.
  induction fuel as [|fuel IH]; intros f dest src len ret w hist r f' w' H1 H2 H;
    simpl in H.
  - destruct (len =? 0); [|discriminate]. inversion H; subst.
    exists []. split; [reflexivity|]. apply region_step_nil; auto.
  - destruct (len =? 0).
    { inversion H; subst. exists []. split; [reflexivity|]. apply region_step_nil; auto. }
    destruct (writebufsize f =? 0); [discriminate|].
    destruct (buffer_setup fuel0 p f dest ret w) as [[[ret1 f1] w1]|] eqn:Hs; [|discriminate].
    destruct (buffer_setup_step _ _ _ _ _ _ _ _ _ _ H1 H2 Hs) as (d1 & Ht1 & S1).
    destruct (_ <? _); [discriminate|].
    destruct (buf f1) as [b|]; [|discriminate].
    destruct (memcpy_at _ _ _) as [b'|]; [|discriminate].
    set (ev := EvCopy p dest (firstn (Z.to_nat (chunk_len f1 dest len)) src)) in *.
    match type of H with
    | buffered_write_loop _ _ _ ?f2 _ _ _ _ _ = _ =>
        assert (S2 : region_step hk init p (d1 ++ hist) f2 [ev])
    end.
    { destruct S1 as (A & B & _).
      apply (region_step_neutral p (d1 ++ hist) f1 _ ev); auto. }
    pose proof (region_step_trans _ _ _ _ _ _ S1 S2) as S12.
    destruct S12 as (A & B & C).
    apply (IH _ _ _ _ _ _ (([ev] ++ d1) ++ hist)) in H; [|exact A|exact B].
    destruct H as (d & Ht & S3).
    exists (d ++ [ev] ++ d1). split.
    + rewrite Ht. cbn [trace emit]. rewrite Ht1, <- !app_assoc. reflexivity.
    + eapply region_step_trans; [|exact S3]. split; [exact A|]. split; [exact B|exact C].
Qed.

Lemma flash_buffered_write_step fuel p f (dest : Z) (src : list byte) (len : Z) w
    (hist : list event) r f' w' :
  prep_inv hk init p f hist -> primitives_prepared hk init hist ->
  flash_buffered_write malloc fuel p f dest src len w = Some (r, f', w') ->
  exists d, trace w' = d ++ trace w /\ region_step hk init p hist f' d.
Proof.
  intros H1 H2 H. unfold flash_buffered_write in H.
  set (mk := CallBufferedWrite p dest len) in *.
  assert (Smk : region_step hk init p hist f [mk]).
  { apply (region_step_neutral p hist f f mk); auto. }
  destruct (buf f).
  - destruct Smk as (A & B & C).
    apply (buffered_write_loop_step _ _ _ _ _ _ _ _ _ ([mk] ++ hist)) in H; auto.
    destruct H as (d & Ht & S). exists (d ++ [mk]). split.
    + rewrite Ht, <- app_assoc. reflexivity.
    + eapply region_step_trans; [|exact S]. split; [exact A|]. split; [exact B|exact C].
  - unfold call in H. cbn [dev emit] in H.
    destruct (malloc (dev w) (writebufsize f)) as [d0 [init0|]].
    + set (me := EvMalloc p (writebufsize f) true) in *.
      match type of H with
      | buffered_write_loop _ _ _ ?f1 _ _ _ _ _ = _ =>
          assert (Sme : region_step hk init p ([mk] ++ hist) f1 [me])
      end.
      { destruct Smk as (A & B & _).
        apply (region_step_neutral p ([mk] ++ hist) f _ me); auto. }
      pose proof (region_step_trans _ _ _ _ _ _ Smk Sme) as S12.
      destruct S12 as (A & B & C).
      apply (buffered_write_loop_step _ _ _ _ _ _ _ _ _ (([me] ++ [mk]) ++ hist)) in H; auto.
      destruct H as (d & Ht & S). exists (d ++ [me] ++ [mk]). split.
      * rewrite Ht. cbn [trace]. rewrite <- !app_assoc. reflexivity.
      * eapply region_step_trans; [|exact S]. split; [exact A|]. split; [exact B|exact C].
    + inversion H; subst. cbn [trace].
      exists ([EvMalloc p (writebufsize f') false] ++ [mk]). split; [reflexivity|].
      eapply region_step_trans; [exact Smk|].
      destruct Smk as (A & B & _).
      apply (region_step_neutral p ([mk] ++ hist) f' f'); auto.
Qed.

Lemma chain_store (l : list (@target_flash D)) (p : nat) f fX (hist dX : list event) :
  nth_error l p = Some f ->
  chain_inv hk init l hist ->
  region_step hk init p hist fX dX ->
  chain_inv hk init (store p fX l) (dX ++ hist).
Proof.
  intros Hp Hc (A & _ & C) i g Hn.
  destruct (store_nth_inv l p i fX f g Hp Hn) as [[-> ->] | [Hne Hn']]; [exact A|].
  specialize (Hc i g Hn'). unfold prep_inv in *. intros Hh. destruct (Hc Hh) as [X Y].
  split; [exact X|]. rewrite C by exact Hne. exact Y.
Qed.

Lemma chain_neutral (l : list (@target_flash D)) (hist d : list event) :
  forallb neutral d = true ->
  chain_inv hk init l hist -> primitives_prepared hk init hist ->
  chain_inv hk init l (d ++ hist) /\ primitives_prepared hk init (d ++ hist).
Proof.
  induction d as [|e d IH]; intros Hn Hc Hp; [auto|].
  simpl in Hn. apply andb_prop in Hn. destruct Hn as [He Hd].
  destruct (IH Hd Hc Hp) as [Hc' Hp']. cbn [app]. split.
  - intros i g Hg. specialize (Hc' i g Hg). unfold prep_inv in *. intros Hh.
    destruct (Hc' Hh) as [X Y]. split; [exact X|]. rewrite Y.
    destruct e; try discriminate; reflexivity.
  - cbn [primitives_prepared]. split; [destruct e; try discriminate; exact I|exact Hp'].
Qed.

Lemma erase_loop_step fuel :
  forall t addr len ret w (hist : list event) r t' w',
    chain_inv hk init (flash t) hist -> primitives_prepared hk init hist ->
    erase_loop fuel t addr len ret w = Some (r, t', w') ->
    exists d, trace w' = d ++ trace w
              /\ chain_inv hk init (flash t') (d ++ hist)
              /\ primitives_prepared hk init (d ++ hist).
Proof.
  induction fuel as [|fuel IH]; intros t addr len ret w hist r t' w' Hc Hp H; simpl in H.
  - destruct (len =? 0); [|discriminate]. inversion H; subst. exists []. auto.
  - destruct (len =? 0). { inversion H; subst. exists []. auto. }
    destruct (target_flash_for_addr t addr) as [p|]; [|inversion H; subst; exists []; auto].
    destruct (for_each_flash done_body (Some p) 0 (flash t) ret w) as [[[ret1 l1] w1]|] eqn:Ho;
      [|discriminate].
    destruct (for_each_flash_step done_body (Some p) done_body_step (flash t) 0%nat ret w
                hist ret1 l1 w1 Hc Hp Ho) as (d1 & Ht1 & Hc1 & Hp1 & _).
    destruct (nth_error l1 p) as [f|] eqn:Hn; [|discriminate].
    destruct (flash_prepare_step p f w1 (d1 ++ hist) (Hc1 p f Hn) Hp1)
      as (dp & Htp & Sp & Hok).
    destruct (flash_prepare p f w1) as [[ok f1] w2]. cbn [fst snd] in *.
    destruct ok; cbn [negb] in H.
    + unfold call in H. destruct (erase f1 _ _ (dev w2)) as [d0 rc].
      set (ev := EvErase p (align_down addr (blocksize f)) (blocksize f1) rc) in *.
      assert (Se : region_step hk init p (dp ++ d1 ++ hist) f1 [ev]).
      { destruct Sp as (A & B & _). apply region_step_primitive; auto.
        - reflexivity.
        - intros Hh. destruct (A Hh) as [_ E]. rewrite <- E. auto. }
      pose proof (region_step_trans _ _ _ _ _ _ Sp Se) as S2.
      destruct (_ =? 0).
      * pose proof S2 as (A & B & _).
        destruct (flash_done_step p f1 {| dev := d0; trace := ev :: trace w2 |}
                    (([ev] ++ dp) ++ d1 ++ hist) A B) as (dd & Htd & Sd).
        destruct (flash_done p f1 _) as [[rd f2] w4]. cbn [fst snd trace] in *.
        pose proof (region_step_trans _ _ _ _ _ _ S2 Sd) as S3.
        pose proof (chain_store _ _ _ _ _ _ Hn Hc1 S3) as Hc3.
        destruct S3 as (_ & P3 & _).
        apply (IH _ _ _ _ _ ((dd ++ [ev] ++ dp) ++ d1 ++ hist)) in H; auto.
        destruct H as (d & Ht & Hc' & Hp').
        exists (d ++ (dd ++ [ev] ++ dp) ++ d1). rewrite <- !app_assoc in *.
        split; [|auto]. rewrite Ht, Htd, Htp, Ht1. cbn [app]. reflexivity.
      * pose proof (chain_store _ _ _ _ _ _ Hn Hc1 S2) as Hc3.
        destruct S2 as (_ & P3 & _).
        apply (IH _ _ _ _ _ (([ev] ++ dp) ++ d1 ++ hist)) in H; auto.
        destruct H as (d & Ht & Hc' & Hp').
        exists (d ++ ([ev] ++ dp) ++ d1). rewrite <- !app_assoc in *.
        split; [|auto]. rewrite Ht. cbn [trace]. rewrite Htp, Ht1. reflexivity.
    + inversion H; subst.
      pose proof (chain_store _ _ _ _ _ _ Hn Hc1 Sp) as Hc3.
      destruct Sp as (_ & P3 & _).
      exists (dp ++ d1). rewrite <- !app_assoc. split; [|auto].
      rewrite Htp, Ht1. reflexivity.
Qed.

Lemma write_loop_step fuel0 fuel :
  forall t (dest : Z) (src : list byte) (len : Z) (ret : bool) w (hist : list event)
         r t' w',
    chain_inv hk init (flash t) hist -> primitives_prepared hk init hist ->
    write_loop malloc fuel0 fuel t dest src len ret w = Some (r, t', w') ->
    exists d, trace w' = d ++ trace w
              /\ chain_inv hk init (flash t') (d ++ hist)
              /\ primitives_prepared hk init (d ++ hist).
Proof.
  induction fuel as [|fuel IH]; intros t dest src len ret w hist r t' w' Hc Hp H;
    simpl in H.
  - destruct (len =? 0); [|discriminate]. inversion H; subst. exists []. auto.
  - destruct (len =? 0). { inversion H; subst. exists []. auto. }
    destruct (target_flash_for_addr t dest) as [p|]; [|inversion H; subst; exists []; auto].
    destruct (for_each_flash (flush_done_body fuel0) (Some p) 0 (flash t) ret w)
      as [[[ret1 l1] w1]|] eqn:Ho; [|discriminate].
    destruct (for_each_flash_step (flush_done_body fuel0) (Some p)
                (flush_done_body_step fuel0) (flash t) 0%nat ret w hist ret1 l1 w1 Hc Hp Ho)
      as (d1 & Ht1 & Hc1 & Hp1 & _).
    destruct (nth_error l1 p) as [f|] eqn:Hn; [|discriminate].
    destruct (flash_buffered_write _ _ _ _ _ _ _ _) as [[[r2 f1] w2]|] eqn:Hb; [|discriminate].
    destruct (flash_buffered_write_step _ _ _ _ _ _ _ (d1 ++ hist) _ _ _
                (Hc1 p f Hn) Hp1 Hb) as (d2 & Ht2 & S2).
    destruct (_ =? _).
    + destruct (flash_buffered_flush fuel0 p f1 w2) as [[[r3 f2] w3]|] eqn:Hf; [|discriminate].
      pose proof S2 as (A2 & B2 & _).
      destruct (flash_buffered_flush_step _ _ _ _ _ _ _ _ A2 B2 Hf) as (d3 & Ht3 & S3).
      pose proof (region_step_trans _ _ _ _ _ _ S2 S3) as S23.
      pose proof S23 as (A3 & B3 & _).
      destruct (flash_done_step p f2 w3 ((d3 ++ d2) ++ d1 ++ hist) A3 B3) as (d4 & Ht4 & S4).
      destruct (flash_done p f2 w3) as [[r4 f3] w4]. cbn [fst snd] in *.
      pose proof (region_step_trans _ _ _ _ _ _ S23 S4) as S5.
      pose proof (chain_store _ _ _ _ _ _ Hn Hc1 S5) as Hc5.
      destruct S5 as (_ & P5 & _).
      apply (IH _ _ _ _ _ _ ((d4 ++ d3 ++ d2) ++ d1 ++ hist)) in H; auto.
      destruct H as (d & Ht & Hc' & Hp').
      exists (d ++ (d4 ++ d3 ++ d2) ++ d1). rewrite <- !app_assoc in *.
      split; [|auto]. rewrite Ht, Ht4, Ht3, Ht2, Ht1. reflexivity.
    + pose proof (chain_store _ _ _ _ _ _ Hn Hc1 S2) as Hc5.
      destruct S2 as (_ & P5 & _).
      apply (IH _ _ _ _ _ _ (d2 ++ d1 ++ hist)) in H; auto.
      destruct H as (d & Ht & Hc' & Hp').
      exists (d ++ d2 ++ d1). rewrite <- !app_assoc in *.
      split; [|auto]. rewrite Ht, Ht2, Ht1. reflexivity.
Qed.

Lemma enter_flash_mode_neutral t w :
  exists d0,
    trace (snd (target_enter_flash_mode target_reset t w)) = d0 ++ trace w
    /\ flash (snd (fst (target_enter_flash_mode target_reset t w))) = flash t
    /\ forallb neutral d0 = true.
Proof.
  unfold target_enter_flash_mode, call. destruct (flash_mode t).
  - exists []. auto.
  - destruct (enter_flash_mode t) as [h|].
    + destruct (h (dev w)) as [d ok]. exists [EvEnterFlashMode ok].
      destruct ok; cbn; auto.
    + exists [EvReset]. cbn. auto.
Qed.

End Prepared.

Section PreparedOperations.

Context {D : Type}.
Variable malloc : D -> Z -> D * option (nat -> byte).
Variable target_reset : D -> D.
Implicit Types (t : @target D) (w : @world D) (f : @target_flash D).

Lemma chain_inv_start t :
  chain_inv (hooked (flash t)) (ready_of (flash t)) (flash t) [].
Proof.
  intros p f Hn Hh. unfold hooked, ready_of in *. rewrite Hn in *. cbn [prepared].
  split; [|reflexivity]. destruct (prepare f); [discriminate|discriminate].
Qed.

(** X16: the primitives of a region are called on a prepared region
    only.  In the calls made by [target_flash_erase],
    [target_flash_write] and [target_flash_complete], every call of an erase
    or write primitive on a region that has a prepare hook comes when the
    region is prepared: it was ready at the start or its prepare hook has
    answered success, and [flash_done] has not retired it since. *)
Theorem primitives_are_called_on_prepared_regions
    (fuel : nat) t (addr len : Z) (src : list byte) w :
  (forall r t' w',
     target_flash_erase target_reset fuel t addr len w = Some (r, t', w') ->
     exists new, trace w' = new ++ trace w
                 /\ primitives_prepared (hooked (flash t)) (ready_of (flash t)) new)
  /\ (forall r t' w',
        target_flash_write malloc target_reset fuel t addr src len w = Some (r, t', w') ->
        exists new, trace w' = new ++ trace w
                    /\ primitives_prepared (hooked (flash t)) (ready_of (flash t)) new)
  /\ (forall r t' w',
        target_flash_complete target_reset fuel t w = Some (r, t', w') ->
        exists new, trace w' = new ++ trace w
                    /\ primitives_prepared (hooked (flash t)) (ready_of (flash t)) new).
Proof.
  set (hk := hooked (flash t)). set (init := ready_of (flash t)).
  pose proof (chain_inv_start t) as Hc0. fold hk init in Hc0.
  split; [|split]; intros r t' w' H.
  - unfold target_flash_erase in H.
    destruct (enter_flash_mode_neutral target_reset t w) as (d0 & Ht0 & Hfl & Hn0).
    destruct (chain_neutral hk init (flash t) [] d0 Hn0 Hc0 I) as [Hc1 Hp1].
    destruct (target_enter_flash_mode target_reset t w) as [[ok t1] w1]. cbn [fst snd] in *.
    destruct ok; cbn [negb] in H.
    + rewrite <- Hfl in Hc1.
      destruct (erase_loop_step hk init fuel _ _ _ _ _ (d0 ++ []) _ _ _ Hc1 Hp1 H)
        as (d & Ht & _ & Hp).
      exists (d ++ d0). split; [rewrite Ht, Ht0; apply app_assoc|].
      rewrite app_nil_r in Hp. exact Hp.
    + inversion H; subst. exists d0. split; [exact Ht0|].
      rewrite app_nil_r in Hp1. exact Hp1.
  - unfold target_flash_write in H.
    destruct (enter_flash_mode_neutral target_reset t w) as (d0 & Ht0 & Hfl & Hn0).
    destruct (chain_neutral hk init (flash t) [] d0 Hn0 Hc0 I) as [Hc1 Hp1].
    destruct (target_enter_flash_mode target_reset t w) as [[ok t1] w1]. cbn [fst snd] in *.
    destruct ok; cbn [negb] in H.
    + rewrite <- Hfl in Hc1.
      destruct (write_loop_step malloc hk init fuel fuel _ _ _ _ _ _ (d0 ++ []) _ _ _
                  Hc1 Hp1 H) as (d & Ht & _ & Hp).
      exists (d ++ d0). split; [rewrite Ht, Ht0; apply app_assoc|].
      rewrite app_nil_r in Hp. exact Hp.
    + inversion H; subst. exists d0. split; [exact Ht0|].
      rewrite app_nil_r in Hp1. exact Hp1.
  - unfold target_flash_complete in H. destruct (flash_mode t) eqn:Hm; cbn [negb] in H.
    + destruct (for_each_flash (flush_done_body fuel) None 0 (flash t) true w)
        as [[[ret l1] w1]|] eqn:Ho; [|discriminate].
      destruct (for_each_flash_step hk init (flush_done_body fuel) None
                  (flush_done_body_step hk init fuel) (flash t) 0%nat true w [] ret l1 w1
                  Hc0 I Ho)
        as (d1 & Ht1 & Hc1 & Hp1 & _).
      assert (Hx : exists dx,
                 trace (snd (target_exit_flash_mode target_reset (set_flash t l1) w1))
                 = dx ++ trace w1 /\ forallb neutral dx = true).
      { unfold target_exit_flash_mode, call. destruct (negb _); [exists []; auto|].
        destruct (exit_flash_mode _) as [h|].
        - destruct (h (dev w1)) as [d0 r0]. exists [EvExitFlashMode r0]. auto.
        - exists [EvReset]. auto. }
      destruct Hx as (dx & Htx & Hnx).
      destruct (target_exit_flash_mode target_reset (set_flash t l1) w1) as [[x t3] w4].
      cbn [snd] in Htx. inversion H; subst.
      assert (Hc1' : chain_inv hk init l1 (d1 ++ [])).
      { intros i g Hg. apply (Hc1 i g Hg). }
      destruct (chain_neutral hk init l1 (d1 ++ []) dx Hnx Hc1' Hp1) as [_ Hp2].
      exists (dx ++ d1). split; [rewrite Htx, Ht1; apply app_assoc|].
      rewrite app_nil_r in Hp2. exact Hp2.
    + inversion H; subst. exists []. split; [reflexivity|exact I].
Qed.

End PreparedOperations.

(** ** A session of writes *)

Lemma same_regions_nth_l {D : Type} (l l' : list (@target_flash D)) :
  same_regions l l' ->
  forall p f, nth_error l p = Some f ->
              exists g, nth_error l' p = Some g /\ static g = static f.
Proof.
  unfold same_regions. induction 1 as [|f f' l l' Hs _ IH]; intros [|p] g Hn; simpl in *;
    try discriminate.
  - inversion Hn; subst. eauto.
  - eauto.
Qed.

Section WriteSession.

Context {D : Type}.
Variable malloc : D -> Z -> D * option (nat -> byte).
Variable target_reset : D -> D.
Implicit Types (t : @target D) (w : @world D) (f : @target_flash D).

(** C1: take a target whose regions have power-of-two [writesize] and
    [writebufsize] with [writesize <= writebufsize], prepare hooks that do
    not fail and no buffer yet, an allocator that does not fail, and any
    sequence of write requests lying below the top address.  The session
    returns, and in the events it adds to the trace every call of a write
    primitive carries [writesize] bytes, each of them the byte buffered for
    its address when the flush began (the latest chunk copied over it) or
    the erased value where none was, and the erased value outside the dirty
    range the flush found; every chunk copied is what one of the requests
    supplies for its destination.  Moreover, when flash mode is entered and
    the requests lie on owned addresses, every supplied byte whose address
    no later request of the session writes to has been handed to the write
    primitive of the region that holds the address, at that address, or it
    lies in the scratch buffer of that region inside the dirty range, and
    the next flush of the region hands it to the write primitive. *)
Theorem target_flash_write_delivers_supplied_bytes
    (fuel : nat) t (reqs : list (Z * list byte)) w :
  malloc_succeeds malloc ->
  Forall (fun f => region_ok f /\ buf f = None
                   /\ (Z.to_nat (writebufsize f) <= fuel)%nat) (flash t) ->
  Forall (fun req => 0 <= fst req
                     /\ fst req + Z.of_nat (List.length (snd req)) <= UINT32_MAX
                     /\ (List.length (snd req) <= fuel)%nat) reqs ->
  exists rs t' w' new,
    target_flash_write_all malloc target_reset fuel t reqs w = Some (rs, t', w')
    /\ trace w' = new ++ trace w
    /\ writes_ok (geometry (flash t)) new
    /\ copies_ok reqs new
    /\ (fst (fst (target_enter_flash_mode target_reset t w)) = true ->
        Forall (owned t) reqs ->
        forall pre dest src post k v,
          reqs = pre ++ (dest, src) :: post -> nth_error src k = Some v ->
          not_rewritten post (dest + Z.of_nat k) ->
          exists p f',
            holds (flash t) p (dest + Z.of_nat k)
            /\ nth_error (flash t') p = Some f'
            /\ (delivered p new (dest + Z.of_nat k) v
                \/ (buffered f' (dest + Z.of_nat k) v
                    /\ flushed_next fuel p f' (dest + Z.of_nat k) v))).
Proof.
  intros Hmal Hregs Hreqs.
  assert (Hinv : forall i g, nth_error (flash t) i = Some g ->
                             reg_inv (geometry (flash t)) fuel i g []).
  { intros i g Hn. rewrite Forall_forall in Hregs.
    destruct (Hregs g (nth_error_In _ _ Hn)) as (Hok & Hb & Hf).
    unfold reg_inv. split; [exact Hok|]. split; [|split; [exact Hf|]].
    + unfold geometry. rewrite Hn. reflexivity.
    + unfold seg_inv. rewrite Hb. reflexivity. }
  destruct (target_flash_write_all_ok malloc target_reset (geometry (flash t)) fuel reqs
              Hmal Hreqs t w [] Hinv)
    as (rs & t' & w' & d & Hrun & Ht & Hc & Hw).
  exists rs, t', w', d. split; [exact Hrun|]. split; [exact Ht|].
  split; [rewrite <- (app_nil_r d); apply Hw; exact I|]. split; [exact Hc|].
  intros Hen Hown pre dest src post k v Hs Hv Hpost.
  destruct (target_flash_write_all_latest malloc target_reset (geometry (flash t)) fuel reqs
              Hmal Hreqs t w [] Hinv Hown Hen)
    as (rs2 & t2 & w2 & d2 & Hrun2 & Ht2 & Hi2 & (Hsame & _) & _ & Hlast).
  rewrite Hrun in Hrun2. inversion Hrun2; subst rs2 t2 w2.
  assert (d2 = d) by (apply (app_inv_tail (trace w)); congruence). subst d2.
  destruct (Hlast pre dest src post k v Hs Hv Hpost) as (p & Hh & Hdue).
  rewrite app_nil_r in Hdue.
  destruct Hh as (f & Hn & Hin).
  destruct (same_regions_nth_l _ _ Hsame p f Hn) as (f' & Hn' & _).
  exists p, f'. split; [exists f; auto|]. split; [exact Hn'|].
  destruct Hdue as [Hp|Hdel]; [right|left; exact Hdel].
  pose proof (Hi2 p f' Hn') as Hr. rewrite app_nil_r in Hr.
  split.
  - eapply pending_buffered; eauto.
  - eapply pending_flushed_next; eauto.
Qed.

End WriteSession.

(** * The properties on the example targets *)

Import Examples.

(** ** The scenarios of the specification *)

(** Erasing sixteen bytes at 0x08000010 erases the whole first block. *)
Example erase_scenario :
  option_map (fun r => erase_calls (rev (trace (snd r))))
             (target_flash_erase no_reset 16 board 0x08000010 0x10 power_on)
  = Some [(0%nat, 0x08000000, 0x400)].
Proof. reflexivity. Qed.

(** Sixteen bytes written at 0x080000F8: once the page boundary is crossed
    the first eight go out in one 16-byte write at 0x080000F0, over the
    erased fill; the other eight stay buffered. *)
Example write_scenario :
  option_map (fun r => write_calls (rev (trace (snd r))))
             (target_flash_write heap no_reset 256 board 0x080000F8 sixteen 16 power_on)
  = Some [(0%nat, 0x080000F0,
           [xff; xff; xff; xff; xff; xff; xff; xff;
            x00; x01; x02; x03; x04; x05; x06; x07])].
Proof. vm_compute. reflexivity. Qed.

(** An address past every region: the erase fails without touching a region. *)
Example unowned_address_scenario :
  target_flash_for_addr board 0x09000000 = None
  /\ target_flash_erase no_reset 16 board 0x09000000 0x10 power_on
     = Some (false, set_flash_mode board true, {| dev := tt; trace := [EvReset] |}).
Proof. split; reflexivity. Qed.

(** ** Witnesses *)

Lemma region_a_owns (x : Z) :
  0x08000000 <= x < 0x08001000 -> target_flash_for_addr board x = Some 0%nat.
Proof.
  intros Hx. unfold target_flash_for_addr, board, region_a, region.
  cbn [flash flash_for_addr_from start length].
  change (wrap32 (134217728 + 4096)) with 134221824.
  destruct (Z.leb_spec 134217728 x); [|lia].
  destruct (Z.ltb_spec x 134221824); [reflexivity|lia].
Qed.

(** The erase scenario: sixteen bytes inside the first block of region A. *)
Lemma target_flash_erase_covering_blocks_witness :
  exists r t' w' new,
    target_flash_erase no_reset 16 board 0x08000010 0x10 power_on = Some (r, t', w')
    /\ trace w' = new ++ trace power_on
    /\ erase_calls (rev new) =
       map (fun b => (0%nat, b, blocksize region_a))
           (covering_blocks 0x08000010 0x10 (blocksize region_a))
    /\ NoDup (covering_blocks 0x08000010 0x10 (blocksize region_a))
    /\ (forall b, In b (covering_blocks 0x08000010 0x10 (blocksize region_a)) <->
                  (b mod blocksize region_a = 0 /\ b < 0x08000010 + 0x10
                   /\ 0x08000010 < b + blocksize region_a)).
Proof.
  apply target_flash_erase_covering_blocks.
  - reflexivity.
  - reflexivity.
  - reflexivity.
  - right. intros d. reflexivity.
  - lia.
  - lia.
  - intros x Hx. apply region_a_owns. lia.
  - simpl. lia.
Defined.


Lemma flash_prepare_done_idempotent_witness :
  (let '(r1, f1, w1) := flash_prepare 0 region_a power_on in
   let '(r2, f2, w2) := flash_prepare 0 f1 w1 in
   r1 = true /\ r2 = true /\ f2 = f1 /\ w2 = w1 /\ ready f1 = true /\
   (calls (is_prepare_hook 0) (trace w2)
    <= calls (is_prepare_hook 0) (trace power_on) + 1)%nat)
  /\ (let f := set_ready (dirty_region None 0) true in
      ready f = true /\ buf (snd (fst (flash_done 0 f power_on))) = None).
Proof.
  split.
  - pose proof (flash_prepare_done_idempotent 0 region_a power_on) as H.
    cbn in H |- *. destruct H as [H _]. split; [reflexivity|]. apply H. reflexivity.
  - pose proof (flash_prepare_done_idempotent 0 (set_ready (dirty_region None 0) true)
                  power_on) as H.
    cbn in H |- *. destruct H as (_ & _ & _ & _ & H & _). split; [reflexivity|].
    apply H. reflexivity.
Defined.

Lemma target_flash_complete_not_in_flash_mode_witness :
  flash_mode board = false
  /\ target_flash_complete no_reset 256 board power_on = Some (false, board, power_on).
Proof.
  split; [reflexivity|].
  apply target_flash_complete_not_in_flash_mode. reflexivity.
Defined.

(** A flush whose write primitive fails. *)
Lemma flash_buffered_flush_resets_sentinels_witness :
  exists r f' w',
    flash_buffered_flush 8 0 (dirty_region (Some (hook true)) 1) power_on = Some (r, f', w')
    /\ r = false
    /\ buf_addr_base f' = UINT32_MAX /\ buf_addr_low f' = UINT32_MAX
    /\ buf_addr_high f' = 0
    /\ buf f' = Some [xff; xff; xff; xff; xff; xff; x01; x02].
Proof.
  let v := eval vm_compute in
             (flash_buffered_flush 8 0 (dirty_region (Some (hook true)) 1) power_on) in
  match v with
  | Some (?r, ?f', ?w') =>
      exists r, f', w';
      assert (E : flash_buffered_flush 8 0 (dirty_region (Some (hook true)) 1) power_on
                  = Some (r, f', w')) by (vm_compute; reflexivity);
      split; [exact E|]; split; [reflexivity|];
      apply (fun h1 h2 h3 h4 h5 =>
               flash_buffered_flush_resets_sentinels 8 0
                 (dirty_region (Some (hook true)) 1) power_on
                 [xff; xff; xff; xff; xff; xff; x01; x02] h1 h2 h3 h4 h5 r f' w' E);
      [reflexivity | discriminate | discriminate | simpl; lia | reflexivity]
  end.
Defined.

(** Leaving flash mode with an exit hook that fails, and outside flash mode. *)
Lemma target_exit_flash_mode_clears_witness :
  flash_mode (snd (fst (target_exit_flash_mode no_reset
                          (set_flash_mode locked_board true) power_on))) = false
  /\ target_exit_flash_mode no_reset board power_on = (true, board, power_on).
Proof.
  split.
  - apply (target_exit_flash_mode_clears no_reset (set_flash_mode locked_board true) power_on).
    reflexivity.
  - apply (target_exit_flash_mode_clears no_reset board power_on). reflexivity.
Defined.

Lemma region_erase_fails_owns (x : Z) :
  0x08000000 <= x < 0x08001000 -> target_flash_for_addr board_erase_fails x = Some 0%nat.
Proof.
  intros Hx. unfold target_flash_for_addr, board_erase_fails, region.
  cbn [flash flash_for_addr_from start length].
  change (wrap32 (134217728 + 4096)) with 134221824.
  destruct (Z.leb_spec 134217728 x); [|lia].
  destruct (Z.ltb_spec x 134221824); [reflexivity|lia].
Qed.

(** Three blocks, each erase failing: all three are attempted. *)
Lemma target_flash_erase_aggregates_results_witness :
  exists r t' w' new,
    target_flash_erase no_reset 2048 board_erase_fails 0x080003F0 0x420 power_on
    = Some (r, t', w')
    /\ trace w' = new ++ trace power_on
    /\ map fst (erase_calls (rev new)) =
       map (fun b => (0%nat, b)) (covering_blocks 0x080003F0 0x420 0x400)
    /\ (calls is_prepare new <= 1)%nat
    /\ r = forallb erase_ok new && forallb done_ok new.
Proof.
  apply (target_flash_erase_aggregates_results no_reset 2048 board_erase_fails
           0x080003F0 0x420 power_on 0
           (region 0x08000000 0x1000 0x400 0x10 0x100
                   (Some (hook true)) (Some (hook true)) 1 0)).
  - reflexivity.
  - reflexivity.
  - reflexivity.
  - right. intros d. reflexivity.
  - lia.
  - lia.
  - intros x Hx. apply region_erase_fails_owns. lia.
  - simpl. lia.
Defined.

Lemma buffered_write_chunk_in_bounds_witness :
  chunk_offset region_a 0x080000F8 = 0xF8
  /\ chunk_len region_a 0x080000F8 16 = 8
  /\ chunk_offset region_a 0x080000F8 + chunk_len region_a 0x080000F8 16
     <= writebufsize region_a.
Proof.
  split; [reflexivity|]. split; [reflexivity|].
  apply (buffered_write_chunk_in_bounds region_a 0x080000F8 16); simpl; lia.
Defined.

Lemma erase_write_keep_flash_mode_witness :
  exists r t' w',
    target_flash_write heap no_reset 256 board 0x08000FF8 sixteen 16 power_on
    = Some (r, t', w')
    /\ flash_mode t' = true.
Proof.
  let v := eval vm_compute in
             (target_flash_write heap no_reset 256 board 0x08000FF8 sixteen 16 power_on) in
  match v with
  | Some (?r, ?t', ?w') =>
      exists r, t', w';
      assert (E : target_flash_write heap no_reset 256 board 0x08000FF8 sixteen 16 power_on
                  = Some (r, t', w')) by (vm_compute; reflexivity);
      split; [exact E|];
      apply (proj1 (proj2 (erase_write_keep_flash_mode heap no_reset 256 board
                             0x08000FF8 16 sixteen power_on eq_refl)) r t' w' E)
  end.
Defined.

(** ** Where the claims as written fail *)

(** C2 as written: the request lies inside region A, whose block size is
    a power of two, but the enter-flash-mode hook fails, or the prepare
    hook fails, and no block is erased. *)
Lemma erase_without_flash_mode_or_prepare :
  is_pow2 (blocksize region_a) = true
  /\ target_flash_for_addr locked_board 0x08000010 = Some 0%nat
  /\ target_flash_for_addr locked_board 0x0800001F = Some 0%nat
  /\ covering_blocks 0x08000010 0x10 (blocksize region_a) = [0x08000000]
  /\ target_flash_erase no_reset 16 locked_board 0x08000010 0x10 power_on
     = Some (false, locked_board, {| dev := tt; trace := [EvEnterFlashMode false] |})
  /\ erase_calls (rev [EvEnterFlashMode false])
     <> map (fun b => (0%nat, b, blocksize region_a))
            (covering_blocks 0x08000010 0x10 (blocksize region_a))
  /\ target_flash_erase no_reset 16 board_unprepared 0x08000010 0x10 power_on
     = Some (false, set_flash_mode board_unprepared true,
             {| dev := tt; trace := [EvPrepare 0 false; EvReset] |})
  /\ erase_calls (rev [EvPrepare 0 false; EvReset])
     <> map (fun b => (0%nat, b, blocksize region_unprepared))
            (covering_blocks 0x08000010 0x10 (blocksize region_unprepared)).
Proof. repeat split; try reflexivity; discriminate. Qed.

(** C4 as written: a prepare hook that fails is run by both of two
    consecutive [flash_prepare] calls. *)
Lemma prepare_hook_runs_twice_when_failing :
  let '(r1, f1, w1) := flash_prepare 0 region_unprepared power_on in
  let '(r2, f2, w2) := flash_prepare 0 f1 w1 in
  r1 = false /\ r2 = false
  /\ calls (is_prepare_hook 0) (trace w2) = 2%nat
  /\ ~ (calls (is_prepare_hook 0) (trace w2)
        <= calls (is_prepare_hook 0) (trace power_on) + 1)%nat.
Proof. cbn. repeat split; try reflexivity. lia. Qed.

(** C6 as written: with an active segment and a prepare hook that fails,
    the flush returns with the sentinels as they were. *)
Lemma flush_keeps_sentinels_when_prepare_fails :
  exists f' w',
    flash_buffered_flush 8 0 (dirty_region (Some (hook false)) 0) power_on
    = Some (false, f', w')
    /\ buf f' <> None
    /\ buf_addr_base f' = 0x08000000 /\ buf_addr_base f' <> UINT32_MAX
    /\ buf_addr_low f' = 0x08000006 /\ buf_addr_low f' <> UINT32_MAX
    /\ buf_addr_high f' = 0x08000008 /\ buf_addr_high f' <> 0.
Proof.
  eexists _, _. split; [vm_compute; reflexivity|].
  cbn. repeat split; discriminate.
Qed.

(** C8 as written: the one block is erased with success, the done hook
    fails, and the result is [false]. *)
Lemma erase_result_includes_done_hook :
  exists t' w',
    target_flash_erase no_reset 16 board_done_fails 0x08000010 0x10 power_on
    = Some (false, t', w')
    /\ erase_calls (rev (trace w')) = [(0%nat, 0x08000000, 0x400)]
    /\ forallb erase_ok (trace w') = true
    /\ false <> forallb erase_ok (trace w').
Proof.
  eexists _, _. split; [vm_compute; reflexivity|].
  cbn. repeat split; discriminate.
Qed.

(** ** The further properties on the example targets *)

Lemma operations_keep_regions_witness :
  exists r t' w',
    target_flash_write heap no_reset 256 board 0x08000FF8 sixteen 16 power_on
    = Some (r, t', w')
    /\ same_target board t'.
Proof.
  let v := eval vm_compute in
             (target_flash_write heap no_reset 256 board 0x08000FF8 sixteen 16 power_on) in
  match v with
  | Some (?r, ?t', ?w') =>
      exists r, t', w';
      assert (E : target_flash_write heap no_reset 256 board 0x08000FF8 sixteen 16 power_on
                  = Some (r, t', w')) by (vm_compute; reflexivity);
      split; [exact E|];
      apply (proj1 (proj2 (operations_keep_regions heap no_reset 256 board
                             0x08000FF8 16 sixteen power_on)) r t' w' E)
  end.
Defined.

Lemma operations_event_classes_witness :
  exists r t' w',
    target_flash_erase no_reset 16 board 0x08000010 0x10 power_on = Some (r, t', w')
    /\ exists new, trace w' = new ++ trace power_on /\ forallb erase_family new = true.
Proof.
  let v := eval vm_compute in
             (target_flash_erase no_reset 16 board 0x08000010 0x10 power_on) in
  match v with
  | Some (?r, ?t', ?w') =>
      exists r, t', w';
      assert (E : target_flash_erase no_reset 16 board 0x08000010 0x10 power_on
                  = Some (r, t', w')) by (vm_compute; reflexivity);
      split; [exact E|];
      apply (proj1 (operations_event_classes heap no_reset 16 board
                      0x08000010 0x10 sixteen power_on) r t' w' E)
  end.
Defined.

Lemma results_vouch_for_answers_witness :
  exists t' w',
    target_flash_write heap no_reset 256 board 0x08000FF8 sixteen 16 power_on
    = Some (true, t', w')
    /\ exists new, trace w' = new ++ trace power_on /\ forallb op_ok new = true.
Proof.
  let v := eval vm_compute in
             (target_flash_write heap no_reset 256 board 0x08000FF8 sixteen 16 power_on) in
  match v with
  | Some (true, ?t', ?w') =>
      exists t', w';
      assert (E : target_flash_write heap no_reset 256 board 0x08000FF8 sixteen 16 power_on
                  = Some (true, t', w')) by (vm_compute; reflexivity);
      split; [exact E|];
      apply (proj1 (proj2 (results_vouch_for_answers heap no_reset 256 board
                             0x08000FF8 16 sixteen power_on)) t' w' E)
  end.
Defined.

(** An address past every region, on a board that enters flash mode by a
    reset. *)
Lemma unowned_address_fails_after_entering_flash_mode_witness :
  target_flash_for_addr board 0x09000000 = None
  /\ target_flash_erase no_reset 1 board 0x09000000 0x10 power_on
     = Some (false, set_flash_mode board true, {| dev := tt; trace := [EvReset] |})
  /\ target_flash_write heap no_reset 1 board 0x09000000 sixteen 0x10 power_on
     = Some (false, set_flash_mode board true, {| dev := tt; trace := [EvReset] |})
  /\ flash (set_flash_mode board true) = flash board.
Proof.
  split; [reflexivity|].
  apply (unowned_address_fails_after_entering_flash_mode heap no_reset 0 board
           0x09000000 0x10 sixteen power_on); [reflexivity|discriminate].
Defined.

(** Completing on the board whose first region holds unflushed bytes, with
    an exit hook that fails. *)
Lemma target_flash_complete_retires_every_region_witness :
  flash_mode dirty_board = true
  /\ exists r t' w',
      target_flash_complete no_reset 8 dirty_board power_on = Some (r, t', w')
      /\ flash_mode t' = false
      /\ Forall2 (fun f f' =>
                    ready f' = false
                    /\ (prepare_succeeds f ->
                        flushed f' /\ (ready f = true \/ ~ flushed f -> buf f' = None)))
                 (flash dirty_board) (flash t').
Proof.
  split; [reflexivity|].
  let v := eval vm_compute in (target_flash_complete no_reset 8 dirty_board power_on) in
  match v with
  | Some (?r, ?t', ?w') =>
      exists r, t', w';
      assert (E : target_flash_complete no_reset 8 dirty_board power_on = Some (r, t', w'))
        by (vm_compute; reflexivity);
      split; [exact E|];
      apply (target_flash_complete_retires_every_region no_reset 8 dirty_board power_on
               eq_refl r t' w' E)
  end.
Defined.

(** The flush of the small page with two bytes buffered at its end: one
    call, for the block at 0x08000004. *)
Lemma flash_buffered_flush_writes_dirty_blocks_witness :
  covering_blocks 0x08000006 2 4 = [0x08000004]
  /\ buffer_span [xff; xff; xff; xff; xff; xff; x01; x02] 0x08000000 0x08000004 4
     = [xff; xff; x01; x02]
  /\ exists r f' w' new,
      flash_buffered_flush 8 0 (dirty_region (Some (hook true)) 0) power_on
      = Some (r, f', w')
      /\ trace w' = new ++ trace power_on
      /\ write_calls (rev new)
         = map (fun a => (0%nat, a,
                          buffer_span [xff; xff; xff; xff; xff; xff; x01; x02]
                                      0x08000000 a 4))
               (covering_blocks 0x08000006 (0x08000008 - 0x08000006) 4)
      /\ NoDup (covering_blocks 0x08000006 (0x08000008 - 0x08000006) 4)
      /\ (forall a, In a (covering_blocks 0x08000006 (0x08000008 - 0x08000006) 4) <->
                    a mod 4 = 0 /\ a < 0x08000008 /\ 0x08000006 < a + 4).
Proof.
  split; [reflexivity|]. split; [reflexivity|].
  apply (flash_buffered_flush_writes_dirty_blocks 8 0 (dirty_region (Some (hook true)) 0)
           power_on [xff; xff; xff; xff; xff; xff; x01; x02]).
  - reflexivity.
  - reflexivity.
  - reflexivity.
  - reflexivity.
  - simpl. lia.
  - reflexivity.
  - simpl. lia.
  - simpl. lia.
  - simpl. lia.
  - simpl. unfold UINT32_MAX. lia.
  - right. intros d. reflexivity.
  - simpl. lia.
Defined.

Lemma board_owns (x : Z) :
  0x08000000 <= x < 0x08002000 -> target_flash_for_addr board x <> None.
Proof.
  intros Hx. unfold target_flash_for_addr, board, region_a, region_b, region.
  cbn [flash flash_for_addr_from start length].
  change (wrap32 (134217728 + 4096)) with 134221824.
  change (wrap32 (134221824 + 4096)) with 134225920.
  destruct (Z.leb_spec 134217728 x); [|lia].
  destruct (Z.ltb_spec x 134221824); [discriminate|]. cbn [andb].
  destruct (Z.leb_spec 134221824 x); [|lia].
  destruct (Z.ltb_spec x 134225920); [discriminate|lia].
Qed.

(** The session of the write scenario: sixteen bytes across the end of
    region A, on a board with 256-byte pages and 16-byte writes.  The first
    eight bytes are flushed at the end of region A, the other eight wait in
    the buffer of region B. *)
Lemma target_flash_write_delivers_supplied_bytes_witness :
  exists rs t' w' new,
    target_flash_write_all heap no_reset 256 board [(0x08000FF8, sixteen)] power_on
    = Some (rs, t', w')
    /\ trace w' = new ++ trace power_on
    /\ writes_ok (geometry (flash board)) new
    /\ copies_ok [(0x08000FF8, sixteen)] new
    /\ forall k v,
         nth_error sixteen k = Some v ->
         exists p f',
           holds (flash board) p (0x08000FF8 + Z.of_nat k)
           /\ nth_error (flash t') p = Some f'
           /\ (delivered p new (0x08000FF8 + Z.of_nat k) v
               \/ (buffered f' (0x08000FF8 + Z.of_nat k) v
                   /\ flushed_next 256 p f' (0x08000FF8 + Z.of_nat k) v)).
Proof.
  destruct (target_flash_write_delivers_supplied_bytes heap no_reset 256 board
              [(0x08000FF8, sixteen)] power_on)
    as (rs & t' & w' & new & Hrun & Ht & Hw & Hc & Hd).
  - intros d n. discriminate.
  - apply Forall_cons; [|apply Forall_cons; [|apply Forall_nil]];
      (split; [|split; [reflexivity|simpl; lia]]);
      (split; [reflexivity|]; split; [reflexivity|]; split; [simpl; lia|]);
      intros d; reflexivity.
  - apply Forall_cons; [|apply Forall_nil]. simpl. unfold UINT32_MAX. lia.
  - exists rs, t', w', new. split; [exact Hrun|]. split; [exact Ht|].
    split; [exact Hw|]. split; [exact Hc|].
    intros k v Hv.
    apply (Hd eq_refl) with (pre := []) (src := sixteen) (post := []).
    + apply Forall_cons; [|apply Forall_nil]. intros i Hi. cbn [fst snd] in *.
      apply board_owns. simpl in Hi. lia.
    + reflexivity.
    + exact Hv.
    + apply Forall_nil.
Defined.


(** The write scenario across the end of region A, then completion. *)
Lemma write_session_then_complete_delivers_every_byte_witness :
  exists rs t1 w1 r t2 w2 new,
    target_flash_write_all heap no_reset 256 board [(0x08000FF8, sixteen)] power_on
    = Some (rs, t1, w1)
    /\ target_flash_complete no_reset 256 t1 w1 = Some (r, t2, w2)
    /\ trace w2 = new ++ trace power_on
    /\ forall dest src k v,
         In (dest, src) [(0x08000FF8, sixteen)] -> nth_error src k = Some v ->
         exists p, holds (flash board) p (dest + Z.of_nat k)
                   /\ delivered p new (dest + Z.of_nat k) v.
Proof.
  apply write_session_then_complete_delivers_every_byte.
  - intros d n. discriminate.
  - apply Forall_cons; [|apply Forall_cons; [|apply Forall_nil]];
      (split; [|split; [reflexivity|simpl; lia]]);
      (split; [reflexivity|]; split; [reflexivity|]; split; [simpl; lia|]);
      intros d; reflexivity.
  - apply Forall_cons; [|apply Forall_nil]. simpl. unfold UINT32_MAX. lia.
  - simpl. split; [apply Forall_nil|exact I].
  - apply Forall_cons; [|apply Forall_nil]. intros k Hk. cbn [fst snd] in *.
    apply board_owns. simpl in Hk. lia.
  - discriminate.
  - reflexivity.
Defined.

Lemma write_session_result_is_conjunction_of_answers_witness :
  exists rs t1 w1 r t2 w2 new,
    target_flash_write_all heap no_reset 256 board [(0x08000FF8, sixteen)] power_on
    = Some (rs, t1, w1)
    /\ target_flash_complete no_reset 256 t1 w1 = Some (r, t2, w2)
    /\ trace w2 = new ++ trace power_on
    /\ forallb (fun b => b) rs && r = forallb op_ok new.
Proof.
  apply write_session_result_is_conjunction_of_answers.
  - intros d n. discriminate.
  - apply Forall_cons; [|apply Forall_cons; [|apply Forall_nil]];
      (split; [|split; [reflexivity|simpl; lia]]);
      (split; [reflexivity|]; split; [reflexivity|]; split; [simpl; lia|]);
      intros d; reflexivity.
  - apply Forall_cons; [|apply Forall_nil]. simpl. unfold UINT32_MAX. lia.
  - apply Forall_cons; [|apply Forall_nil]. intros k Hk. cbn [fst snd] in *.
    apply board_owns. simpl in Hk. lia.
  - discriminate.
  - reflexivity.
Defined.

(** An erase in region B while region A is prepared and holds two
    unflushed bytes. *)
Lemma target_flash_erase_success_retires_every_region_witness :
  exists t' w',
    target_flash_erase no_reset 16 stale_board 0x08001010 0x10 power_on
    = Some (true, t', w')
    /\ Forall2 (fun f f' => ready f' = false /\ (ready f = true -> buf f' = None))
               (flash stale_board) (flash t').
Proof.
  let v := eval vm_compute in
             (target_flash_erase no_reset 16 stale_board 0x08001010 0x10 power_on) in
  match v with
  | Some (true, ?t', ?w') =>
      exists t', w';
      assert (E : target_flash_erase no_reset 16 stale_board 0x08001010 0x10 power_on
                  = Some (true, t', w')) by (vm_compute; reflexivity);
      split; [exact E|];
      apply (target_flash_erase_success_retires_every_region no_reset 16 stale_board
               0x08001010 0x10 power_on t' w'); [discriminate|exact E]
  end.
Defined.

(** The write scenario with an allocator that has no memory. *)
Lemma target_flash_write_fails_without_memory_witness :
  exists t' w' new,
    target_flash_write no_heap no_reset 16 board 0x08000FF8 sixteen 16 power_on
    = Some (false, t', w')
    /\ trace w' = new ++ trace power_on
    /\ forallb (fun e => negb (moves_data e)) new = true
    /\ Forall (fun f => buf f = None) (flash t').
Proof.
  apply target_flash_write_fails_without_memory.
  - intros d n. reflexivity.
  - apply Forall_cons; [reflexivity|apply Forall_cons; [reflexivity|apply Forall_nil]].
  - lia.
  - lia.
  - unfold UINT32_MAX. lia.
  - simpl. lia.
Defined.


(** An erase that runs from the last block of region A into region B. *)
Lemma target_flash_erase_calls_within_request_witness :
  exists r t' w',
    target_flash_erase no_reset 16 board 0x08000FF0 0x20 power_on = Some (r, t', w')
    /\ exists new, trace w' = new ++ trace power_on
                   /\ Forall (erase_within (flash board) 0x08000FF0 0x20) (erase_calls new).
Proof.
  let v := eval vm_compute in
             (target_flash_erase no_reset 16 board 0x08000FF0 0x20 power_on) in
  match v with
  | Some (?r, ?t', ?w') =>
      exists r, t', w';
      assert (E : target_flash_erase no_reset 16 board 0x08000FF0 0x20 power_on
                  = Some (r, t', w')) by (vm_compute; reflexivity);
      split; [exact E|];
      apply (target_flash_erase_calls_within_request no_reset 16 board
               0x08000FF0 0x20 power_on r t' w');
      [apply Forall_cons; [reflexivity|apply Forall_cons; [reflexivity|apply Forall_nil]]
      | lia | lia | lia | exact E]
  end.
Defined.

(** The write scenario on the board already in flash mode. *)
Lemma in_flash_mode_erase_and_write_do_not_reset_witness :
  flash_mode board_in_flash_mode = true
  /\ exists r t' w',
      target_flash_write heap no_reset 256 board_in_flash_mode 0x08000FF8 sixteen 16
                         power_on = Some (r, t', w')
      /\ exists new, trace w' = new ++ trace power_on
                     /\ forallb (fun e => negb (mode_event e)) new = true.
Proof.
  split; [reflexivity|].
  let v := eval vm_compute in
             (target_flash_write heap no_reset 256 board_in_flash_mode 0x08000FF8 sixteen 16
                                 power_on) in
  match v with
  | Some (?r, ?t', ?w') =>
      exists r, t', w';
      assert (E : target_flash_write heap no_reset 256 board_in_flash_mode 0x08000FF8
                                     sixteen 16 power_on
                  = Some (r, t', w')) by (vm_compute; reflexivity);
      split; [exact E|];
      apply (proj2 (in_flash_mode_erase_and_write_do_not_reset heap no_reset 256
                      board_in_flash_mode 0x08000FF8 16 sixteen power_on eq_refl) r t' w' E)
  end.
Defined.

Lemma primitives_are_called_on_prepared_regions_witness :
  exists r t' w',
    target_flash_write heap no_reset 256 board 0x08000FF8 sixteen 16 power_on
    = Some (r, t', w')
    /\ exists new, trace w' = new ++ trace power_on
                   /\ primitives_prepared (hooked (flash board)) (ready_of (flash board)) new.
Proof.
  let v := eval vm_compute in
             (target_flash_write heap no_reset 256 board 0x08000FF8 sixteen 16 power_on) in
  match v with
  | Some (?r, ?t', ?w') =>
      exists r, t', w';
      assert (E : target_flash_write heap no_reset 256 board 0x08000FF8 sixteen 16 power_on
                  = Some (r, t', w')) by (vm_compute; reflexivity);
      split; [exact E|];
      apply (proj1 (proj2 (primitives_are_called_on_prepared_regions heap no_reset 256 board
                             0x08000FF8 16 sixteen power_on)) r t' w' E)
  end.
Defined.

(** The lookup on the board of the scenarios: an address of region B. *)
Lemma target_flash_for_addr_first_match_witness :
  match target_flash_for_addr board 0x08001010 with
  | Some p =>
      exists f, nth_error (flash board) p = Some f /\ in_interval f 0x08001010
                /\ forall q g, (q < p)%nat -> nth_error (flash board) q = Some g ->
                               ~ in_interval g 0x08001010
  | None => forall f, In f (flash board) -> ~ in_interval f 0x08001010
  end.
Proof.
  apply (target_flash_for_addr_first_match board 0x08001010).
  apply Forall_cons; [|apply Forall_cons; [|apply Forall_nil]];
    unfold ends_below_top, UINT32_MAX; simpl; lia.
Defined.

Lemma odd_board_owns (x : Z) :
  0x08000000 <= x < 0x08001000 -> target_flash_for_addr odd_board x <> None.
Proof.
  intros Hx. unfold target_flash_for_addr, odd_board, odd_region, region.
  cbn [flash flash_for_addr_from start length].
  change (wrap32 (134217728 + 4096)) with 134221824.
  destruct (Z.leb_spec 134217728 x); [|lia].
  destruct (Z.ltb_spec x 134221824); [discriminate|lia].
Qed.

(** C1 as written: a region with 12-byte writes from a 16-byte buffer, in
    flash mode, with an allocator that does not fail and no prepare hook.
    Sixteen bytes written to the last page of the region fill the buffer;
    the flush at the end of the region starts at the page, passes the first
    twelve bytes of the buffer to the write primitive, and has four bytes
    left to write: the second call reads twelve bytes at offset 12 of the
    sixteen-byte buffer, eight of them past its end.  Neither the flush nor
    the write has a defined result, whatever the loop bound. *)
Lemma flush_reads_past_buffer_when_writesize_is_not_power_of_two :
  malloc_succeeds heap
  /\ flash_mode odd_board = true
  /\ Forall (fun f => prepare_succeeds f /\ buf f = None
                      /\ is_pow2 (writebufsize f) = true
                      /\ 0 < writesize f <= writebufsize f
                      /\ is_pow2 (writesize f) = false) (flash odd_board)
  /\ owned odd_board (0x08000FF0, sixteen)
  /\ (exists f1 w1,
        flash_buffered_write heap 16 0 odd_region 0x08000FF0 sixteen 16 power_on
        = Some (true, f1, w1)
        /\ buf f1 = Some sixteen
        /\ buf_addr_base f1 = 0x08000FF0
        /\ buf_addr_low f1 = 0x08000FF0
        /\ buf_addr_high f1 = 0x08001000
        /\ align_down (buf_addr_low f1) (writesize f1) = 0x08000FF0
        /\ read_bytes sixteen 0 (writesize f1) = Some (firstn 12 sixteen)
        /\ read_bytes sixteen 12 (writesize f1) = None
        /\ forall fuel w, flash_buffered_flush fuel 0 f1 w = None)
  /\ forall fuel,
       target_flash_write heap no_reset fuel odd_board 0x08000FF0 sixteen 16 power_on = None.
Proof.
  split; [intros d n; discriminate|]. split; [reflexivity|].
  split.
  { apply Forall_cons; [|apply Forall_nil].
    split; [exact I|]. split; [reflexivity|]. split; [reflexivity|].
    split; [simpl; lia|reflexivity]. }
  split.
  { intros k Hk. cbn [fst snd] in *. apply odd_board_owns. simpl in Hk. lia. }
  split.
  - eexists _, _. split; [vm_compute; reflexivity|].
    cbn [buf buf_addr_base buf_addr_low buf_addr_high writesize].
    split; [reflexivity|]. split; [reflexivity|]. split; [reflexivity|].
    split; [reflexivity|]. split; [reflexivity|]. split; [reflexivity|].
    split; [reflexivity|].
    intros [|[|n]] w; vm_compute; reflexivity.
  - intros [|[|n]]; vm_compute; reflexivity.
Qed.
